(** * babygogo: a shallow embedding of [stream.py] and [source.py]

    The Python program builds chains of generator-based filters that share
    mutable objects (a [Joiner] is the tail of two streams and the head of a
    third).  The embedding therefore keeps an explicit object store: streams,
    filters and generators live in lists indexed by address, every method is
    a store-passing function, and a raised exception is a result of its own
    that leaves the mutations made so far in place. *)

From Stdlib Require Import ZArith Lia.
From stdpp Require Import base option list strings.

Set Warnings "-register-all".

Open Scope string_scope.
Open Scope nat_scope.
Open Scope list_scope.

(** ** Python values and exceptions *)

(** The fragment of Python data that the streams of this development carry:
    [None], integers and tuples.  All of them are hashable, so every value
    can serve as a join key. *)
Inductive value : Type :=
  | VNone
  | VInt (n : Z)
  | VTuple (vs : list value).

(** Python's [==] on this fragment is structural. *)
Fixpoint value_eqb (a b : value) {struct a} : bool :=
  match a, b with
  | VNone, VNone => true
  | VInt n, VInt m => Z.eqb n m
  | VTuple xs, VTuple ys =>
      (fix go (xs ys : list value) {struct xs} : bool :=
         match xs, ys with
         | [], [] => true
         | x :: xs', y :: ys' => value_eqb x y && go xs' ys'
         | _, _ => false
         end) xs ys
  | _, _ => false
  end.

(** [x is not None] *)
Definition is_not_None (v : value) : bool :=
  match v with VNone => false | _ => true end.

Inductive exn : Type :=
  | UserError (name : string)   (* raised by a user-supplied callable *)
  | StopIteration               (* send() to a finished generator *)
  | RuntimeError                (* StopIteration crossing a generator frame *)
  | ValueError                  (* send() to a generator that is executing *)
  | TypeError                   (* subscripting None or an int *)
  | IndexError                  (* tuple index out of range, [][-1] *)
  | AttributeError              (* attribute access on None *)
  | AssertionError              (* pylru: assert size > 0 *)
  | RecursionError              (* the interpreter's call depth is exhausted *)
  | DanglingReference.          (* an address outside the store; no Python
                                   program can produce one *)

Inductive result (A : Type) : Type :=
  | Ok (a : A)
  | Raise (e : exn).
Arguments Ok {A} a.
Arguments Raise {A} e.

(** [data[i]] on a payload. *)
Definition subscript (d : value) (i : nat) : result value :=
  match d with
  | VTuple vs =>
      match vs !! i with
      | Some v => Ok v
      | None => Raise IndexError
      end
  | _ => Raise TypeError
  end.

(** ** User-supplied callables

    A callable may keep state of its own (the test-suite's [Cache] appends its
    argument to a list); that state is the [world], which the framework never
    reads.  A callable that raises keeps the effects it had before raising. *)
Definition world_t : Type := list value.
Definition callable : Type := value -> world_t -> result value * world_t.
Definition callable2 : Type := value -> value -> world_t -> result value * world_t.

Definition pure1 (f : value -> value) : callable :=
  fun x w => (Ok (f x), w).
Definition pure2 (f : value -> value -> value) : callable2 :=
  fun x acc w => (Ok (f x acc), w).
(** [Cache.__call__] of test_stream.py: append and return [None]. *)
Definition collect : callable :=
  fun x w => (Ok VNone, w ++ [x]).

(** ** Element (stream.py, class Element) *)
Record Element : Type := mkElement {
  stream_id : string;
  data : value }.

(** ** The bounded correlation cache *)

(** [pylru.lrucache], the third-party cache that [Joiner.__init__] instantiates
    once per side, is not part of the repository; this module stands for it. *)
Module lrucache.

(** Modelled from the spec: the missing [pylru.lrucache] is "a fixed-capacity
    mapping from key to most-recently-cached value per key, with
    least-recently-used eviction when capacity is exceeded".  The capacity, and
    the entries with the most recently used one first. *)
Record t : Type := mk {
  size : nat;
  table : list (value * value) }.

(** Modelled from the spec: [pylru.lrucache(size=max_size)], an empty cache
    whose capacity is "fixed at Joiner construction"; the library asserts
    [size > 0]. *)
Definition new (max_size : Z) : result t :=
  if (0 <? max_size)%Z then Ok (mk (Z.to_nat max_size) []) else Raise AssertionError.

(** Modelled from the spec: the value cached under a key, if any. *)
Fixpoint lookup (k : value) (l : list (value * value)) : option value :=
  match l with
  | [] => None
  | (k', v) :: l' => if value_eqb k k' then Some v else lookup k l'
  end.

(** Modelled from the spec: the entries without the one under a key. *)
Fixpoint remove (k : value) (l : list (value * value)) : list (value * value) :=
  match l with
  | [] => []
  | (k', v) :: l' => if value_eqb k k' then l' else (k', v) :: remove k l'
  end.

(** Modelled from the spec: [cache.get(key)] of the missing library, the
    default [None] when the key is absent; a hit is a use and makes the entry
    the most recently used one. *)
Definition get (k : value) (c : t) : value * t :=
  match lookup k (table c) with
  | None => (VNone, c)
  | Some v => (v, mk (size c) ((k, v) :: remove k (table c)))
  end.

(** Modelled from the spec: [cache[key] = value] of the missing library.  An
    existing entry is overwritten and becomes the most recently used one; a
    new one takes the place of the least recently used entry when the cache is
    full. *)
Definition set (k v : value) (c : t) : t :=
  match lookup k (table c) with
  | Some _ => mk (size c) ((k, v) :: remove k (table c))
  | None =>
      if (length (table c) <? size c)%nat
      then mk (size c) ((k, v) :: table c)
      else mk (size c) ((k, v) :: removelast (table c))
  end.

End lrucache.

(** ** Objects of the store *)

(** Filter (stream.py, classes Filter, Mapper, Reducer, Joiner).  [next] is
    the attribute of the base class; the variant holds the private fields of
    the subclass.  Streams are referred to by address. *)
Inductive filter_kind : Type :=
  | Mapper (f : callable)
  | Reducer (f : callable2) (acc initial : value)
  | Joiner (cache_left cache_right : lrucache.t)
           (left right target : nat) (max_size : Z).

Record Filter : Type := mkFilter {
  next : option nat;
  kind : filter_kind }.

(** A generator object made by [fltr()]: the frame of [Filter.__call__] bound
    to its filter.  Suspended at the [yield], executing, or finished (after an
    exception left the frame). *)
Inductive gen_state : Type := GSuspended | GRunning | GFinished.

Record generator : Type := mkGen {
  gen_self : nat;
  gen_state_of : gen_state }.

(** Stream (stream.py, class Stream). *)
Record Stream : Type := mkStream {
  s_head : option nat;
  s_filters : list nat;
  s_id : string }.

Record store : Type := mkStore {
  streams : list Stream;
  filter_objs : list Filter;
  generators : list generator;
  world : world_t;
  (* ghost: every non-None result of [self.process(element)] at line 105,
     with the address of the filter that produced it, in program order *)
  trace : list (nat * Element);
  (* what [logger.warn] received *)
  warnings : list string }.

Definition empty_store : store := mkStore [] [] [] [] [] [].

Definition set_streams (x : list Stream) (st : store) : store :=
  mkStore x (filter_objs st) (generators st) (world st) (trace st) (warnings st).
Definition set_filter_objs (x : list Filter) (st : store) : store :=
  mkStore (streams st) x (generators st) (world st) (trace st) (warnings st).
Definition set_generators (x : list generator) (st : store) : store :=
  mkStore (streams st) (filter_objs st) x (world st) (trace st) (warnings st).
Definition set_world (x : world_t) (st : store) : store :=
  mkStore (streams st) (filter_objs st) (generators st) x (trace st) (warnings st).
Definition set_trace (x : list (nat * Element)) (st : store) : store :=
  mkStore (streams st) (filter_objs st) (generators st) (world st) x (warnings st).
Definition set_warnings (x : list string) (st : store) : store :=
  mkStore (streams st) (filter_objs st) (generators st) (world st) (trace st) x.

(** Store-passing computations that may raise. *)
Definition M (A : Type) : Type := store -> result A * store.

Definition ret {A} (a : A) : M A := fun st => (Ok a, st).
Definition raise {A} (e : exn) : M A := fun st => (Raise e, st).
Definition bind {A B} (m : M A) (k : A -> M B) : M B :=
  fun st =>
    match m st with
    | (Ok a, st') => k a st'
    | (Raise e, st') => (Raise e, st')
    end.

Notation "'let*' x ':=' m 'in' k" := (bind m (fun x => k))
  (at level 10, x pattern, m at level 100, k at level 200).

Definition modify (f : store -> store) : M unit := fun st => (Ok tt, f st).

Definition get_stream (s : nat) : M Stream :=
  fun st => match streams st !! s with
            | Some so => (Ok so, st)
            | None => (Raise DanglingReference, st)
            end.
Definition get_filter (a : nat) : M Filter :=
  fun st => match filter_objs st !! a with
            | Some fo => (Ok fo, st)
            | None => (Raise DanglingReference, st)
            end.

Definition set_stream (s : nat) (so : Stream) : M unit :=
  modify (fun st => set_streams (<[s := so]> (streams st)) st).
Definition set_filter (a : nat) (fo : Filter) : M unit :=
  modify (fun st => set_filter_objs (<[a := fo]> (filter_objs st)) st).
Definition set_gen_state (g : nat) (s : gen_state) (st : store) : store :=
  match generators st !! g with
  | Some go => set_generators (<[g := mkGen (gen_self go) s]> (generators st)) st
  | None => st
  end.

Definition alloc_filter (fo : Filter) : M nat :=
  fun st => (Ok (length (filter_objs st)),
             set_filter_objs (filter_objs st ++ [fo]) st).
Definition alloc_gen (go : generator) : M nat :=
  fun st => (Ok (length (generators st)),
             set_generators (generators st ++ [go]) st).
Definition alloc_stream (so : Stream) : M nat :=
  fun st => (Ok (length (streams st)),
             set_streams (streams st ++ [so]) st).

(** ** Filters (stream.py, lines 85-200) *)

(** [Mapper.process] (lines 117-121). *)
Definition Mapper_process (f : callable) (element : Element) : M (option Element) :=
  fun st =>
    match f (data element) (world st) with
    | (Ok result, w) =>
        (Ok (Some (mkElement (stream_id element) result)), set_world w st)
    | (Raise e, w) => (Raise e, set_world w st)
    end.

(** [Mapper.copy] (lines 123-124): a new mapper over the same callable, with
    the [next] that [Filter.__init__] gives it.  Only [Mapper] defines
    [copy]. *)
Definition Mapper_copy (self : nat) : M nat :=
  let* fo := get_filter self in
  match kind fo with
  | Mapper f => alloc_filter (mkFilter None (Mapper f))
  | _ => raise AttributeError
  end.

(** [Reducer.process] (lines 139-143) of the reducer at address [self]: the
    accumulator is overwritten before the element is built. *)
Definition Reducer_process (self : nat) (nxt : option nat) (f : callable2)
    (acc initial : value) (element : Element) : M (option Element) :=
  fun st =>
    match f (data element) acc (world st) with
    | (Ok acc', w) =>
        let st1 := set_world w st in
        (Ok (Some (mkElement (stream_id element) acc')),
         set_filter_objs
           (<[self := mkFilter nxt (Reducer f acc' initial)]> (filter_objs st1)) st1)
    | (Raise e, w) => (Raise e, set_world w st)
    end.

(** The body of [Joiner.process] (lines 180-200) over the two caches, given the
    identities read from [self.__left.id] and [self.__target.id].  Returns the
    result and the caches as the call leaves them. *)
Definition Joiner_step (left_id target_id : string)
    (cache_left cache_right : lrucache.t) (element : Element)
    : result (option Element) * (lrucache.t * lrucache.t) :=
  match subscript (data element) 0 with
  | Raise e => (Raise e, (cache_left, cache_right))
  | Ok key =>
      match subscript (data element) 1 with
      | Raise e => (Raise e, (cache_left, cache_right))
      | Ok val =>
          if String.eqb (stream_id element) left_id then
            let '(cached, cache_right') := lrucache.get key cache_right in
            if is_not_None cached then
              (Ok (Some (mkElement target_id (VTuple [key; VTuple [val; cached]]))),
               (cache_left, cache_right'))
            else
              (Ok None, (lrucache.set key val cache_left, cache_right'))
          else
            let '(cached, cache_left') := lrucache.get key cache_left in
            if is_not_None cached then
              (Ok (Some (mkElement target_id (VTuple [key; VTuple [cached; val]]))),
               (cache_left', cache_right))
            else
              (Ok None, (cache_left', lrucache.set key val cache_right))
      end
  end.

(** [Joiner.process] of the joiner at address [self]. *)
Definition Joiner_process (self : nat) (nxt : option nat)
    (cache_left cache_right : lrucache.t) (left right target : nat) (max_size : Z)
    (element : Element) : M (option Element) :=
  let* l := get_stream left in
  let* t := get_stream target in
  let '(r, (cl, cr)) := Joiner_step (s_id l) (s_id t) cache_left cache_right element in
  let* _ := set_filter self (mkFilter nxt (Joiner cl cr left right target max_size)) in
  match r with
  | Ok o => ret o
  | Raise e => raise e
  end.

(** Dynamic dispatch of [self.process(element)]. *)
Definition process (self : nat) (element : Element) : M (option Element) :=
  let* fo := get_filter self in
  match kind fo with
  | Mapper f => Mapper_process f element
  | Reducer f acc initial => Reducer_process self (next fo) f acc initial element
  | Joiner cl cr l r t m => Joiner_process self (next fo) cl cr l r t m element
  end.

(** An exception that leaves a generator frame: a [StopIteration] is replaced
    by [RuntimeError] (PEP 479). *)
Definition leaving_generator (e : exn) : exn :=
  match e with
  | StopIteration => RuntimeError
  | _ => e
  end.

(** [it.send(element)] for the generator [it] of a filter: one turn of the
    loop of [Filter.__call__] (lines 102-107) with [send_next] (lines 94-96)
    inlined.  A finished generator raises [StopIteration], one that is
    executing raises [ValueError]; an exception inside the frame finishes the
    generator.  [depth] bounds the nesting of sends; [send_depth] below shows
    that the bound is immaterial once it exceeds the number of suspended
    generators.  The recursion limit of the interpreter is not modelled. *)
Fixpoint send (depth : nat) (it : nat) (element : Element) (st : store)
    : result unit * store :=
  match depth with
  | O => (Raise RecursionError, st)
  | S depth' =>
      match generators st !! it with
      | None => (Raise DanglingReference, st)
      | Some go =>
          match gen_state_of go with
          | GFinished => (Raise StopIteration, st)
          | GRunning => (Raise ValueError, st)
          | GSuspended =>
              let self := gen_self go in
              match process self element (set_gen_state it GRunning st) with
              | (Raise e, st1) =>
                  (Raise (leaving_generator e), set_gen_state it GFinished st1)
              | (Ok None, st1) => (Ok tt, set_gen_state it GSuspended st1)
              | (Ok (Some result), st1) =>
                  let st2 := set_trace (trace st1 ++ [(self, result)]) st1 in
                  match filter_objs st2 !! self with
                  | None => (Raise DanglingReference, set_gen_state it GFinished st2)
                  | Some fo =>
                      match next fo with
                      | None => (Ok tt, set_gen_state it GSuspended st2)
                      | Some nxt =>
                          match send depth' nxt result st2 with
                          | (Ok _, st3) => (Ok tt, set_gen_state it GSuspended st3)
                          | (Raise e, st3) =>
                              (Raise (leaving_generator e),
                               set_gen_state it GFinished st3)
                          end
                      end
                  end
              end
          end
      end
  end.

(** Every nested send marks one more generator as executing, so a depth of
    one more than the number of generators is never exhausted. *)
Definition send_top (it : nat) (element : Element) : M unit :=
  fun st => send (S (length (generators st))) it element st.

(** ** Stream (stream.py, lines 9-69) *)

(** [Stream(stream_id)]; [uuid] is what [str(uuid.uuid1())] returns. *)
Definition Stream_new (stream_id : option string) (uuid : string) : M nat :=
  alloc_stream (mkStream None [] (default uuid stream_id)).

(** [Stream.append] (lines 58-69).  [fltr()] makes a new generator over the
    filter and [next(it)] runs it to its first [yield]. *)
Definition Stream_append (self : nat) (fltr : nat) : M unit :=
  let* it := alloc_gen (mkGen fltr GSuspended) in
  let* so := get_stream self in
  let* _ :=
    match s_head so with
    | None => set_stream self (mkStream (Some it) (s_filters so) (s_id so))
    | Some _ =>
        match last (s_filters so) with
        | None => raise IndexError
        | Some tl =>
            let* fo := get_filter tl in
            set_filter tl (mkFilter (Some it) (kind fo))
        end
    end in
  let* so' := get_stream self in
  set_stream self (mkStream (s_head so') (s_filters so' ++ [fltr]) (s_id so')).

(** [Stream.map] (lines 23-32) and [Stream.reduce] (lines 34-44); both return
    [self]. *)
Definition Stream_map (self : nat) (f : callable) : M nat :=
  let* m := alloc_filter (mkFilter None (Mapper f)) in
  let* _ := Stream_append self m in
  ret self.

Definition Stream_reduce (self : nat) (f : callable2) (initial : value) : M nat :=
  let* r := alloc_filter (mkFilter None (Reducer f initial initial)) in
  let* _ := Stream_append self r in
  ret self.

(** [Stream.process] (lines 46-56). *)
Definition Stream_process (self : nat) (d : value) : M unit :=
  let* so := get_stream self in
  match s_head so with
  | Some it => send_top it (mkElement (s_id so) d)
  | None => ret tt
  end.

(** [Joiner(left, right, target, max_size)] (lines 158-165). *)
Definition Joiner_new (left right target : nat) (max_size : Z) : M nat :=
  match lrucache.new max_size, lrucache.new max_size with
  | Ok cl, Ok cr =>
      alloc_filter (mkFilter None (Joiner cl cr left right target max_size))
  | Raise e, _ | _, Raise e => raise e
  end.

(** [join] (lines 203-220). *)
Definition join (left right : nat) (max_size : Z) (uuid : string) : M nat :=
  let* new_stream := Stream_new None uuid in
  let* joiner := Joiner_new left right new_stream max_size in
  let* _ := Stream_append left joiner in
  let* _ := Stream_append right joiner in
  let* _ := Stream_append new_stream joiner in
  ret new_stream.

(** ** Sources (source.py) *)

(** The attribute [_stream] of a [Source]: [None] until [attach]. *)
Record Source : Type := mkSource { _stream : option nat }.

Definition Source_new : Source := mkSource None.
Definition attach (self : Source) (stream : nat) : Source := mkSource (Some stream).

(** [Source._process] (lines 33-37). *)
Definition Source__process (self : Source) (element : value) : M unit :=
  match _stream self with
  | Some s => Stream_process s element
  | None =>
      modify (fun st =>
        set_warnings
          (warnings st ++ ["Received element with no attached stream.  Discarding."]) st)
  end.

(** [IterableSource.start] (lines 46-48) over the elements of the iterable. *)
Fixpoint IterableSource_start (self : Source) (itr : list value) : M unit :=
  match itr with
  | [] => ret tt
  | e :: itr' =>
      let* _ :=
        match _stream self with
        | Some s => Stream_process s e
        | None => raise AttributeError
        end in
      IterableSource_start self itr'
  end.

(** [KafkaSource.start] (lines 67-70) over the values of the records that the
    consumer delivers. *)
Fixpoint KafkaSource_start (self : Source) (records : list value) : M unit :=
  match records with
  | [] => ret tt
  | v :: records' =>
      let* _ := Source__process self v in
      KafkaSource_start self records'
  end.

(** Successive calls of [stream.process]. *)
Fixpoint process_all (s : nat) (ds : list value) : M unit :=
  match ds with
  | [] => ret tt
  | d :: ds' => let* _ := Stream_process s d in process_all s ds'
  end.

(** Successive calls of [stream.append]. *)
Fixpoint appends (s : nat) (fltrs : list nat) : M unit :=
  match fltrs with
  | [] => ret tt
  | a :: fltrs' => let* _ := Stream_append s a in appends s fltrs'
  end.

(** [left.process(d)] and [right.process(d)] in any interleaving: a feed is a
    payload with the side it is processed on ([true] for the left stream). *)
Fixpoint feeds (left right : nat) (ds : list (bool * value)) : M unit :=
  match ds with
  | [] => ret tt
  | (on_left, d) :: ds' =>
      let* _ := Stream_process (if on_left then left else right) d in
      feeds left right ds'
  end.

(** ** Vocabulary of the statements *)

(** The cache that [Joiner.process] searches for an arrival stamped [sid] (the
    opposite side) and the one it stores into (the arriving side), line 183. *)
Definition opposite_cache (left_id sid : string) (cache_left cache_right : lrucache.t)
    : lrucache.t :=
  if String.eqb sid left_id then cache_right else cache_left.
Definition own_cache (left_id sid : string) (cache_left cache_right : lrucache.t)
    : lrucache.t :=
  if String.eqb sid left_id then cache_left else cache_right.

(** Successive calls of [Joiner.process] on one joiner: the results in order,
    and the caches at the end. *)
Fixpoint Joiner_steps (left_id target_id : string)
    (cache_left cache_right : lrucache.t) (elements : list Element)
    : list (result (option Element)) * (lrucache.t * lrucache.t) :=
  match elements with
  | [] => ([], (cache_left, cache_right))
  | e :: es =>
      let '(r, (cl, cr)) := Joiner_step left_id target_id cache_left cache_right e in
      let '(rs, caches) := Joiner_steps left_id target_id cl cr es in
      (r :: rs, caches)
  end.

(** Successive stores [cache[k] = v] into one cache. *)
Definition sets (kvs : list (value * value)) (c : lrucache.t) : lrucache.t :=
  fold_left (fun c kv => lrucache.set kv.1 kv.2 c) kvs c.

(** The payload [(key, value)]. *)
Definition pair_data (kv : value * value) : value := VTuple [kv.1; kv.2].

Definition within_capacity (c : lrucache.t) : Prop :=
  length (lrucache.table c) <= lrucache.size c.

(** The arrival [e] carries the key [k] and the value [v] (lines 181-182). *)
Definition carries (e : Element) (k v : value) : Prop :=
  subscript (data e) 0 = Ok k /\ subscript (data e) 1 = Ok v.

(** The number of entries of a cache that were used more recently than the
    one under [k] (the entries ahead of it). *)
Fixpoint rank (k : value) (l : list (value * value)) : nat :=
  match l with
  | [] => 0
  | (k', _) :: l' => if value_eqb k k' then 0 else S (rank k l')
  end.

(** The arrival [e] comes from the side of the stream [sid]: line 183 tells
    the sides apart by comparing the identity with the left one. *)
Definition same_side (lid sid : string) (e : Element) : bool :=
  Bool.eqb (String.eqb (stream_id e) lid) (String.eqb sid lid).

(** The key of the arrival, [element.data[0]], is [k]. *)
Definition has_key (k : value) (e : Element) : bool :=
  match subscript (data e) 0 with
  | Ok k' => value_eqb k k'
  | Raise _ => false
  end.

(** The arrivals of [es] other than those under the key [k] on the side of
    [sid]. *)
Definition other_arrivals (lid sid : string) (k : value) (es : list Element) : list Element :=
  List.filter (fun e => negb (same_side lid sid e && has_key k e)) es.

(** Every cached entry was carried by an arrival on its side. *)
Definition cached_from (lid : string) (seen : list Element) (cl cr : lrucache.t) : Prop :=
  (forall k v, (k, v) ∈ lrucache.table cl ->
     exists e, e ∈ seen /\ stream_id e = lid /\ carries e k v) /\
  (forall k v, (k, v) ∈ lrucache.table cr ->
     exists e, e ∈ seen /\ stream_id e <> lid /\ carries e k v).

(** The element [out] joins an arrival on the left with one on the right. *)
Definition joins (lid tid : string) (seen : list Element) (out : Element) : Prop :=
  exists k a b el er,
    out = mkElement tid (VTuple [k; VTuple [a; b]]) /\
    el ∈ seen /\ stream_id el = lid /\ carries el k a /\
    er ∈ seen /\ stream_id er <> lid /\ carries er k b.

(** The elements that the feeds make, as [Stream.process] stamps them
    (lines 54-56). *)
Definition arrivals (lid rid : string) (ds : list (bool * value)) : list Element :=
  (fun bd : bool * value => mkElement (if bd.1 then lid else rid) bd.2) <$> ds.

(** What the filter at [j] emits for the results [rs] of its [process]. *)
Definition emitted (j : nat) (rs : list (result (option Element))) : list (nat * Element) :=
  flat_map (fun r => match r with Ok (Some out) => [(j, out)] | _ => [] end) rs.

(** A payload that [Joiner.process] can subscript twice. *)
Definition is_pair (d : value) : Prop :=
  match d with
  | VTuple (_ :: _ :: _) => True
  | _ => False
  end.

(** ** Chains of stages whose callables leave the world alone

    The statements about [map] and [reduce] pipelines quantify over callables
    that compute a value or raise, without side effects of their own. *)

Definition lift1 (f : value -> result value) : callable :=
  fun x w => (f x, w).
Definition lift2 (f : value -> value -> result value) : callable2 :=
  fun x acc w => (f x acc, w).

(** What [Stream.map] and [Stream.reduce] are called with. *)
Inductive op : Type :=
  | OpMap (f : value -> result value)
  | OpReduce (f : value -> value -> result value) (initial : value).

Definition apply_op (s : nat) (o : op) : M nat :=
  match o with
  | OpMap f => Stream_map s (lift1 f)
  | OpReduce f initial => Stream_reduce s (lift2 f) initial
  end.

(** [stream.map(f1).reduce(f2, i)...]: the calls chain on the returned
    stream. *)
Fixpoint build (s : nat) (ops : list op) : M nat :=
  match ops with
  | [] => ret s
  | o :: ops' => let* s' := apply_op s o in build s' ops'
  end.

(** The state of a stage between two elements. *)
Inductive pstage : Type :=
  | PMap (f : value -> result value)
  | PReduce (f : value -> value -> result value) (acc initial : value).

Definition stage_of (o : op) : pstage :=
  match o with
  | OpMap f => PMap f
  | OpReduce f initial => PReduce f initial initial
  end.

Definition kind_of (p : pstage) : filter_kind :=
  match p with
  | PMap f => Mapper (lift1 f)
  | PReduce f acc initial => Reducer (lift2 f) acc initial
  end.

(** What a stage returns for a payload, and the stage afterwards. *)
Definition stage_apply (p : pstage) (x : value) : result value * pstage :=
  match p with
  | PMap f => (f x, p)
  | PReduce f acc initial =>
      match f x acc with
      | Ok acc' => (Ok acc', PReduce f acc' initial)
      | Raise e => (Raise e, p)
      end
  end.

(** A cell of a chain: the generator, the filter it runs, the stage. *)
Definition cell : Type := nat * nat * pstage.
Definition cell_gen (c : cell) : nat := c.1.1.
Definition cell_addr (c : cell) : nat := c.1.2.
Definition cell_stage (c : cell) : pstage := c.2.

(** What sending the payload [x], stamped [sid], into the chain [l] does: the
    exception that reaches the sender (if any), the chain afterwards, the
    elements produced in order, and the generators that an exception
    finished. *)
Record outcome : Type := mkOutcome {
  o_fault : option exn;
  o_chain : list cell;
  o_outs : list (nat * Element);
  o_finished : list nat }.

Fixpoint run_chain (sid : string) (l : list cell) (x : value) : outcome :=
  match l with
  | [] => mkOutcome None [] [] []
  | (g, a, p) :: l' =>
      match stage_apply p x with
      | (Raise e, p') => mkOutcome (Some (leaving_generator e)) ((g, a, p') :: l') [] [g]
      | (Ok y, p') =>
          let o := run_chain sid l' y in
          mkOutcome (leaving_generator <$> o_fault o)
                    ((g, a, p') :: o_chain o)
                    ((a, mkElement sid y) :: o_outs o)
                    (match o_fault o with
                     | Some _ => g :: o_finished o
                     | None => []
                     end)
      end
  end.

(** The filters of the chain [l] are linked in this order from the generator
    reference [it] on, and the last one has no [next]. *)
Fixpoint linked (fs : list Filter) (it : option nat) (l : list cell) : Prop :=
  match l with
  | [] => it = None
  | (g, a, p) :: l' =>
      it = Some g /\
      exists nx, fs !! a = Some (mkFilter nx (kind_of p)) /\ linked fs nx l'
  end.

(** The filters of the chain [l] are linked in this order from [it] on, and
    the last one relays to [tail]. *)
Fixpoint linked_to (fs : list Filter) (it : option nat) (l : list cell)
    (tail : option nat) : Prop :=
  match l with
  | [] => it = tail
  | (g, a, p) :: l' =>
      it = Some g /\
      exists nx, fs !! a = Some (mkFilter nx (kind_of p)) /\ linked_to fs nx l' tail
  end.

(** Each generator of the chain is suspended over its filter. *)
Definition suspended (gs : list generator) (l : list cell) : Prop :=
  Forall (fun c => gs !! cell_gen c = Some (mkGen (cell_addr c) GSuspended)) l.

(** The stream [s] of the store is the chain [l], built by appends only. *)
Definition stream_chain (st : store) (s : nat) (sid : string) (l : list cell) : Prop :=
  exists so,
    streams st !! s = Some so /\
    s_id so = sid /\
    s_filters so = cell_addr <$> l /\
    linked (filter_objs st) (s_head so) l /\
    suspended (generators st) l /\
    NoDup (cell_gen <$> l) /\
    NoDup (cell_addr <$> l) /\
    length l <= length (generators st).

Definition finish (go : generator) : generator := mkGen (gen_self go) GFinished.

(** The generators [gs] put into the state [s], the first one last. *)
Definition set_all (s : gen_state) (gs : list nat) (st : store) : store :=
  foldr (fun g st => set_gen_state g s st) st gs.

(** The stream [s] is the mappers [l] followed by a mapper, at address [mc]
    and run by the generator [gc], whose callable is [collect]. *)
Definition collecting (st : store) (s : nat) (sid : string) (l : list cell)
    (gc mc : nat) : Prop :=
  exists hd,
    streams st !! s = Some (mkStream (Some hd) ((cell_addr <$> l) ++ [mc]) sid) /\
    linked_to (filter_objs st) (Some hd) l (Some gc) /\
    suspended (generators st) l /\
    NoDup (cell_gen <$> l) /\
    (gc ∉ cell_gen <$> l) /\
    generators st !! gc = Some (mkGen mc GSuspended) /\
    filter_objs st !! mc = Some (mkFilter None (Mapper collect)).

(** [stream.map(f1)...map(fn)] with total functions. *)
Fixpoint map_all (s : nat) (fs : list (value -> value)) : M nat :=
  match fs with
  | [] => ret s
  | f :: fs' => let* s' := Stream_map s (pure1 f) in map_all s' fs'
  end.

(** [fn(...f2(f1(x))...)] and the intermediate results [f1(x)], [f2(f1(x))],
    ... in order. *)
Definition compose_all (fs : list (value -> value)) (x : value) : value :=
  fold_left (fun v f => f v) fs x.
Fixpoint scan_all (fs : list (value -> value)) (x : value) : list value :=
  match fs with
  | [] => []
  | f :: fs' => f x :: scan_all fs' (f x)
  end.

(** [f] folded over the inputs in call order from [initial]; the reducer calls
    [f(element.data, acc)]. *)
Definition fold_inputs (f : value -> value -> value) (initial : value)
    (xs : list value) : value :=
  fold_left (fun acc x => f x acc) xs initial.

(** What a send into a chain leaves behind, field by field. *)
Definition chain_post (st st' : store) (it : option nat) (l : list cell) (o : outcome) : Prop :=
  streams st' = streams st /\
  world st' = world st /\
  warnings st' = warnings st /\
  trace st' = trace st ++ o_outs o /\
  length (generators st') = length (generators st) /\
  (forall g, generators st' !! g =
             if decide (g ∈ o_finished o)
             then finish <$> generators st !! g
             else generators st !! g) /\
  length (filter_objs st') = length (filter_objs st) /\
  (forall a, a ∉ cell_addr <$> l -> filter_objs st' !! a = filter_objs st !! a) /\
  linked (filter_objs st') it (o_chain o).

(** What the sender of the element sees. *)
Definition result_of (o : outcome) : result unit :=
  match o_fault o with
  | None => Ok tt
  | Some x => Raise x
  end.

(** [map(f)] with a function that returns. *)
Definition total_map (f : value -> value) : op := OpMap (fun x => Ok (f x)).

(** [reduce(f, initial)] with a function that returns. *)
Definition total_reduce (f : value -> value -> value) (initial : value) : op :=
  OpReduce (fun x acc => Ok (f x acc)) initial.

(** The streams [l] and [r] of the store enter the joiner [j], whose results
    are stamped with the identity of [t] and relayed to the chain [ld]. *)
Definition joined (st : store) (l r t j : nat) (lid rid tid : string)
    (cl cr : lrucache.t) (nx : option nat) (ld : list cell) : Prop :=
  exists gl gr fl fr stt m,
    streams st !! l = Some (mkStream (Some gl) fl lid) /\
    streams st !! r = Some (mkStream (Some gr) fr rid) /\
    streams st !! t = Some stt /\ s_id stt = tid /\
    generators st !! gl = Some (mkGen j GSuspended) /\
    generators st !! gr = Some (mkGen j GSuspended) /\
    filter_objs st !! j = Some (mkFilter nx (Joiner cl cr l r t m)) /\
    linked (filter_objs st) nx ld /\
    suspended (generators st) ld /\
    NoDup (cell_gen <$> ld) /\
    NoDup (cell_addr <$> ld) /\
    (gl ∉ cell_gen <$> ld) /\
    (gr ∉ cell_gen <$> ld) /\
    (j ∉ cell_addr <$> ld) /\
    length ld < length (generators st).

(** The callable of [o] raises [e] on its first call, with payload [v]. *)
Definition op_raises (o : op) (v : value) (e : exn) : Prop :=
  match o with
  | OpMap f => f v = Raise e
  | OpReduce f initial => f v initial = Raise e
  end.


(** ** The depth of nested sends *)

Definition is_suspended (go : generator) : bool :=
  match gen_state_of go with GSuspended => true | _ => false end.

(** The generators that a send can still enter. *)
Definition suspended_count (gs : list generator) : nat :=
  length (List.filter is_suspended gs).

(** ** The callables and programs of test/test_stream.py *)

(** [element * 2]: the double of an integer, a tuple repeated twice;
    [TypeError] on [None]. *)
Definition times_2 : callable :=
  fun element w =>
    match element with
    | VInt n => (Ok (VInt (n * 2)), w)
    | VTuple vs => (Ok (VTuple (vs ++ vs)), w)
    | VNone => (Raise TypeError, w)
    end.

(** [element + acc]: the sum of two integers, the concatenation of two
    tuples; [TypeError] on any other pair. *)
Definition add : callable2 :=
  fun element acc w =>
    match element, acc with
    | VInt n, VInt m => (Ok (VInt (n + m)), w)
    | VTuple xs, VTuple ys => (Ok (VTuple (xs ++ ys)), w)
    | _, _ => (Raise TypeError, w)
    end.

Definition test_map : M unit :=
  let* stream := Stream_new None "uuid-1" in
  let* stream := Stream_map stream times_2 in
  let* stream := Stream_map stream collect in
  Stream_process stream (VInt 4).

Definition test_reduce : M unit :=
  let* stream := Stream_new None "uuid-1" in
  let* stream := Stream_reduce stream add (VInt 1) in
  let* stream := Stream_map stream collect in
  process_all stream [VInt 4; VInt 4; VInt 4].

Definition test_join : M unit :=
  let* stream1 := Stream_new None "uuid-1" in
  let* stream2 := Stream_new None "uuid-2" in
  let* joined_stream := join stream1 stream2 128 "uuid-3" in
  let* _ := Stream_map joined_stream collect in
  let* _ := Stream_process stream1 (VTuple [VInt 1; VInt 1]) in
  let* _ := Stream_process stream2 (VTuple [VInt 1; VInt 2]) in
  let* _ := Stream_process stream1 (VTuple [VInt 2; VInt 3]) in
  Stream_process stream2 (VTuple [VInt 2; VInt 5]).

(** * Properties *)

(** ** Values *)

Lemma value_eqb_refl (a : value) : value_eqb a a = true.
Proof.
  revert a. fix IH 1. intros [|n|vs]; simpl.
  - reflexivity.
  - apply Z.eqb_refl.
  - induction vs as [|x xs IHxs]; [reflexivity|].
    rewrite (IH x). simpl. exact IHxs.
Qed.

Lemma value_eqb_eq (a b : value) : value_eqb a b = true -> a = b.
Proof.
  revert a b. fix IH 1. intros [|n|xs] [|m|ys]; simpl; try discriminate.
  - reflexivity.
  - intros H. apply Z.eqb_eq in H. congruence.
  - intros H. f_equal. revert ys H.
    induction xs as [|x xs IHxs]; intros [|y ys] H; try discriminate.
    + reflexivity.
    + apply andb_prop in H as [H1 H2].
      f_equal; [apply IH; exact H1 | apply IHxs; exact H2].
Qed.

Lemma value_eqb_neq (a b : value) : a <> b -> value_eqb a b = false.
Proof.
  intros H. destruct (value_eqb a b) eqn:E; [|reflexivity].
  apply value_eqb_eq in E. contradiction.
Qed.

Lemma is_not_None_true (v : value) : v <> VNone -> is_not_None v = true.
Proof. destruct v; simpl; congruence. Qed.

(** ** The cache *)

Lemma lookup_remove_length k l v :
  lrucache.lookup k l = Some v -> S (length (lrucache.remove k l)) = length l.
Proof.
  induction l as [|[k' v'] l IH]; simpl; [discriminate|].
  destruct (value_eqb k k'); [reflexivity|].
  intros H. simpl. rewrite IH; [reflexivity | exact H].
Qed.

Lemma lookup_not_in k l :
  k ∉ l.*1 -> lrucache.lookup k l = None.
Proof.
  induction l as [|[k' v'] l IH]; simpl; [reflexivity|].
  intros H. rewrite not_elem_of_cons in H. destruct H as [H1 H2].
  rewrite value_eqb_neq by exact H1. apply IH, H2.
Qed.


Lemma removelast_length_pred {A} (l : list A) :
  length (removelast l) = pred (length l).
Proof. rewrite removelast_firstn_len, length_take. lia. Qed.

Lemma get_within_capacity k c :
  within_capacity c -> within_capacity (lrucache.get k c).2.
Proof.
  unfold within_capacity, lrucache.get. intros H.
  destruct (lrucache.lookup k (lrucache.table c)) eqn:E; simpl; [|exact H].
  rewrite (lookup_remove_length _ _ _ E). exact H.
Qed.

Lemma set_within_capacity k v c :
  0 < lrucache.size c -> within_capacity c -> within_capacity (lrucache.set k v c).
Proof.
  unfold within_capacity, lrucache.set. intros Hpos H.
  destruct (lrucache.lookup k (lrucache.table c)) eqn:E; simpl.
  - rewrite (lookup_remove_length _ _ _ E). exact H.
  - destruct (Nat.ltb_spec (length (lrucache.table c)) (lrucache.size c)); simpl.
    + lia.
    + rewrite removelast_length_pred. lia.
Qed.

Lemma get_size k c : lrucache.size (lrucache.get k c).2 = lrucache.size c.
Proof.
  unfold lrucache.get. destruct (lrucache.lookup k (lrucache.table c)); reflexivity.
Qed.

Lemma set_size k v c : lrucache.size (lrucache.set k v c) = lrucache.size c.
Proof.
  unfold lrucache.set. destruct (lrucache.lookup k (lrucache.table c)); [reflexivity|].
  destruct (length (lrucache.table c) <? lrucache.size c); reflexivity.
Qed.

Lemma lookup_set k v c :
  lrucache.lookup k (lrucache.table (lrucache.set k v c)) = Some v.
Proof.
  unfold lrucache.set. destruct (lrucache.lookup k (lrucache.table c)); simpl.
  - rewrite value_eqb_refl. reflexivity.
  - destruct (length (lrucache.table c) <? lrucache.size c); simpl;
      rewrite value_eqb_refl; reflexivity.
Qed.

Lemma get_hit k v c :
  lrucache.lookup k (lrucache.table c) = Some v ->
  lrucache.get k c =
    (v, lrucache.mk (lrucache.size c) ((k, v) :: lrucache.remove k (lrucache.table c))).
Proof. unfold lrucache.get. intros ->. reflexivity. Qed.

Lemma get_miss k c :
  lrucache.lookup k (lrucache.table c) = None -> lrucache.get k c = (VNone, c).
Proof. unfold lrucache.get. intros ->. reflexivity. Qed.

(** A hit leaves the entry in the cache, as the most recently used one; a
    second lookup changes nothing more. *)
Lemma get_hit_again k v c :
  lrucache.lookup k (lrucache.table c) = Some v ->
  lrucache.lookup k (lrucache.table (lrucache.get k c).2) = Some v /\
  lrucache.get k (lrucache.get k c).2 = (v, (lrucache.get k c).2).
Proof.
  intros H. rewrite (get_hit _ _ _ H). simpl. split.
  - rewrite value_eqb_refl. reflexivity.
  - unfold lrucache.get. simpl. rewrite value_eqb_refl. reflexivity.
Qed.

(** ** The joiner, one arrival at a time *)

(** [Joiner.process] in the store is [Joiner_step] on the caches of the joiner
    object, written back into the object. *)
Lemma process_Joiner j nx cl cr l r t m sl stt e st :
  filter_objs st !! j = Some (mkFilter nx (Joiner cl cr l r t m)) ->
  streams st !! l = Some sl ->
  streams st !! t = Some stt ->
  process j e st =
    ((Joiner_step (s_id sl) (s_id stt) cl cr e).1,
     set_filter_objs
       (<[j := mkFilter nx
                 (Joiner (Joiner_step (s_id sl) (s_id stt) cl cr e).2.1
                         (Joiner_step (s_id sl) (s_id stt) cl cr e).2.2 l r t m)]>
          (filter_objs st)) st).
Proof.
  intros Hj Hl Ht. unfold process, bind, get_filter. rewrite Hj. simpl.
  unfold Joiner_process, bind, get_stream. rewrite Hl, Ht.
  destruct (Joiner_step (s_id sl) (s_id stt) cl cr e) as [[o|x] [cl' cr']];
    reflexivity.
Qed.

Lemma Joiner_step_pair lid tid cl cr sid k v :
  Joiner_step lid tid cl cr (mkElement sid (VTuple [k; v])) =
    if String.eqb sid lid then
      if is_not_None (lrucache.get k cr).1
      then (Ok (Some (mkElement tid (VTuple [k; VTuple [v; (lrucache.get k cr).1]]))),
            (cl, (lrucache.get k cr).2))
      else (Ok None, (lrucache.set k v cl, (lrucache.get k cr).2))
    else
      if is_not_None (lrucache.get k cl).1
      then (Ok (Some (mkElement tid (VTuple [k; VTuple [(lrucache.get k cl).1; v]]))),
            ((lrucache.get k cl).2, cr))
      else (Ok None, ((lrucache.get k cl).2, lrucache.set k v cr)).
Proof.
  unfold Joiner_step. simpl.
  destruct (String.eqb sid lid).
  - destruct (lrucache.get k cr) as [c cr']. reflexivity.
  - destruct (lrucache.get k cl) as [c cl']. reflexivity.
Qed.

(** One arrival never takes a cache beyond its capacity, whatever the element
    (also when subscripting its payload raises). *)
Lemma Joiner_step_within_capacity lid tid cl cr e :
  0 < lrucache.size cl -> 0 < lrucache.size cr ->
  within_capacity cl -> within_capacity cr ->
  within_capacity (Joiner_step lid tid cl cr e).2.1 /\
  within_capacity (Joiner_step lid tid cl cr e).2.2 /\
  lrucache.size (Joiner_step lid tid cl cr e).2.1 = lrucache.size cl /\
  lrucache.size (Joiner_step lid tid cl cr e).2.2 = lrucache.size cr.
Proof.
  intros Hl Hr Wl Wr. unfold Joiner_step.
  destruct (subscript (data e) 0) as [k|x]; [|simpl; auto].
  destruct (subscript (data e) 1) as [v|x]; [|simpl; auto].
  destruct (String.eqb (stream_id e) lid).
  - pose proof (get_within_capacity k cr Wr) as G. pose proof (get_size k cr) as S.
    destruct (lrucache.get k cr) as [c cr']. simpl in G, S.
    destruct (is_not_None c); simpl; repeat split; auto using set_within_capacity, set_size.
  - pose proof (get_within_capacity k cl Wl) as G. pose proof (get_size k cl) as S.
    destruct (lrucache.get k cl) as [c cl']. simpl in G, S.
    destruct (is_not_None c); simpl; repeat split; auto using set_within_capacity, set_size.
    all: try (apply set_within_capacity; auto).
Qed.

(** C10.  When the opposite cache holds [None] for the key of an arrival
    [(k, v)], the joiner emits nothing and stores [(k, v)] in the cache of the
    arriving side: the test of line 185/194 is on the cached value, not on the
    presence of the key. *)
Theorem C10_cached_None_is_no_match lid tid cl cr sid k v :
  lrucache.lookup k (lrucache.table (opposite_cache lid sid cl cr)) = Some VNone ->
  exists cl' cr',
    Joiner_step lid tid cl cr (mkElement sid (VTuple [k; v])) = (Ok None, (cl', cr')) /\
    own_cache lid sid cl' cr' = lrucache.set k v (own_cache lid sid cl cr) /\
    lrucache.lookup k (lrucache.table (own_cache lid sid cl' cr')) = Some v.
Proof.
  unfold opposite_cache, own_cache. intros H. rewrite Joiner_step_pair.
  destruct (String.eqb sid lid); rewrite (get_hit _ _ _ H); simpl;
    eexists _, _; (split; [reflexivity|]); split; auto using lookup_set.
Qed.

Lemma C10_cached_None_is_no_match_witness :
  exists cl' cr',
    Joiner_step "left" "target"
      (lrucache.mk 2 [(VInt 1, VNone)]) (lrucache.mk 2 [])
      (mkElement "right" (VTuple [VInt 1; VInt 5])) = (Ok None, (cl', cr')) /\
    own_cache "left" "right" cl' cr' =
      lrucache.set (VInt 1) (VInt 5)
        (own_cache "left" "right" (lrucache.mk 2 [(VInt 1, VNone)]) (lrucache.mk 2 [])) /\
    lrucache.lookup (VInt 1) (lrucache.table (own_cache "left" "right" cl' cr'))
      = Some (VInt 5).
Proof.
  apply (C10_cached_None_is_no_match "left" "target"
           (lrucache.mk 2 [(VInt 1, VNone)]) (lrucache.mk 2 []) "right" (VInt 1) (VInt 5)).
  reflexivity.
Defined.

(** C2, as stated, fails: [left.process((1, 10))], [right.process((1, 20))],
    [right.process((1, 30))] on two joined streams emits two joined elements,
    both built from the one cached left value, and the left cache still holds
    key [1] at the end. *)
Lemma C2_counterexample :
  exists st cl cr nx l r t m,
    (let* l := Stream_new (Some "left") "" in
     let* r := Stream_new (Some "right") "" in
     let* _ := join l r 128 "target" in
     let* _ := Stream_process l (VTuple [VInt 1; VInt 10]) in
     let* _ := Stream_process r (VTuple [VInt 1; VInt 20]) in
     Stream_process r (VTuple [VInt 1; VInt 30])) empty_store = (Ok tt, st) /\
    map snd (trace st) =
      [mkElement "target" (VTuple [VInt 1; VTuple [VInt 10; VInt 20]]);
       mkElement "target" (VTuple [VInt 1; VTuple [VInt 10; VInt 30]])] /\
    filter_objs st !! 0 = Some (mkFilter nx (Joiner cl cr l r t m)) /\
    lrucache.lookup (VInt 1) (lrucache.table cl) = Some (VInt 10).
Proof.
  eexists _, _, _, _, _, _, _, _. vm_compute. repeat split; reflexivity.
Qed.

(** *** An entry that was matched, and what arrives after it *)

Lemma lookup_remove_ne k k' l :
  k <> k' -> lrucache.lookup k (lrucache.remove k' l) = lrucache.lookup k l.
Proof.
  intros Hne. induction l as [|[k1 v1] l IH]; simpl; [reflexivity|].
  destruct (value_eqb k' k1) eqn:E'.
  - apply value_eqb_eq in E'. subst k1. rewrite (value_eqb_neq _ _ Hne). reflexivity.
  - simpl. rewrite IH. reflexivity.
Qed.

Lemma rank_remove_le k k' l :
  k <> k' -> rank k (lrucache.remove k' l) <= rank k l.
Proof.
  intros Hne. induction l as [|[k1 v1] l IH]; simpl; [lia|].
  destruct (value_eqb k' k1) eqn:E'.
  - apply value_eqb_eq in E'. subst k1. rewrite (value_eqb_neq _ _ Hne). lia.
  - simpl. destruct (value_eqb k k1); lia.
Qed.

Lemma rank_lt k l o : lrucache.lookup k l = Some o -> rank k l < length l.
Proof.
  induction l as [|[k1 v1] l IH]; simpl; [discriminate|].
  destruct (value_eqb k k1); [lia|]. intros H. apply IH in H. lia.
Qed.

Lemma lookup_removelast k l :
  S (rank k l) < length l ->
  lrucache.lookup k (removelast l) = lrucache.lookup k l /\
  rank k (removelast l) = rank k l.
Proof.
  induction l as [|[k1 v1] l IH]; simpl; [lia|].
  intros H. destruct l as [|p l]; [simpl in H; lia|].
  change (lrucache.lookup k ((k1, v1) :: removelast (p :: l))) with
    (if value_eqb k k1 then Some v1 else lrucache.lookup k (removelast (p :: l))).
  change (rank k ((k1, v1) :: removelast (p :: l))) with
    (if value_eqb k k1 then 0 else S (rank k (removelast (p :: l)))).
  destruct (value_eqb k k1); [split; reflexivity|].
  destruct IH as [IH1 IH2]; [lia|]. rewrite IH1, IH2. split; reflexivity.
Qed.

(** A lookup of any key keeps the entry under [k], and puts at most one
    entry ahead of it; a lookup of [k] itself makes it the first. *)
Lemma get_keeps k k' c o :
  lrucache.lookup k (lrucache.table c) = Some o ->
  lrucache.lookup k (lrucache.table (lrucache.get k' c).2) = Some o /\
  rank k (lrucache.table (lrucache.get k' c).2) <= S (rank k (lrucache.table c)) /\
  (k' = k -> (lrucache.get k' c).1 = o /\
             lrucache.table (lrucache.get k' c).2
               = (k, o) :: lrucache.remove k (lrucache.table c)).
Proof.
  intros H. unfold lrucache.get.
  destruct (lrucache.lookup k' (lrucache.table c)) as [v'|] eqn:E; simpl.
  - destruct (value_eqb k k') eqn:Ek.
    + apply value_eqb_eq in Ek. subst k'. assert (v' = o) as -> by congruence.
      split; [reflexivity|]. split; [lia|]. intros _. split; reflexivity.
    + assert (k <> k') as Hne by (intros ->; rewrite value_eqb_refl in Ek; discriminate).
      rewrite (lookup_remove_ne _ _ _ Hne). split; [exact H|].
      split; [pose proof (rank_remove_le k k' (lrucache.table c) Hne); lia|].
      intros ->. contradiction.
  - split; [exact H|]. split; [lia|]. intros ->. congruence.
Qed.

(** A store under another key keeps the entry under [k] while fewer than
    [size - 1] entries are ahead of it, and puts at most one more ahead. *)
Lemma set_keeps k k' v c o :
  k' <> k ->
  lrucache.lookup k (lrucache.table c) = Some o ->
  S (rank k (lrucache.table c)) < lrucache.size c ->
  lrucache.lookup k (lrucache.table (lrucache.set k' v c)) = Some o /\
  rank k (lrucache.table (lrucache.set k' v c)) <= S (rank k (lrucache.table c)).
Proof.
  intros Hne H Hr. assert (k <> k') as Hne' by congruence.
  unfold lrucache.set.
  destruct (lrucache.lookup k' (lrucache.table c)) as [v'|] eqn:E; simpl.
  - rewrite (value_eqb_neq _ _ Hne'), (lookup_remove_ne _ _ _ Hne').
    split; [exact H|]. pose proof (rank_remove_le k k' (lrucache.table c) Hne'). lia.
  - destruct (Nat.ltb_spec (length (lrucache.table c)) (lrucache.size c)); simpl;
      rewrite (value_eqb_neq _ _ Hne').
    + split; [exact H|lia].
    + destruct (lookup_removelast k (lrucache.table c)) as [L1 L2]; [lia|].
      rewrite L1, L2. split; [exact H|lia].
Qed.

Lemma has_key_true k e : has_key k e = true <-> subscript (data e) 0 = Ok k.
Proof.
  unfold has_key. destruct (subscript (data e) 0) as [k'|x].
  - split.
    + intros H. apply value_eqb_eq in H. congruence.
    + intros [= ->]. apply value_eqb_refl.
  - split; discriminate.
Qed.

Lemma opposite_cache_same lid sid e cl cr :
  same_side lid sid e = true ->
  opposite_cache lid (stream_id e) cl cr = opposite_cache lid sid cl cr /\
  own_cache lid (stream_id e) cl cr = own_cache lid sid cl cr.
Proof.
  unfold same_side, opposite_cache, own_cache. intros H.
  apply Bool.eqb_prop in H. rewrite H. split; reflexivity.
Qed.

(** One later arrival, seen from the entry under [k] in the cache opposite to
    the side of [sid]. *)
Lemma Joiner_step_keeps lid tid sid k o cl cr e :
  lrucache.lookup k (lrucache.table (opposite_cache lid sid cl cr)) = Some o ->
  o <> VNone ->
  (same_side lid sid e = false -> subscript (data e) 0 <> Ok k) ->
  rank k (lrucache.table (opposite_cache lid sid cl cr))
    + length (other_arrivals lid sid k [e]) < lrucache.size (opposite_cache lid sid cl cr) ->
  let r := Joiner_step lid tid cl cr e in
  lrucache.lookup k (lrucache.table (opposite_cache lid sid r.2.1 r.2.2)) = Some o /\
  rank k (lrucache.table (opposite_cache lid sid r.2.1 r.2.2))
    <= rank k (lrucache.table (opposite_cache lid sid cl cr))
       + length (other_arrivals lid sid k [e]) /\
  lrucache.size (opposite_cache lid sid r.2.1 r.2.2)
    = lrucache.size (opposite_cache lid sid cl cr) /\
  (forall v', same_side lid sid e = true -> carries e k v' ->
     r.1 = Ok (Some (mkElement tid
                       (VTuple [k; if String.eqb sid lid
                                   then VTuple [v'; o] else VTuple [o; v']])))).
Proof.
  intros H Ho Hex Hr r. subst r.
  unfold other_arrivals, same_side, has_key, carries in *. cbn [List.filter] in *.
  unfold opposite_cache in *. unfold Joiner_step.
  destruct (subscript (data e) 0) as [k'|x] eqn:E0.
  2:{ cbn. split; [exact H|]. split; [lia|]. split; [reflexivity|].
      intros v' _ [? _]. discriminate. }
  destruct (subscript (data e) 1) as [v|x] eqn:E1.
  2:{ cbn. split; [exact H|]. split; [lia|]. split; [reflexivity|].
      intros v' _ [_ ?]. discriminate. }
  destruct (String.eqb (stream_id e) lid) eqn:Ee, (String.eqb sid lid) eqn:Es;
    cbn [Bool.eqb andb negb] in *.
  - (* both left: the entry is in the right cache *)
    destruct (get_keeps k k' cr o H) as (G1 & G2 & G3).
    pose proof (get_size k' cr) as Gs.
    destruct (lrucache.get k' cr) as [c cr'] eqn:Eg. cbn in G1, G2, G3, Gs.
    assert (T : lrucache.lookup k (lrucache.table cr') = Some o /\
                rank k (lrucache.table cr') <=
                  rank k (lrucache.table cr)
                  + length (if negb (value_eqb k k') then [e] else []) /\
                lrucache.size cr' = lrucache.size cr).
    { split; [exact G1|]. split; [|exact Gs].
      destruct (value_eqb k k') eqn:Ek; cbn.
      - apply value_eqb_eq in Ek. subst k'. destruct G3 as [_ G3]; [reflexivity|].
        rewrite G3. cbn. rewrite value_eqb_refl. lia.
      - lia. }
    destruct T as (T1 & T2 & T3).
    destruct (is_not_None c) eqn:En; cbn; (split; [exact T1|]; split; [exact T2|];
      split; [exact T3|]); intros v' _ [[= ->] [= ->]];
      destruct G3 as [G3 _]; [reflexivity| |reflexivity|]; subst c.
    + reflexivity.
    + rewrite (is_not_None_true _ Ho) in En. discriminate.
  - (* the arrival is on the left, the entry in the left cache *)
    specialize (Hex eq_refl).
    assert (k' <> k) as Hne by congruence.
    assert (value_eqb k k' = false) as Ek by (apply value_eqb_neq; congruence).
    destruct (lrucache.get k' cr) as [c cr'] eqn:Eg.
    destruct (is_not_None c); cbn.
    + split; [exact H|]. split; [lia|]. split; [reflexivity|]. intros v' [=].
    + cbn in Hr. destruct (set_keeps k k' v cl o Hne H) as [S1 S2]; [lia|].
      split; [exact S1|]. split; [lia|]. split; [apply set_size|]. intros v' [=].
  - (* the arrival is on the right, the entry in the right cache *)
    specialize (Hex eq_refl).
    assert (k' <> k) as Hne by congruence.
    destruct (lrucache.get k' cl) as [c cl'] eqn:Eg.
    destruct (is_not_None c); cbn.
    + split; [exact H|]. split; [lia|]. split; [reflexivity|]. intros v' [=].
    + cbn in Hr. destruct (set_keeps k k' v cr o Hne H) as [S1 S2]; [lia|].
      split; [exact S1|]. split; [lia|]. split; [apply set_size|]. intros v' [=].
  - (* both right: the entry is in the left cache *)
    destruct (get_keeps k k' cl o H) as (G1 & G2 & G3).
    pose proof (get_size k' cl) as Gs.
    destruct (lrucache.get k' cl) as [c cl'] eqn:Eg. cbn in G1, G2, G3, Gs.
    assert (T : lrucache.lookup k (lrucache.table cl') = Some o /\
                rank k (lrucache.table cl') <=
                  rank k (lrucache.table cl)
                  + length (if negb (value_eqb k k') then [e] else []) /\
                lrucache.size cl' = lrucache.size cl).
    { split; [exact G1|]. split; [|exact Gs].
      destruct (value_eqb k k') eqn:Ek; cbn.
      - apply value_eqb_eq in Ek. subst k'. destruct G3 as [_ G3]; [reflexivity|].
        rewrite G3. cbn. rewrite value_eqb_refl. lia.
      - lia. }
    destruct T as (T1 & T2 & T3).
    destruct (is_not_None c) eqn:En; cbn; (split; [exact T1|]; split; [exact T2|];
      split; [exact T3|]); intros v' _ [[= ->] [= ->]];
      destruct G3 as [G3 _]; [reflexivity| |reflexivity|]; subst c.
    + reflexivity.
    + rewrite (is_not_None_true _ Ho) in En. discriminate.
Qed.

Lemma others_cons lid sid k e es :
  length (other_arrivals lid sid k (e :: es))
    = length (other_arrivals lid sid k [e]) + length (other_arrivals lid sid k es).
Proof.
  unfold other_arrivals. cbn [List.filter].
  destruct (negb (same_side lid sid e && has_key k e)); reflexivity.
Qed.

(** Later arrivals, seen from the entry under [k] in the cache opposite to the
    side of [sid]. *)
Lemma Joiner_steps_keep lid tid sid k o es : forall cl cr,
  lrucache.lookup k (lrucache.table (opposite_cache lid sid cl cr)) = Some o ->
  o <> VNone ->
  Forall (fun e => same_side lid sid e = false -> subscript (data e) 0 <> Ok k) es ->
  rank k (lrucache.table (opposite_cache lid sid cl cr))
    + length (other_arrivals lid sid k es) < lrucache.size (opposite_cache lid sid cl cr) ->
  (forall i e v', es !! i = Some e -> same_side lid sid e = true -> carries e k v' ->
     (Joiner_steps lid tid cl cr es).1 !! i
       = Some (Ok (Some (mkElement tid
                           (VTuple [k; if String.eqb sid lid
                                       then VTuple [v'; o] else VTuple [o; v']]))))) /\
  lrucache.lookup k
    (lrucache.table (opposite_cache lid sid (Joiner_steps lid tid cl cr es).2.1
                                            (Joiner_steps lid tid cl cr es).2.2)) = Some o.
Proof.
  induction es as [|e es IH]; intros cl cr H Ho Hex Hr.
  - split; [intros i e v' Hi; rewrite lookup_nil in Hi; discriminate|exact H].
  - apply Forall_cons in Hex as [Hex1 Hex].
    rewrite others_cons in Hr.
    destruct (Joiner_step_keeps lid tid sid k o cl cr e H Ho Hex1) as (K1 & K2 & K3 & K4);
      [lia|].
    cbn [Joiner_steps].
    destruct (Joiner_step lid tid cl cr e) as [r [cl1 cr1]]. cbn [fst snd] in K1, K2, K3, K4.
    destruct (IH cl1 cr1 K1 Ho Hex) as [I1 I2]; [lia|].
    destruct (Joiner_steps lid tid cl1 cr1 es) as [rs [cl2 cr2]]. cbn [fst snd] in *.
    split; [|exact I2].
    intros [|i] e' v' Hi Hs Hc; cbn in Hi |- *.
    + injection Hi as <-. f_equal. exact (K4 v' Hs Hc).
    + exact (I1 i e' v' Hi Hs Hc).
Qed.

(** C2, amended.  An arrival [(k, v)] that finds a value [o] other than [None]
    under [k] in the opposite cache emits the joined element and does not
    remove that entry: the lookup only moves it to the front of the opposite
    cache, as the most recently used entry, and the cache of the arriving side
    is untouched (so another arrival under [k] right behind it is joined with
    [o] and changes neither cache).  Whatever arrives later, every arrival
    [(k, v')] from the same side is joined with [o] again, as long as no
    arrival on the opposite side carries [k] (its value could replace [o]) and
    the arrivals other than those under [k] from the same side are fewer than
    the capacity (so that [k] cannot have become the least recently used entry
    of a full cache); the entry is still cached after them. *)
Theorem C2_match_keeps_entry lid tid cl cr sid k v o :
  lrucache.lookup k (lrucache.table (opposite_cache lid sid cl cr)) = Some o ->
  o <> VNone ->
  exists cl' cr',
    Joiner_step lid tid cl cr (mkElement sid (VTuple [k; v])) =
      (Ok (Some (mkElement tid
                   (VTuple [k; if String.eqb sid lid
                               then VTuple [v; o] else VTuple [o; v]]))),
       (cl', cr')) /\
    lrucache.table (opposite_cache lid sid cl' cr')
      = (k, o) :: lrucache.remove k (lrucache.table (opposite_cache lid sid cl cr)) /\
    own_cache lid sid cl' cr' = own_cache lid sid cl cr /\
    (forall v',
       Joiner_step lid tid cl' cr' (mkElement sid (VTuple [k; v'])) =
         (Ok (Some (mkElement tid
                      (VTuple [k; if String.eqb sid lid
                                  then VTuple [v'; o] else VTuple [o; v']]))),
          (cl', cr'))) /\
    forall es,
      Forall (fun e => same_side lid sid e = false -> subscript (data e) 0 <> Ok k) es ->
      length (other_arrivals lid sid k es) < lrucache.size (opposite_cache lid sid cl cr) ->
      (forall i e v',
         es !! i = Some e -> same_side lid sid e = true -> carries e k v' ->
         (Joiner_steps lid tid cl' cr' es).1 !! i
           = Some (Ok (Some (mkElement tid
                               (VTuple [k; if String.eqb sid lid
                                           then VTuple [v'; o] else VTuple [o; v']]))))) /\
      lrucache.lookup k
        (lrucache.table (opposite_cache lid sid (Joiner_steps lid tid cl' cr' es).2.1
                                                (Joiner_steps lid tid cl' cr' es).2.2))
        = Some o.
Proof.
  intros H Ho.
  pose proof (is_not_None_true _ Ho) as Hn.
  pose proof (get_hit_again _ _ _ H) as [_ H2].
  pose proof (get_hit _ _ _ H) as Hg.
  rewrite Joiner_step_pair.
  assert (K : forall cl' cr',
    lrucache.table (opposite_cache lid sid cl' cr')
      = (k, o) :: lrucache.remove k (lrucache.table (opposite_cache lid sid cl cr)) ->
    lrucache.size (opposite_cache lid sid cl' cr')
      = lrucache.size (opposite_cache lid sid cl cr) ->
    forall es,
      Forall (fun e => same_side lid sid e = false -> subscript (data e) 0 <> Ok k) es ->
      length (other_arrivals lid sid k es) < lrucache.size (opposite_cache lid sid cl cr) ->
      (forall i e v',
         es !! i = Some e -> same_side lid sid e = true -> carries e k v' ->
         (Joiner_steps lid tid cl' cr' es).1 !! i
           = Some (Ok (Some (mkElement tid
                               (VTuple [k; if String.eqb sid lid
                                           then VTuple [v'; o] else VTuple [o; v']]))))) /\
      lrucache.lookup k
        (lrucache.table (opposite_cache lid sid (Joiner_steps lid tid cl' cr' es).2.1
                                                (Joiner_steps lid tid cl' cr' es).2.2))
        = Some o).
  { intros cl' cr' Ht Hs es Hex Hlen.
    apply Joiner_steps_keep; [| exact Ho | exact Hex |].
    - rewrite Ht. cbn. rewrite value_eqb_refl. reflexivity.
    - rewrite Ht, Hs. cbn [rank]. rewrite value_eqb_refl. exact Hlen. }
  unfold opposite_cache, own_cache in *.
  destruct (String.eqb sid lid) eqn:E.
  - rewrite Hg in *. cbn [fst snd] in *. rewrite Hn.
    eexists _, _. split; [reflexivity|]. split; [reflexivity|]. split; [reflexivity|].
    split.
    + intros v'. rewrite Joiner_step_pair, E, H2. cbn [fst snd]. rewrite Hn. reflexivity.
    + apply K; reflexivity.
  - rewrite Hg in *. cbn [fst snd] in *. rewrite Hn.
    eexists _, _. split; [reflexivity|]. split; [reflexivity|]. split; [reflexivity|].
    split.
    + intros v'. rewrite Joiner_step_pair, E, H2. cbn [fst snd]. rewrite Hn. reflexivity.
    + apply K; reflexivity.
Qed.

Lemma C2_match_keeps_entry_witness :
  exists cl' cr',
    Joiner_step "left" "target" (lrucache.mk 2 [(VInt 1, VInt 10)]) (lrucache.mk 2 [])
      (mkElement "right" (VTuple [VInt 1; VInt 20])) =
      (Ok (Some (mkElement "target" (VTuple [VInt 1; VTuple [VInt 10; VInt 20]]))),
       (cl', cr')) /\
    lrucache.table (opposite_cache "left" "right" cl' cr') = [(VInt 1, VInt 10)] /\
    own_cache "left" "right" cl' cr' = lrucache.mk 2 [] /\
    (Joiner_steps "left" "target" cl' cr'
       [mkElement "right" (VTuple [VInt 2; VInt 7]);
        mkElement "right" (VTuple [VInt 1; VInt 30])]).1 !! 1
      = Some (Ok (Some (mkElement "target" (VTuple [VInt 1; VTuple [VInt 10; VInt 30]])))).
Proof.
  destruct (C2_match_keeps_entry "left" "target"
              (lrucache.mk 2 [(VInt 1, VInt 10)]) (lrucache.mk 2 [])
              "right" (VInt 1) (VInt 20) (VInt 10))
    as (cl' & cr' & H1 & H2 & H3 & _ & H4); [reflexivity | discriminate |].
  exists cl', cr'. split; [exact H1|]. split; [exact H2|]. split; [exact H3|].
  destruct (H4 [mkElement "right" (VTuple [VInt 2; VInt 7]);
                mkElement "right" (VTuple [VInt 1; VInt 30])]) as [H5 _].
  - repeat constructor; discriminate.
  - vm_compute. lia.
  - apply (H5 1 (mkElement "right" (VTuple [VInt 1; VInt 30])) (VInt 30)).
    + reflexivity.
    + reflexivity.
    + split; reflexivity.
Defined.

(** ** The joiner under capacity pressure *)

Lemma remove_app_not_in k l1 l2 :
  k ∉ l1.*1 -> lrucache.remove k (l1 ++ l2) = l1 ++ lrucache.remove k l2.
Proof.
  induction l1 as [|[k' v'] l1 IH]; simpl; [reflexivity|].
  intros H. rewrite not_elem_of_cons in H. destruct H as [H1 H2].
  rewrite value_eqb_neq by exact H1. rewrite IH by exact H2. reflexivity.
Qed.

Lemma lookup_None_remove k l : lrucache.lookup k l = None -> lrucache.remove k l = l.
Proof.
  induction l as [|[k' v'] l IH]; simpl; [reflexivity|].
  destruct (value_eqb k k'); [discriminate|]. intros H. rewrite IH by exact H. reflexivity.
Qed.

(** A store, in one formula: the new entry in front of the others, cut at the
    capacity. *)
Lemma set_table_take k v c :
  0 < lrucache.size c ->
  within_capacity c ->
  lrucache.table (lrucache.set k v c)
    = take (lrucache.size c) ((k, v) :: lrucache.remove k (lrucache.table c)).
Proof.
  unfold within_capacity, lrucache.set. intros Hpos Hw.
  destruct (lrucache.size c) as [|m] eqn:Hm; [lia|].
  destruct (lrucache.lookup k (lrucache.table c)) as [w|] eqn:E; cbn [lrucache.table take].
  - pose proof (lookup_remove_length _ _ _ E). rewrite take_ge by lia. reflexivity.
  - rewrite (lookup_None_remove _ _ E).
    destruct (Nat.ltb_spec (length (lrucache.table c)) (S m)); cbn [lrucache.table].
    + rewrite take_ge by lia. reflexivity.
    + f_equal. rewrite removelast_firstn_len. f_equal. lia.
Qed.

Lemma sets_snoc kvs kv c :
  sets (kvs ++ [kv]) c = lrucache.set kv.1 kv.2 (sets kvs c).
Proof. unfold sets. rewrite fold_left_app. reflexivity. Qed.

Lemma sets_size kvs c : lrucache.size (sets kvs c) = lrucache.size c.
Proof.
  revert c. induction kvs as [|kv kvs IH]; intros c; [reflexivity|].
  cbn [sets fold_left]. change (fold_left _ kvs ?x) with (sets kvs x).
  rewrite IH, set_size. reflexivity.
Qed.

Lemma sets_within_capacity kvs c :
  0 < lrucache.size c -> within_capacity c -> within_capacity (sets kvs c).
Proof.
  revert c. induction kvs as [|kv kvs IH]; intros c Hpos Hw; [exact Hw|].
  cbn [sets fold_left]. change (fold_left _ kvs ?x) with (sets kvs x).
  apply IH; [rewrite set_size; exact Hpos|]. apply set_within_capacity; assumption.
Qed.

(** After stores under pairwise distinct keys, the most recent of them head
    the cache, most recent first, whatever it held before. *)
Lemma sets_table_prefix kvs : forall c,
  0 < lrucache.size c ->
  within_capacity c ->
  NoDup kvs.*1 ->
  exists rest,
    lrucache.table (sets kvs c) = take (lrucache.size c) (reverse kvs) ++ rest.
Proof.
  induction kvs as [|[k v] kvs IH] using rev_ind; intros c Hpos Hw Hnd.
  - exists (lrucache.table c). cbn. rewrite take_nil. reflexivity.
  - rewrite fmap_app in Hnd. apply NoDup_app in Hnd as (Hnd & Hdisj & _).
    assert (Hk : k ∉ kvs.*1).
    { intros Hin. apply (Hdisj _ Hin). cbn. apply elem_of_cons; auto. }
    destruct (IH c Hpos Hw Hnd) as [rest Hrest].
    pose proof (sets_within_capacity kvs c Hpos Hw) as Hw'.
    pose proof (sets_size kvs c) as Hsz.
    rewrite sets_snoc. cbn [fst snd].
    rewrite set_table_take by (rewrite ?Hsz; assumption).
    rewrite Hsz, Hrest, reverse_app. cbn [reverse app]. rewrite reverse_singleton.
    cbn [app].
    assert (Hk' : k ∉ (take (lrucache.size c) (reverse kvs)).*1).
    { intros Hin. apply Hk. rewrite fmap_take in Hin.
      apply subseteq_take in Hin. rewrite fmap_reverse in Hin.
      rewrite elem_of_reverse in Hin. exact Hin. }
    rewrite (remove_app_not_in _ _ _ Hk').
    destruct (lrucache.size c) as [|m] eqn:Hm; [lia|]. cbn [take].
    destruct (Nat.le_gt_cases (S m) (length kvs)) as [Hge|Hlt].
    + (* the cache is already full of new entries *)
      unfold within_capacity in Hw'. rewrite Hsz, Hrest, length_app, length_take,
        length_reverse in Hw'.
      assert (rest = []) as ->.
      { destruct rest; [reflexivity|]. cbn [length] in Hw'. lia. }
      cbn [lrucache.remove]. rewrite app_nil_r.
      exists []. rewrite app_nil_r. f_equal.
      rewrite take_take. f_equal. lia.
    + rewrite (take_ge (reverse kvs)) by (rewrite length_reverse; lia).
      rewrite take_app_ge by (rewrite length_reverse; lia).
      rewrite (take_ge (reverse kvs)) by (rewrite length_reverse; lia).
      eexists. rewrite app_comm_cons. reflexivity.
Qed.

Lemma sets_table m kvs c :
  0 < m ->
  lrucache.size c = m ->
  within_capacity c ->
  NoDup kvs.*1 ->
  m <= length kvs ->
  lrucache.table (sets kvs c) = take m (reverse kvs).
Proof.
  intros Hm Hs Hw Hnd Hlen.
  destruct (sets_table_prefix kvs c) as [rest Hrest]; [lia|exact Hw|exact Hnd|].
  pose proof (sets_within_capacity kvs c ltac:(lia) Hw) as Hw'.
  unfold within_capacity in Hw'.
  rewrite sets_size, Hrest, Hs, length_app, length_take, length_reverse in Hw'.
  rewrite Hrest, Hs. destruct rest; [apply app_nil_r|]. cbn [length] in Hw'. lia.
Qed.

Lemma Joiner_steps_unmatched lid tid sid kvs cl cr :
  Forall (fun kv =>
            lrucache.lookup kv.1 (lrucache.table (opposite_cache lid sid cl cr)) = None)
         kvs ->
  exists cl' cr',
    Joiner_steps lid tid cl cr ((fun kv => mkElement sid (pair_data kv)) <$> kvs)
      = (replicate (length kvs) (Ok None), (cl', cr')) /\
    own_cache lid sid cl' cr' = sets kvs (own_cache lid sid cl cr) /\
    opposite_cache lid sid cl' cr' = opposite_cache lid sid cl cr.
Proof.
  revert cl cr. induction kvs as [|[k v] kvs IH]; intros cl cr H.
  - eexists _, _. simpl. eauto.
  - apply Forall_cons in H as [Hk H]. simpl in Hk.
    rewrite fmap_cons. cbn [Joiner_steps]. unfold pair_data at 1. cbn [fst snd].
    rewrite Joiner_step_pair.
    unfold opposite_cache, own_cache in *.
    destruct (String.eqb sid lid) eqn:E; rewrite (get_miss _ _ Hk); simpl.
    + destruct (IH (lrucache.set k v cl) cr H) as (cl' & cr' & -> & Ho & Hp).
      eexists _, _. eauto.
    + destruct (IH cl (lrucache.set k v cr) H) as (cl' & cr' & -> & Ho & Hp).
      eexists _, _. eauto.
Qed.

Lemma Joiner_steps_within_capacity lid tid es cl cr :
  0 < lrucache.size cl -> 0 < lrucache.size cr ->
  within_capacity cl -> within_capacity cr ->
  within_capacity (Joiner_steps lid tid cl cr es).2.1 /\
  within_capacity (Joiner_steps lid tid cl cr es).2.2 /\
  lrucache.size (Joiner_steps lid tid cl cr es).2.1 = lrucache.size cl /\
  lrucache.size (Joiner_steps lid tid cl cr es).2.2 = lrucache.size cr.
Proof.
  revert cl cr. induction es as [|e es IH]; intros cl cr Hl Hr Wl Wr; [simpl; auto|].
  cbn [Joiner_steps].
  destruct (Joiner_step_within_capacity lid tid cl cr e Hl Hr Wl Wr)
    as (W1 & W2 & S1 & S2).
  destruct (Joiner_step lid tid cl cr e) as [r [cl1 cr1]]. simpl in W1, W2, S1, S2.
  destruct (IH cl1 cr1) as (W1' & W2' & S1' & S2'); [lia | lia | auto | auto |].
  destruct (Joiner_steps lid tid cl1 cr1 es) as [rs [cl2 cr2]]. simpl in *.
  repeat split; auto; congruence.
Qed.

Lemma new_inv max_size c :
  lrucache.new max_size = Ok c ->
  (0 < max_size)%Z /\ c = lrucache.mk (Z.to_nat max_size) [].
Proof.
  unfold lrucache.new. destruct (Z.ltb_spec 0 max_size); [|discriminate].
  intros [= <-]. auto.
Qed.

(** C3.  Take a joiner whose caches were made with capacity [max_size], in
    the state any arrivals [es0] have left it in.  More than [max_size] further
    arrivals on one side with pairwise distinct keys, none of them held by the
    opposite cache, emit nothing and leave in that side's cache exactly the
    [max_size] most recent of them, most recent first: the least recently used
    entries, those the cache held before included, were evicted first.  No
    sequence of arrivals takes either cache beyond [max_size] entries.  A later
    arrival on the opposite side with the key of an evicted entry emits nothing
    and raises nothing. *)
Theorem C3_bounded_cache_evicts_lru lid tid sid (max_size : Z) c0 es0 cl0 cr0 kvs :
  lrucache.new max_size = Ok c0 ->
  (Joiner_steps lid tid c0 c0 es0).2 = (cl0, cr0) ->
  Forall (fun kv =>
            lrucache.lookup kv.1 (lrucache.table (opposite_cache lid sid cl0 cr0)) = None)
         kvs ->
  NoDup kvs.*1 ->
  Z.to_nat max_size < length kvs ->
  exists cl cr,
    Joiner_steps lid tid cl0 cr0 ((fun kv => mkElement sid (pair_data kv)) <$> kvs)
      = (replicate (length kvs) (Ok None), (cl, cr)) /\
    lrucache.table (own_cache lid sid cl cr) = take (Z.to_nat max_size) (reverse kvs) /\
    (forall es,
       length (lrucache.table (Joiner_steps lid tid c0 c0 es).2.1)
         <= Z.to_nat max_size /\
       length (lrucache.table (Joiner_steps lid tid c0 c0 es).2.2)
         <= Z.to_nat max_size) /\
    (forall k v b sid',
       String.eqb sid' lid = negb (String.eqb sid lid) ->
       (k, v) ∈ drop (Z.to_nat max_size) (reverse kvs) ->
       exists cl' cr',
         Joiner_step lid tid cl cr (mkElement sid' (VTuple [k; b]))
           = (Ok None, (cl', cr'))).
Proof.
  intros Hc0 Hes0 Hun Hnd Hlen.
  apply new_inv in Hc0 as [Hpos ->].
  set (m := Z.to_nat max_size) in *. assert (Hm : 0 < m) by (subst m; lia).
  assert (Hinv : forall es,
             within_capacity (Joiner_steps lid tid (lrucache.mk m []) (lrucache.mk m []) es).2.1 /\
             within_capacity (Joiner_steps lid tid (lrucache.mk m []) (lrucache.mk m []) es).2.2 /\
             lrucache.size (Joiner_steps lid tid (lrucache.mk m []) (lrucache.mk m []) es).2.1 = m /\
             lrucache.size (Joiner_steps lid tid (lrucache.mk m []) (lrucache.mk m []) es).2.2 = m).
  { intros es. apply Joiner_steps_within_capacity; cbn; try exact Hm;
      unfold within_capacity; cbn; lia. }
  destruct (Hinv es0) as (Wl & Wr & Sl & Sr). rewrite Hes0 in Wl, Wr, Sl, Sr.
  cbn [fst snd] in Wl, Wr, Sl, Sr.
  destruct (Joiner_steps_unmatched lid tid sid kvs cl0 cr0 Hun)
    as (cl & cr & Hrun & Hown & _).
  assert (Htab : lrucache.table (own_cache lid sid cl cr) = take m (reverse kvs)).
  { rewrite Hown. apply sets_table; [exact Hm | | | exact Hnd | lia];
      unfold own_cache; destruct (String.eqb sid lid); assumption. }
  exists cl, cr. split; [exact Hrun|]. split; [exact Htab|]. split.
  - intros es. destruct (Hinv es) as (W1 & W2 & S1 & S2).
    unfold within_capacity in W1, W2. rewrite S1 in W1. rewrite S2 in W2. auto.
  - intros k v b sid' Hside Hin.
    assert (Hk : k ∉ (take m (reverse kvs)).*1).
    { assert (Hnd' : NoDup ((take m (reverse kvs) ++ drop m (reverse kvs)).*1)).
      { rewrite take_drop, fmap_reverse, reverse_Permutation. exact Hnd. }
      rewrite fmap_app in Hnd'. apply NoDup_app in Hnd' as (_ & Hdisj & _).
      intros Hin'. apply (Hdisj _ Hin').
      apply list_elem_of_fmap. exists (k, v). auto. }
    rewrite <- Htab in Hk. apply lookup_not_in in Hk.
    rewrite Joiner_step_pair. unfold own_cache in Hk. rewrite Hside.
    destruct (String.eqb sid lid); simpl in *; rewrite (get_miss _ _ Hk); simpl;
      eexists _, _; reflexivity.
Qed.

Lemma C3_bounded_cache_evicts_lru_witness :
  exists cl cr,
    Joiner_steps "left" "target"
      (lrucache.mk 1 [(VInt 5, VInt 50)]) (lrucache.mk 1 [(VInt 7, VInt 70)])
      ((fun kv => mkElement "left" (pair_data kv)) <$>
         [(VInt 1, VInt 10); (VInt 2, VInt 20)])
      = (replicate (length [(VInt 1, VInt 10); (VInt 2, VInt 20)]) (Ok None), (cl, cr)) /\
    lrucache.table (own_cache "left" "left" cl cr)
      = take (Z.to_nat 1) (reverse [(VInt 1, VInt 10); (VInt 2, VInt 20)]) /\
    (forall es,
       length (lrucache.table
                 (Joiner_steps "left" "target" (lrucache.mk 1 []) (lrucache.mk 1 []) es).2.1)
         <= Z.to_nat 1 /\
       length (lrucache.table
                 (Joiner_steps "left" "target" (lrucache.mk 1 []) (lrucache.mk 1 []) es).2.2)
         <= Z.to_nat 1) /\
    (forall k v b sid',
       String.eqb sid' "left" = negb (String.eqb "left" "left") ->
       (k, v) ∈ drop (Z.to_nat 1) (reverse [(VInt 1, VInt 10); (VInt 2, VInt 20)]) ->
       exists cl' cr',
         Joiner_step "left" "target" cl cr (mkElement sid' (VTuple [k; b]))
           = (Ok None, (cl', cr'))).
Proof.
  apply (C3_bounded_cache_evicts_lru "left" "target" "left" 1
           (lrucache.mk 1 [])
           [mkElement "left" (VTuple [VInt 5; VInt 50]);
            mkElement "right" (VTuple [VInt 7; VInt 70])]
           (lrucache.mk 1 [(VInt 5, VInt 50)]) (lrucache.mk 1 [(VInt 7, VInt 70)])
           [(VInt 1, VInt 10); (VInt 2, VInt 20)]).
  - reflexivity.
  - reflexivity.
  - repeat constructor.
  - simpl. repeat constructor; rewrite ?elem_of_cons, ?elem_of_nil; intuition discriminate.
  - simpl. lia.
Defined.

(** ** The entry point on an empty chain *)

(** C8.  [process] on a stream to which no stage has been appended (its head
    is still [None]) completes without raising and leaves the whole store as
    it was. *)
Theorem C8_process_on_empty_chain st s so d :
  streams st !! s = Some so ->
  s_head so = None ->
  Stream_process s d st = (Ok tt, st).
Proof.
  intros Hs Hh. unfold Stream_process, bind, get_stream. rewrite Hs, Hh. reflexivity.
Qed.

Lemma C8_process_on_empty_chain_witness :
  Stream_process 0 (VInt 4) (mkStore [mkStream None [] "s"] [] [] [] [] [])
    = (Ok tt, mkStore [mkStream None [] "s"] [] [] [] [] []).
Proof.
  apply (C8_process_on_empty_chain _ 0 (mkStream None [] "s") (VInt 4)); reflexivity.
Defined.

(** A stream is in that state from its construction on. *)
Lemma Stream_new_empty_chain sid uuid st :
  exists s st',
    Stream_new sid uuid st = (Ok s, st') /\
    streams st' !! s = Some (mkStream None [] (default uuid sid)).
Proof.
  eexists _, _. split; [reflexivity|]. simpl.
  apply list_lookup_middle. reflexivity.
Qed.

(** ** Sources *)

(** C6 fails on the code: [IterableSource.start] calls [self._stream.process]
    directly (line 48) instead of [self._process]; on an unattached source the
    first element raises [AttributeError], nothing is logged, and the rest of
    the input is never visited. *)
Theorem C6_unattached_iterable_source_raises st e itr :
  IterableSource_start Source_new (e :: itr) st = (Raise AttributeError, st).
Proof. reflexivity. Qed.

(** X1.  The sibling [KafkaSource.start] goes through [_process]: with no
    stream attached it completes, delivers nothing, and logs one warning per
    record value; nothing else of the store changes. *)
Lemma KafkaSource_start_unattached records st :
  KafkaSource_start Source_new records st =
    (Ok tt,
     set_warnings
       (warnings st ++
          replicate (length records)
            "Received element with no attached stream.  Discarding.") st).
Proof.
  revert st. induction records as [|v records IH]; intros st.
  - simpl. unfold ret, set_warnings. rewrite app_nil_r. destruct st; reflexivity.
  - cbn [KafkaSource_start]. unfold bind at 1. cbn [Source__process Source_new _stream].
    unfold modify. rewrite IH. unfold set_warnings. simpl.
    rewrite <- app_assoc. reflexivity.
Qed.

(** ** Chains of stages: the store against [run_chain] *)

Lemma store_eta st :
  mkStore (streams st) (filter_objs st) (generators st) (world st) (trace st) (warnings st) = st.
Proof. destruct st; reflexivity. Qed.

Lemma set_gen_state_eq g s go st :
  generators st !! g = Some go ->
  set_gen_state g s st =
    set_generators (<[g := mkGen (gen_self go) s]> (generators st)) st.
Proof. unfold set_gen_state. intros ->. reflexivity. Qed.

Lemma process_pstage a nx p e st :
  filter_objs st !! a = Some (mkFilter nx (kind_of p)) ->
  process a e st =
    match stage_apply p (data e) with
    | (Ok y, p') =>
        (Ok (Some (mkElement (stream_id e) y)),
         set_filter_objs (<[a := mkFilter nx (kind_of p')]> (filter_objs st)) st)
    | (Raise x, _) => (Raise x, st)
    end.
Proof.
  intros Ha. unfold process, bind, get_filter. rewrite Ha.
  pose proof (list_insert_id _ _ _ Ha) as Hid.
  destruct p as [f|f acc initial]; cbn [kind next kind_of stage_apply] in *.
  - unfold Mapper_process. cbv [lift1] in *.
    destruct (f (data e)) as [y|x]; unfold set_world, set_filter_objs.
    + rewrite Hid, store_eta. reflexivity.
    + rewrite store_eta. reflexivity.
  - unfold Reducer_process. cbv [lift2] in *.
    destruct (f (data e) acc) as [y|x].
    + reflexivity.
    + unfold set_world. rewrite store_eta. reflexivity.
Qed.

Lemma stage_apply_raise p x e p' : stage_apply p x = (Raise e, p') -> p' = p.
Proof.
  destruct p as [f|f acc i]; simpl.
  - intros [= _ <-]. reflexivity.
  - destruct (f x acc); [discriminate|]. intros [= _ <-]. reflexivity.
Qed.

Lemma run_chain_finished sid l x g :
  g ∈ o_finished (run_chain sid l x) -> g ∈ cell_gen <$> l.
Proof.
  revert x. induction l as [|[[g' a] p] l IH]; intros x; simpl.
  - intros H. apply elem_of_nil in H. contradiction.
  - destruct (stage_apply p x) as [[y|e] p']; simpl.
    + destruct (o_fault (run_chain sid l y)) eqn:E.
      * intros H. apply elem_of_cons in H as [->|H]; apply elem_of_cons; auto.
        right. apply (IH y). exact H.
      * intros H. apply elem_of_nil in H. contradiction.
    + intros H. apply list_elem_of_singleton in H as ->. apply elem_of_cons; auto.
Qed.


Lemma linked_frame fs fs' it l :
  (forall a, a ∈ cell_addr <$> l -> fs' !! a = fs !! a) ->
  linked fs it l -> linked fs' it l.
Proof.
  revert it. induction l as [|[[g a] p] l IH]; intros it Hf; simpl; [auto|].
  intros (-> & nx & Ha & Hl). split; [reflexivity|]. exists nx. split.
  - rewrite Hf; [exact Ha|]. simpl. apply elem_of_cons; auto.
  - apply IH; [|exact Hl]. intros a' Hin. apply Hf. simpl. apply elem_of_cons; auto.
Qed.

Lemma suspended_frame gs gs' l :
  (forall g, g ∈ cell_gen <$> l -> gs' !! g = gs !! g) ->
  suspended gs l -> suspended gs' l.
Proof.
  unfold suspended. intros Hf H. apply Forall_forall. intros c Hc.
  rewrite Forall_forall in H. rewrite Hf; [apply H, Hc|].
  apply list_elem_of_fmap. exists c. auto.
Qed.

Lemma linked_None fs l : linked fs None l -> l = [].
Proof. destruct l as [|[[g a] p] l]; simpl; [auto|]. intros [H _]. discriminate. Qed.

Lemma send_unfold d it e st a :
  generators st !! it = Some (mkGen a GSuspended) ->
  send (S d) it e st =
    match process a e (set_generators (<[it := mkGen a GRunning]> (generators st)) st) with
    | (Raise x, st1) => (Raise (leaving_generator x), set_gen_state it GFinished st1)
    | (Ok None, st1) => (Ok tt, set_gen_state it GSuspended st1)
    | (Ok (Some result), st1) =>
        let st2 := set_trace (trace st1 ++ [(a, result)]) st1 in
        match filter_objs st2 !! a with
        | None => (Raise DanglingReference, set_gen_state it GFinished st2)
        | Some fo =>
            match next fo with
            | None => (Ok tt, set_gen_state it GSuspended st2)
            | Some nxt =>
                match send d nxt result st2 with
                | (Ok _, st3) => (Ok tt, set_gen_state it GSuspended st3)
                | (Raise x, st3) =>
                    (Raise (leaving_generator x), set_gen_state it GFinished st3)
                end
            end
        end
    end.
Proof.
  intros Hg. cbn [send]. rewrite Hg. cbn [gen_state_of gen_self].
  rewrite (set_gen_state_eq _ _ _ _ Hg). reflexivity.
Qed.

Lemma leaving_generator_idem e :
  leaving_generator (leaving_generator e) = leaving_generator e.
Proof. destruct e; reflexivity. Qed.

Lemma run_chain_no_fault sid l x :
  o_fault (run_chain sid l x) = None -> o_finished (run_chain sid l x) = [].
Proof.
  destruct l as [|[[g a] p] l]; cbn [run_chain]; [reflexivity|].
  destruct (stage_apply p x) as [[y|e] p']; cbn; [|discriminate].
  destruct (o_fault (run_chain sid l y)); [discriminate|reflexivity].
Qed.

Lemma send_chain l : forall d it e st,
  linked (filter_objs st) (Some it) l ->
  suspended (generators st) l ->
  NoDup (cell_gen <$> l) ->
  NoDup (cell_addr <$> l) ->
  length l <= d ->
  exists st',
    send d it e st = (result_of (run_chain (stream_id e) l (data e)), st') /\
    chain_post st st' (Some it) l (run_chain (stream_id e) l (data e)).
Proof.
  induction l as [|[[g a] p] l IH]; intros d it e st Hl Hs Hng Hna Hd.
  { simpl in Hl. discriminate. }
  destruct Hl as (Hit & nx & Ha & Hl). injection Hit as ->.
  apply Forall_cons in Hs as [Hg Hs]. cbn [cell_gen cell_addr fst snd] in Hg.
  rewrite fmap_cons in Hng, Hna. apply NoDup_cons in Hng as [Hg' Hng].
  apply NoDup_cons in Hna as [Ha' Hna]. cbn [cell_gen cell_addr fst snd] in Hg', Ha'.
  destruct d as [|d]; [simpl in Hd; lia|]. simpl in Hd.
  pose proof (lookup_lt_Some _ _ _ Hg) as Hglt.
  pose proof (lookup_lt_Some _ _ _ Ha) as Halt.
  rewrite (send_unfold _ _ _ _ _ Hg).
  rewrite (process_pstage a nx p e
             (set_generators (<[g := mkGen a GRunning]> (generators st)) st) Ha).
  cbn [run_chain].
  destruct (stage_apply p (data e)) as [[y|x] p'] eqn:Hap.
  2:{ (* the stage raises *)
    apply stage_apply_raise in Hap as ->.
    eexists. split; [reflexivity|].
    unfold set_gen_state, set_generators. cbn [generators].
    rewrite list_lookup_insert_eq by exact Hglt. cbn [gen_self].
    unfold chain_post. cbn. repeat split.
    - rewrite app_nil_r. reflexivity.
    - rewrite !length_insert. reflexivity.
    - intros g0. rewrite list_insert_insert_eq.
      destruct (decide (g0 = g)) as [->|Hne].
      + rewrite list_lookup_insert_eq by exact Hglt. rewrite Hg.
        rewrite decide_True by (apply list_elem_of_singleton; reflexivity). reflexivity.
      + rewrite list_lookup_insert_ne by auto.
        rewrite decide_False by (rewrite list_elem_of_singleton; exact Hne). reflexivity.
    - exists nx. auto. }
  (* the stage returns y *)
  set (r := mkElement (stream_id e) y).
  cbv zeta. unfold set_trace, set_filter_objs, set_generators.
  cbn [streams filter_objs generators world trace warnings].
  rewrite list_lookup_insert_eq by exact Halt. cbn [next].
  destruct nx as [n|].
  2:{ (* last stage *)
    apply linked_None in Hl as ->.
    eexists. split; [reflexivity|].
    unfold set_gen_state. cbn [generators].
    rewrite list_lookup_insert_eq by exact Hglt. cbn [gen_self].
    unfold chain_post, set_generators. cbn. repeat split.
    - rewrite length_insert, length_insert. reflexivity.
    - intros g0. rewrite list_insert_insert_eq.
      rewrite decide_False by (apply not_elem_of_nil).
      rewrite (list_insert_id _ _ _ Hg). reflexivity.
    - rewrite length_insert. reflexivity.
    - intros a0 Hin. rewrite list_lookup_insert_ne; [reflexivity|].
      intros ->. apply Hin. apply elem_of_cons; auto.
    - exists None. split; [|reflexivity].
      apply list_lookup_insert_eq. exact Halt. }
  (* a next stage *)
  match goal with |- context [send d n r ?s] => set (st2 := s) end.
  destruct (IH d n r st2) as (st3 & Hsend & Hpost).
  { eapply linked_frame; [|exact Hl]. intros a0 Hin. subst st2. cbn [filter_objs].
    apply list_lookup_insert_ne. intros ->. contradiction. }
  { eapply suspended_frame; [|exact Hs]. intros g0 Hin. subst st2. cbn [generators].
    apply list_lookup_insert_ne. intros ->. contradiction. }
  { exact Hng. } { exact Hna. } { lia. }
  rewrite Hsend. subst r. cbn [stream_id data] in *.
  set (o := run_chain (stream_id e) l y) in *.
  destruct Hpost as (P1 & P2 & P3 & P4 & P5 & P6 & P7 & P8 & P9).
  assert (Hg3 : generators st3 !! g = Some (mkGen a GRunning)).
  { rewrite P6. rewrite decide_False.
    - subst st2. cbn [generators]. apply list_lookup_insert_eq. exact Hglt.
    - intros Hin. apply Hg'. eapply run_chain_finished, Hin. }
  assert (Hres : exists st',
    (match result_of o with
     | Ok _ => (Ok tt, set_gen_state g GSuspended st3)
     | Raise x => (Raise (leaving_generator x), set_gen_state g GFinished st3)
     end) = (result_of (mkOutcome (leaving_generator <$> o_fault o)
                          ((g, a, p') :: o_chain o)
                          ((a, mkElement (stream_id e) y) :: o_outs o)
                          (match o_fault o with Some _ => g :: o_finished o | None => [] end)),
             st') /\
    st' = set_generators (<[g := mkGen a (match o_fault o with Some _ => GFinished | None => GSuspended end)]> (generators st3)) st3).
  { unfold result_of. cbn [o_fault]. destruct (o_fault o); cbn;
      eexists; (split; [reflexivity|]); apply (set_gen_state_eq _ _ _ _ Hg3). }
  destruct Hres as (st' & Hres & Hst'). exists st'. split.
  { destruct (result_of o); exact Hres. }
  subst st'. unfold chain_post, set_generators.
  cbn [streams filter_objs generators world trace warnings o_outs o_finished o_chain].
  subst st2. cbn [streams filter_objs generators world trace warnings] in *.
  repeat split; try assumption.
  - rewrite P4, <- app_assoc. reflexivity.
  - rewrite length_insert, P5, length_insert. reflexivity.
  - intros g0. destruct (decide (g0 = g)) as [->|Hne].
    + rewrite list_lookup_insert_eq by (rewrite P5, length_insert; exact Hglt).
      rewrite Hg. destruct (o_fault o).
      * rewrite decide_True by (apply elem_of_cons; auto). reflexivity.
      * rewrite decide_False by (apply not_elem_of_nil). reflexivity.
    + rewrite list_lookup_insert_ne by auto. rewrite P6.
      rewrite list_lookup_insert_ne by auto.
      destruct (o_fault o) eqn:Hf.
      * destruct (decide (g0 ∈ o_finished o)) as [Hin|Hnin].
        -- rewrite decide_True by (apply elem_of_cons; auto). reflexivity.
        -- rewrite decide_False; [reflexivity|].
           rewrite elem_of_cons. intros [?|?]; contradiction.
      * pose proof (run_chain_no_fault _ _ _ Hf) as Hnf.
        change (o_finished o = []) in Hnf. rewrite Hnf. reflexivity.
  - rewrite P7, length_insert. reflexivity.
  - intros a0 Hin. rewrite P8.
    + apply list_lookup_insert_ne. intros ->. apply Hin. apply elem_of_cons; auto.
    + intros Hin'. apply Hin. apply elem_of_cons; auto.
  - exists (Some n). split; [|exact P9].
    rewrite P8 by exact Ha'. apply list_lookup_insert_eq. exact Halt.
Qed.

Lemma Stream_append_head st s so fltr :
  streams st !! s = Some so ->
  s_head so = None ->
  Stream_append s fltr st =
    (Ok tt,
     mkStore
       (<[s := mkStream (Some (length (generators st))) (s_filters so ++ [fltr]) (s_id so)]>
          (streams st))
       (filter_objs st)
       (generators st ++ [mkGen fltr GSuspended])
       (world st) (trace st) (warnings st)).
Proof.
  intros Hs Hh. pose proof (lookup_lt_Some _ _ _ Hs) as Hlt.
  unfold Stream_append, bind, alloc_gen, get_stream, set_stream, modify, set_generators,
    set_streams.
  cbn [streams filter_objs generators world trace warnings].
  rewrite Hs, Hh. cbn [streams filter_objs generators world trace warnings].
  rewrite list_lookup_insert_eq by exact Hlt.
  cbn [s_head s_filters s_id streams filter_objs generators world trace warnings].
  rewrite list_insert_insert_eq. reflexivity.
Qed.

Lemma Stream_append_tail st s so h tl fo fltr :
  streams st !! s = Some so ->
  s_head so = Some h ->
  last (s_filters so) = Some tl ->
  filter_objs st !! tl = Some fo ->
  Stream_append s fltr st =
    (Ok tt,
     mkStore
       (<[s := mkStream (Some h) (s_filters so ++ [fltr]) (s_id so)]> (streams st))
       (<[tl := mkFilter (Some (length (generators st))) (kind fo)]> (filter_objs st))
       (generators st ++ [mkGen fltr GSuspended])
       (world st) (trace st) (warnings st)).
Proof.
  intros Hs Hh Hl Hf.
  unfold Stream_append, bind, alloc_gen, get_stream, get_filter, set_filter, set_stream,
    modify, set_generators, set_streams, set_filter_objs.
  cbn [streams filter_objs generators world trace warnings].
  rewrite Hs, Hh, Hl. cbn [streams filter_objs generators world trace warnings].
  rewrite Hf. cbn [streams filter_objs generators world trace warnings].
  rewrite Hs. rewrite Hh. reflexivity.
Qed.

Lemma linked_lt fs it l a :
  linked fs it l -> a ∈ cell_addr <$> l -> a < length fs.
Proof.
  revert it. induction l as [|[[g0 a0] p0] l IH]; intros it Hl Hin.
  - apply elem_of_nil in Hin. contradiction.
  - destruct Hl as (_ & nx & Ha & Hl). rewrite fmap_cons in Hin.
    apply elem_of_cons in Hin as [->|Hin].
    + exact (lookup_lt_Some _ _ _ Ha).
    + exact (IH _ Hl Hin).
Qed.

(** Appending a new filter behind a linked chain. *)
Lemma linked_append fs it l g pn :
  linked fs it l ->
  NoDup (cell_addr <$> l) ->
  match last (cell_addr <$> l) with
  | None =>
      it = None /\
      linked (fs ++ [mkFilter None (kind_of pn)]) (Some g) [(g, length fs, pn)]
  | Some a =>
      exists fo,
        fs !! a = Some fo /\
        linked (<[a := mkFilter (Some g) (kind fo)]> (fs ++ [mkFilter None (kind_of pn)]))
               it (l ++ [(g, length fs, pn)])
  end.
Proof.
  revert it. induction l as [|[[g0 a0] p0] l IH]; intros it Hl Hnd.
  - simpl in *. split; [exact Hl|]. split; [reflexivity|].
    exists None. split; [|reflexivity]. apply list_lookup_middle. reflexivity.
  - destruct Hl as (-> & nx & Ha & Hl).
    rewrite fmap_cons in Hnd. apply NoDup_cons in Hnd as [Hna Hnd].
    pose proof (lookup_lt_Some _ _ _ Ha) as Halt.
    specialize (IH nx Hl Hnd).
    rewrite fmap_cons. destruct l as [|c l].
    + simpl in Hl. subst nx. cbn. exists (mkFilter None (kind_of p0)).
      split; [exact Ha|]. split; [reflexivity|].
      exists (Some g). split.
      * apply list_lookup_insert_eq. rewrite length_app. simpl. lia.
      * split; [reflexivity|]. exists None. split; [|reflexivity].
        rewrite list_lookup_insert_ne by lia. apply list_lookup_middle. reflexivity.
    + rewrite fmap_cons, last_cons_cons. rewrite fmap_cons in IH.
      destruct (last (cell_addr c :: (cell_addr <$> l))) as [a|] eqn:Hlast.
      2:{ apply last_None in Hlast. discriminate. }
      destruct IH as (fo & Hfo & IH). exists fo. split; [exact Hfo|].
      cbn [app linked]. split; [reflexivity|]. exists nx. split; [|exact IH].
      rewrite list_lookup_insert_ne.
      * apply lookup_app_l_Some. exact Ha.
      * intros <-. apply Hna. cbn [cell_addr fst snd]. rewrite fmap_cons.
        eapply last_Some_elem_of. exact Hlast.
Qed.

Lemma suspended_lt gs l g :
  suspended gs l -> g ∈ cell_gen <$> l -> g < length gs.
Proof.
  unfold suspended. rewrite Forall_forall. intros H Hin.
  apply list_elem_of_fmap in Hin as (c & -> & Hc).
  exact (lookup_lt_Some _ _ _ (H c Hc)).
Qed.

Lemma stream_chain_fresh st s sid :
  streams st !! s = Some (mkStream None [] sid) -> stream_chain st s sid [].
Proof.
  intros Hs. exists (mkStream None [] sid). cbn.
  repeat split; auto using NoDup_nil_2; try constructor. lia.
Qed.

Lemma new_stage_chain st s sid l pn :
  stream_chain st s sid l ->
  exists st',
    (let* m := alloc_filter (mkFilter None (kind_of pn)) in
     let* _ := Stream_append s m in ret s) st = (Ok s, st') /\
    stream_chain st' s sid
      (l ++ [(length (generators st), length (filter_objs st), pn)]) /\
    trace st' = trace st /\ world st' = world st /\ warnings st' = warnings st.
Proof.
  intros (so & Hs & Hid & Hf & Hl & Hsus & Hng & Hna & Hlen).
  pose proof (lookup_lt_Some _ _ _ Hs) as Hslt.
  pose proof (linked_append _ _ _ (length (generators st)) pn Hl Hna) as Happ.
  assert (Hsus' : suspended (generators st ++ [mkGen (length (filter_objs st)) GSuspended])
                    (l ++ [(length (generators st), length (filter_objs st), pn)])).
  { apply Forall_app. split.
    - eapply suspended_frame; [|exact Hsus]. intros g Hg.
      apply lookup_app_l. eapply suspended_lt; eauto.
    - constructor; [|constructor]. cbn. apply list_lookup_middle. reflexivity. }
  assert (Hng' : NoDup (cell_gen <$>
                    l ++ [(length (generators st), length (filter_objs st), pn)])).
  { rewrite fmap_app. apply NoDup_app. split; [exact Hng|]. split.
    - intros g Hg Hin. cbn in Hin. apply list_elem_of_singleton in Hin.
      pose proof (suspended_lt _ _ _ Hsus Hg). lia.
    - cbn. apply NoDup_singleton. }
  assert (Hna' : NoDup (cell_addr <$>
                    l ++ [(length (generators st), length (filter_objs st), pn)])).
  { rewrite fmap_app. apply NoDup_app. split; [exact Hna|]. split.
    - intros a Ha Hin. cbn in Hin. apply list_elem_of_singleton in Hin.
      pose proof (linked_lt _ _ _ _ Hl Ha). lia.
    - cbn. apply NoDup_singleton. }
  unfold bind at 1. unfold alloc_filter. unfold bind at 1.
  set (st1 := set_filter_objs _ st).
  assert (Hs1 : streams st1 !! s = Some so) by exact Hs.
  destruct (last (cell_addr <$> l)) as [a|] eqn:Hlast.
  - destruct Happ as (fo & Hfo & Hlk).
    assert (Hh : exists h, s_head so = Some h).
    { destruct l as [|[[g0 a0] p0] l]; [discriminate|]. destruct Hl as [-> _]. eauto. }
    destruct Hh as [h Hh].
    rewrite (Stream_append_tail st1 s so h a fo _ Hs1 Hh).
    2:{ rewrite Hf. exact Hlast. }
    2:{ subst st1. cbn. apply lookup_app_l_Some. exact Hfo. }
    eexists. split; [reflexivity|]. split; [|auto].
    eexists. cbn [streams filter_objs generators world trace warnings].
    split; [apply list_lookup_insert_eq; exact Hslt|].
    cbn [s_head s_filters s_id]. subst st1. cbn [filter_objs generators] in *.
    rewrite Hh in Hlk.
    split_and!; auto.
    + rewrite Hf, fmap_app. reflexivity.
    + rewrite !length_app. simpl. lia.
  - apply last_None in Hlast. apply fmap_nil_inv in Hlast. subst l.
    destruct Happ as [Hnone Hlk]. simpl in Hl.
    rewrite (Stream_append_head st1 s so _ Hs1 Hl).
    eexists. split; [reflexivity|]. split; [|auto].
    eexists. cbn [streams filter_objs generators world trace warnings].
    split; [apply list_lookup_insert_eq; exact Hslt|].
    cbn [s_head s_filters s_id]. subst st1. cbn [filter_objs generators] in *.
    split_and!; auto.
    + rewrite Hf. reflexivity.
    + simpl. rewrite length_app. simpl. lia.
Qed.

Lemma apply_op_chain st s sid l o :
  stream_chain st s sid l ->
  exists st',
    apply_op s o st = (Ok s, st') /\
    stream_chain st' s sid
      (l ++ [(length (generators st), length (filter_objs st), stage_of o)]) /\
    trace st' = trace st /\ world st' = world st /\ warnings st' = warnings st.
Proof.
  intros H. destruct o as [f|f i].
  - exact (new_stage_chain st s sid l (PMap f) H).
  - exact (new_stage_chain st s sid l (PReduce f i i) H).
Qed.

Lemma build_chain ops : forall st s sid l,
  stream_chain st s sid l ->
  exists st' l',
    build s ops st = (Ok s, st') /\
    stream_chain st' s sid (l ++ l') /\
    cell_stage <$> l' = stage_of <$> ops /\
    trace st' = trace st /\ world st' = world st /\ warnings st' = warnings st.
Proof.
  induction ops as [|o ops IH]; intros st s sid l H.
  - exists st, []. rewrite app_nil_r. cbn. split_and!; auto.
  - destruct (apply_op_chain st s sid l o H) as (st1 & Hop & Hc & T1 & W1 & G1).
    destruct (IH st1 s sid _ Hc) as (st2 & l2 & Hb & Hc2 & Hst & T2 & W2 & G2).
    exists st2, ((length (generators st), length (filter_objs st), stage_of o) :: l2).
    cbn [build]. unfold bind. rewrite Hop, Hb.
    rewrite <- app_assoc in Hc2. cbn [app] in Hc2.
    split; [reflexivity|]. split; [exact Hc2|].
    rewrite !fmap_cons, Hst. repeat split; congruence.
Qed.

Lemma run_chain_pairs sid l x : (o_chain (run_chain sid l x)).*1 = l.*1.
Proof.
  revert x. induction l as [|[[g a] p] l IH]; intros x; [reflexivity|].
  cbn [run_chain]. destruct (stage_apply p x) as [[y|e] p']; cbn [o_chain]; [|reflexivity].
  rewrite !fmap_cons, IH. reflexivity.
Qed.

Lemma suspended_pairs gs l l' :
  l'.*1 = l.*1 -> suspended gs l -> suspended gs l'.
Proof.
  unfold suspended. intros He H.
  assert (Hp : forall k : list cell,
             Forall (fun c => gs !! cell_gen c = Some (mkGen (cell_addr c) GSuspended)) k <->
             Forall (fun ga : nat * nat => gs !! ga.1 = Some (mkGen ga.2 GSuspended)) k.*1).
  { intros k. rewrite Forall_fmap. reflexivity. }
  apply Hp. rewrite He. apply Hp. exact H.
Qed.

Lemma run_chain_fault_head sid l x e :
  o_fault (run_chain sid l x) = Some e ->
  exists g a p l', l = (g, a, p) :: l' /\ g ∈ o_finished (run_chain sid l x).
Proof.
  destruct l as [|[[g a] p] l]; cbn [run_chain]; [discriminate|].
  intros H. exists g, a, p, l. split; [reflexivity|].
  destruct (stage_apply p x) as [[y|e'] p']; cbn [o_fault o_finished] in *.
  - destruct (o_fault (run_chain sid l y)); [|discriminate]. apply elem_of_cons; auto.
  - apply elem_of_cons; auto.
Qed.

Lemma cell_gen_pairs (l : list cell) : cell_gen <$> l = fst <$> l.*1.
Proof. rewrite <- list_fmap_compose. reflexivity. Qed.

Lemma cell_addr_pairs (l : list cell) : cell_addr <$> l = snd <$> l.*1.
Proof. rewrite <- list_fmap_compose. reflexivity. Qed.

Lemma length_fmap_fst {A B} (l : list (A * B)) : length l.*1 = length l.
Proof. apply length_fmap. Qed.

(** [Stream.process] on a chain of such stages does what [run_chain] says. *)
Lemma process_chain st s sid l x :
  stream_chain st s sid l ->
  exists st',
    Stream_process s x st = (result_of (run_chain sid l x), st') /\
    streams st' = streams st /\
    world st' = world st /\
    warnings st' = warnings st /\
    trace st' = trace st ++ o_outs (run_chain sid l x) /\
    (o_fault (run_chain sid l x) = None ->
     stream_chain st' s sid (o_chain (run_chain sid l x))) /\
    (forall e, o_fault (run_chain sid l x) = Some e ->
     forall y, Stream_process s y st' = (Raise StopIteration, st')).
Proof.
  intros (so & Hs & Hid & Hf & Hl & Hsus & Hng & Hna & Hlen).
  unfold Stream_process, bind, get_stream. rewrite Hs.
  destruct l as [|[[g a] p] l].
  { simpl in Hl. rewrite Hl. exists st. cbn. rewrite app_nil_r.
    split_and!; auto.
    - intros _. exists so. cbn. split_and!; auto.
    - intros e [=]. }
  destruct Hl as (Hh & Hl'). rewrite Hh, Hid.
  assert (Hl : linked (filter_objs st) (Some g) (((g, a, p) : cell) :: l))
    by (split; auto).
  unfold send_top.
  pose proof (Nat.le_le_succ_r _ _ Hlen) as Hd.
  destruct (send_chain _ (S (length (generators st))) g (mkElement sid x) st
              Hl Hsus Hng Hna Hd)
    as (st' & Hsend & P1 & P2 & P3 & P4 & P5 & P6 & P7 & P8 & P9).
  cbn [stream_id data] in *.
  exists st'. split; [exact Hsend|]. split_and!; auto.
  - intros Hnf. pose proof (run_chain_no_fault _ _ _ Hnf) as Hfin.
    pose proof (run_chain_pairs sid ((g, a, p) :: l) x) as Hp.
    exists so. rewrite P1. split_and!; auto.
    + rewrite cell_addr_pairs, run_chain_pairs, <- cell_addr_pairs. exact Hf.
    + rewrite Hh. exact P9.
    + eapply suspended_pairs; [apply run_chain_pairs|].
      eapply suspended_frame; [|exact Hsus]. intros g0 _. rewrite P6, Hfin.
      rewrite decide_False by apply not_elem_of_nil. reflexivity.
    + rewrite cell_gen_pairs, run_chain_pairs, <- cell_gen_pairs. exact Hng.
    + rewrite cell_addr_pairs, run_chain_pairs, <- cell_addr_pairs. exact Hna.
    + rewrite P5. rewrite <- (length_fmap_fst (o_chain _)), run_chain_pairs, length_fmap_fst.
      exact Hlen.
  - intros e He y.
    destruct (run_chain_fault_head _ _ _ _ He) as (g1 & a1 & p1 & l1 & Heq & Hin).
    rewrite P1, Hs, Hh.
    apply Forall_cons in Hsus as [Hg _]. cbn [cell_gen cell_addr fst snd] in Hg.
    cbn [send]. rewrite P6, decide_True.
    + rewrite Hg. reflexivity.
    + injection Heq as <- <- <- <-. exact Hin.
Qed.

(** ** Pipelines of mappers *)

(** [total_map] and [total_reduce] are [map] and [reduce] called with [pure1]
    and [pure2] callables. *)
Lemma apply_op_total_map s f : apply_op s (total_map f) = Stream_map s (pure1 f).
Proof. reflexivity. Qed.

Lemma apply_op_total_reduce s f initial :
  apply_op s (total_reduce f initial) = Stream_reduce s (pure2 f) initial.
Proof. reflexivity. Qed.

Lemma map_all_build fs : forall s st,
  map_all s fs st = build s (total_map <$> fs) st.
Proof.
  induction fs as [|f fs IH]; intros s st; [reflexivity|].
  rewrite fmap_cons. cbn [map_all build]. unfold bind.
  change (apply_op s (total_map f) st) with (Stream_map s (pure1 f) st).
  destruct (Stream_map s (pure1 f) st) as [[s'|e] st']; [apply IH|reflexivity].
Qed.

Lemma run_chain_maps sid l : forall fs x,
  cell_stage <$> l = stage_of <$> (total_map <$> fs) ->
  o_fault (run_chain sid l x) = None /\
  o_chain (run_chain sid l x) = l /\
  o_outs (run_chain sid l x)
    = zip (cell_addr <$> l) (mkElement sid <$> scan_all fs x) /\
  length l = length fs /\
  (fs <> [] ->
   exists a, last (cell_addr <$> l) = Some a /\
             last (o_outs (run_chain sid l x))
               = Some (a, mkElement sid (compose_all fs x))).
Proof.
  induction l as [|[[g a] p] l IH]; intros [|f fs] x Hst; try discriminate.
  - cbn. split_and!; auto. intros H. contradiction.
  - rewrite !fmap_cons in Hst. injection Hst as Hp Hst. cbn [cell_stage snd] in Hp.
    subst p. cbn [run_chain stage_apply stage_of total_map].
    destruct (IH fs (f x) Hst) as (Hf & Hc & Ho & Hlen & Hlast).
    cbn [o_fault o_chain o_outs]. rewrite Hf, Hc, Ho. rewrite !fmap_cons.
    cbn [scan_all cell_addr fst snd zip zip_with fmap list_fmap].
    split_and!; auto.
    + simpl. congruence.
    + intros _. destruct fs as [|f' fs].
      * destruct l; [|discriminate]. cbn. eauto.
      * destruct Hlast as (a' & Hl1 & Hl2); [discriminate|].
        exists a'. rewrite Ho in Hl2. rewrite !last_cons, Hl1, Hl2. auto.
Qed.

Lemma Mapper_process_stream_id f e st r st' :
  Mapper_process f e st = (Ok (Some r), st') -> stream_id r = stream_id e.
Proof.
  unfold Mapper_process. destruct (f (data e) (world st)) as [[y|x] w]; [|discriminate].
  intros [= <- _]. reflexivity.
Qed.

(** C4.  A stream built from a new one by [map(f1)], ..., [map(fn)]: one
    [process(x)] makes the i-th mapper emit [fi(...f1(x))], stamped with the
    identity of the stream; the last mapper of the chain emits
    [fn(...f2(f1(x))...)].  Whatever its callable, a mapper stamps its output
    with the identity of its input. *)
Theorem C4_map_chain_composes st s sid fs x :
  streams st !! s = Some (mkStream None [] sid) ->
  exists st1 st2 so,
    map_all s fs st = (Ok s, st1) /\
    streams st1 !! s = Some so /\
    length (s_filters so) = length fs /\
    Stream_process s x st1 = (Ok tt, st2) /\
    trace st2 = trace st1 ++ zip (s_filters so) (mkElement sid <$> scan_all fs x) /\
    (fs <> [] ->
     exists a, last (s_filters so) = Some a /\
               last (trace st2) = Some (a, mkElement sid (compose_all fs x))) /\
    (forall f e st0 r st0',
       Mapper_process f e st0 = (Ok (Some r), st0') -> stream_id r = stream_id e).
Proof.
  intros Hs. apply stream_chain_fresh in Hs.
  destruct (build_chain (total_map <$> fs) st s sid [] Hs)
    as (st1 & l & Hb & Hc & Hst & _).
  cbn [app] in Hc.
  destruct (process_chain st1 s sid l x Hc) as (st2 & Hp & _ & _ & _ & Ht & _).
  destruct (run_chain_maps sid l fs x Hst) as (Hf & _ & Ho & Hlen & Hlast).
  unfold result_of in Hp. rewrite Hf in Hp.
  destruct Hc as (so & Hso & Hid & Hfl & _).
  exists st1, st2, so. rewrite map_all_build.
  split_and!; auto.
  - rewrite Hfl, length_fmap. exact Hlen.
  - rewrite Ht, Ho, Hfl. reflexivity.
  - intros Hne. destruct (Hlast Hne) as (a & Hl1 & Hl2). exists a.
    rewrite Hfl. split; [exact Hl1|]. rewrite Ht.
    destruct (o_outs (run_chain sid l x)) as [|o outs] eqn:E; [discriminate|].
    rewrite last_app, Hl2. reflexivity.
  - apply Mapper_process_stream_id.
Qed.

Lemma C4_map_chain_composes_witness :
  exists st1 st2 so,
    map_all 0 [fun v => VTuple [v; v]; fun v => VTuple [v]]
      (mkStore [mkStream None [] "s"] [] [] [] [] []) = (Ok 0, st1) /\
    streams st1 !! 0 = Some so /\
    length (s_filters so) = length [fun v => VTuple [v; v]; fun v => VTuple [v]] /\
    Stream_process 0 (VInt 4) st1 = (Ok tt, st2) /\
    trace st2 = trace st1 ++
      zip (s_filters so)
          (mkElement "s" <$> scan_all [fun v => VTuple [v; v]; fun v => VTuple [v]] (VInt 4)) /\
    ([fun v => VTuple [v; v]; fun v : value => VTuple [v]] <> [] ->
     exists a, last (s_filters so) = Some a /\
               last (trace st2)
                 = Some (a, mkElement "s"
                              (compose_all [fun v => VTuple [v; v]; fun v => VTuple [v]]
                                 (VInt 4)))) /\
    (forall f e st0 r st0',
       Mapper_process f e st0 = (Ok (Some r), st0') -> stream_id r = stream_id e).
Proof.
  apply (C4_map_chain_composes (mkStore [mkStream None [] "s"] [] [] [] [] []) 0 "s"
           [fun v => VTuple [v; v]; fun v => VTuple [v]] (VInt 4)).
  reflexivity.
Defined.

(** ** Pipelines with a reducer *)

Lemma run_chain_outs_addr sid l x o :
  o ∈ o_outs (run_chain sid l x) -> o.1 ∈ cell_addr <$> l.
Proof.
  revert x. induction l as [|[[g a] p] l IH]; intros x; cbn [run_chain].
  - cbn. intros H. apply elem_of_nil in H. contradiction.
  - destruct (stage_apply p x) as [[y|e] p']; cbn [o_outs].
    + intros H. apply elem_of_cons in H as [->|H]; rewrite fmap_cons; apply elem_of_cons.
      * left. reflexivity.
      * right. exact (IH _ H).
    + intros H. apply elem_of_nil in H. contradiction.
Qed.

Lemma filter_outs_other sid l x r :
  r ∉ cell_addr <$> l ->
  filter (fun o : nat * Element => o.1 = r) (o_outs (run_chain sid l x)) = [].
Proof.
  intros Hr.
  assert (H : forall o, o ∈ o_outs (run_chain sid l x) -> o.1 <> r).
  { intros o Ho Heq. apply Hr. rewrite <- Heq. exact (run_chain_outs_addr _ _ _ _ Ho). }
  induction (o_outs (run_chain sid l x)) as [|o outs IH]; [reflexivity|].
  rewrite filter_cons_False.
  - apply IH. intros o' Ho'. apply H. apply elem_of_cons; auto.
  - apply H. apply elem_of_cons; auto.
Qed.

(** One element through mappers, a reducer, and mappers again. *)
Lemma run_chain_reduce sid f initial gs lpost g r : forall lpre hs acc x,
  cell_stage <$> lpre = stage_of <$> (total_map <$> hs) ->
  cell_stage <$> lpost = stage_of <$> (total_map <$> gs) ->
  r ∉ cell_addr <$> lpre ->
  r ∉ cell_addr <$> lpost ->
  o_fault (run_chain sid
             (lpre ++ (g, r, PReduce (fun x acc => Ok (f x acc)) acc initial) :: lpost) x)
    = None /\
  o_chain (run_chain sid
             (lpre ++ (g, r, PReduce (fun x acc => Ok (f x acc)) acc initial) :: lpost) x)
    = lpre ++ (g, r, PReduce (fun x acc => Ok (f x acc))
                       (f (compose_all hs x) acc) initial) :: lpost /\
  filter (fun o : nat * Element => o.1 = r)
    (o_outs (run_chain sid
               (lpre ++ (g, r, PReduce (fun x acc => Ok (f x acc)) acc initial) :: lpost) x))
    = [(r, mkElement sid (f (compose_all hs x) acc))].
Proof.
  induction lpre as [|[[g0 a0] p0] lpre IH]; intros [|h hs] acc x Hpre Hpost Hr1 Hr2;
    try discriminate.
  - cbn [app run_chain stage_apply compose_all fold_left].
    destruct (run_chain_maps sid lpost gs (f x acc) Hpost) as (Hf & Hc & _).
    cbn [o_fault o_chain o_outs]. rewrite Hf, Hc. split_and!; auto.
    rewrite filter_cons_True by reflexivity.
    rewrite (filter_outs_other _ _ _ _ Hr2). reflexivity.
  - rewrite !fmap_cons in Hpre. injection Hpre as Hp Hpre. cbn [cell_stage snd] in Hp.
    subst p0. rewrite fmap_cons in Hr1. apply not_elem_of_cons in Hr1 as [Hne Hr1].
    cbn [cell_addr fst snd] in Hne.
    cbn [app run_chain stage_apply stage_of total_map].
    destruct (IH hs acc (h x) Hpre Hpost Hr1 Hr2) as (Hf & Hc & Ho).
    cbn [o_fault o_chain o_outs]. rewrite Hf, Hc. split_and!; auto.
    rewrite filter_cons_False by (cbn; congruence). exact Ho.
Qed.

Lemma process_all_reduce s sid f initial hs gs lpre lpost g r :
  cell_stage <$> lpre = stage_of <$> (total_map <$> hs) ->
  cell_stage <$> lpost = stage_of <$> (total_map <$> gs) ->
  forall xs st acc,
    stream_chain st s sid
      (lpre ++ (g, r, PReduce (fun x acc => Ok (f x acc)) acc initial) :: lpost) ->
    exists st' new,
      process_all s xs st = (Ok tt, st') /\
      trace st' = trace st ++ new /\
      filter (fun o : nat * Element => o.1 = r) new =
        (fun n => (r, mkElement sid
                        (fold_inputs f acc (take n (compose_all hs <$> xs)))))
          <$> seq 1 (length xs).
Proof.
  intros Hpre Hpost. induction xs as [|x xs IH]; intros st acc Hc.
  - exists st, []. cbn. rewrite app_nil_r. auto.
  - assert (Hr : (r ∉ cell_addr <$> lpre) /\ (r ∉ cell_addr <$> lpost)).
    { destruct Hc as (_ & _ & _ & _ & _ & _ & _ & Hna & _).
      rewrite fmap_app, fmap_cons in Hna. apply NoDup_app in Hna as (_ & Hd & Hn).
      apply NoDup_cons in Hn as [Hn _]. split; [|exact Hn].
      intros Hin. apply (Hd _ Hin). apply elem_of_cons; auto. }
    destruct Hr as [Hr1 Hr2].
    destruct (run_chain_reduce sid f initial gs lpost g r lpre hs acc x Hpre Hpost Hr1 Hr2)
      as (Hf & Hch & Hfl).
    destruct (process_chain st s sid _ x Hc) as (st1 & Hp & _ & _ & _ & Ht & Hnext & _).
    unfold result_of in Hp. rewrite Hf in Hp. specialize (Hnext Hf). rewrite Hch in Hnext.
    destruct (IH st1 _ Hnext) as (st2 & new & Hpa & Ht2 & Hfl2).
    eexists st2, (_ ++ new).
    cbn [process_all]. unfold bind. rewrite Hp. split; [exact Hpa|]. split.
    + rewrite Ht2, Ht, app_assoc. reflexivity.
    + rewrite filter_app, Hfl, Hfl2. cbn [length seq fmap list_fmap app].
      f_equal. rewrite <- (fmap_S_seq 1), <- list_fmap_compose.
      apply list_fmap_ext. intros; reflexivity.
Qed.

(** C5.  A stream built from a new one by mappers, [reduce(f, initial)] and
    mappers again, then fed [xs] by successive [process] calls: the reducer
    emits exactly one element per call, and the n-th one carries [f] folded
    from [initial] over the first [n] inputs as they reach the reducer, in call
    order (the inputs themselves when no mapper precedes the reducer). *)
Theorem C5_reduce_emits_running_fold st s sid hs f initial gs xs :
  streams st !! s = Some (mkStream None [] sid) ->
  exists st1 st2 so r new,
    build s ((total_map <$> hs) ++ total_reduce f initial :: (total_map <$> gs)) st
      = (Ok s, st1) /\
    streams st1 !! s = Some so /\
    s_filters so !! length hs = Some r /\
    process_all s xs st1 = (Ok tt, st2) /\
    trace st2 = trace st1 ++ new /\
    filter (fun o : nat * Element => o.1 = r) new =
      (fun n => (r, mkElement sid
                      (fold_inputs f initial (take n (compose_all hs <$> xs)))))
        <$> seq 1 (length xs).
Proof.
  intros Hs. apply stream_chain_fresh in Hs.
  destruct (build_chain ((total_map <$> hs) ++ total_reduce f initial :: (total_map <$> gs))
              st s sid [] Hs) as (st1 & l & Hb & Hc & Hst & _).
  cbn [app] in Hc. rewrite fmap_app, fmap_cons in Hst.
  apply fmap_app_inv in Hst as (lpre & l2 & Hpre & H2 & ->).
  symmetry in H2. apply fmap_cons_inv in H2 as ([[g r] p] & lpost & Hp & Hpost & ->).
  cbn [cell_stage snd stage_of total_reduce] in Hp. subst p.
  symmetry in Hpre, Hpost.
  destruct (process_all_reduce s sid f initial hs gs lpre lpost g r Hpre Hpost xs st1 initial Hc)
    as (st2 & new & Hpa & Ht & Hfl).
  destruct Hc as (so & Hso & _ & Hfil & _).
  exists st1, st2, so, r, new. split_and!; auto.
  rewrite Hfil, fmap_app, fmap_cons.
  assert (Hlen : length hs = length (cell_addr <$> lpre)).
  { rewrite length_fmap. apply (f_equal length) in Hpre.
    rewrite !length_fmap in Hpre. congruence. }
  rewrite Hlen. apply list_lookup_middle. reflexivity.
Qed.

Lemma C5_reduce_emits_running_fold_witness :
  exists st1 st2 so r new,
    build 0 ((total_map <$> []) ++
             total_reduce (fun x acc => VTuple [x; acc]) VNone :: (total_map <$> []))
      (mkStore [mkStream None [] "s"] [] [] [] [] []) = (Ok 0, st1) /\
    streams st1 !! 0 = Some so /\
    s_filters so !! length (@nil (value -> value)) = Some r /\
    process_all 0 [VInt 4; VInt 5] st1 = (Ok tt, st2) /\
    trace st2 = trace st1 ++ new /\
    filter (fun o : nat * Element => o.1 = r) new =
      (fun n => (r, mkElement "s"
                      (fold_inputs (fun x acc => VTuple [x; acc]) VNone
                         (take n (compose_all [] <$> [VInt 4; VInt 5])))))
        <$> seq 1 (length [VInt 4; VInt 5]).
Proof.
  apply (C5_reduce_emits_running_fold (mkStore [mkStream None [] "s"] [] [] [] [] []) 0 "s"
           [] (fun x acc => VTuple [x; acc]) VNone [] [VInt 4; VInt 5]).
  reflexivity.
Defined.

(** ** A callable that raises *)

Lemma run_chain_fault_origin sid l x e :
  o_fault (run_chain sid l x) = Some e ->
  exists p v e0,
    p ∈ cell_stage <$> l /\
    (stage_apply p v).1 = Raise e0 /\
    e = leaving_generator e0.
Proof.
  revert x e. induction l as [|[[g a] p] l IH]; intros x e; cbn [run_chain]; [discriminate|].
  destruct (stage_apply p x) as [[y|e1] p'] eqn:Hap; cbn [o_fault].
  - destruct (o_fault (run_chain sid l y)) as [e2|] eqn:Hf; [|discriminate].
    intros [= <-]. destruct (IH y e2 Hf) as (p0 & v & e0 & Hin & Hst & ->).
    exists p0, v, e0. rewrite fmap_cons. split; [apply elem_of_cons; auto|].
    split; [exact Hst|]. apply leaving_generator_idem.
  - intros [= <-]. exists p, x, e1. rewrite fmap_cons, Hap.
    split; [apply elem_of_cons; auto|]. auto.
Qed.

(** C7, as stated, fails: on [Stream('s').map(f)], where [f] raises on [0]
    and is the identity elsewhere, [process(1)] returns and emits [1]; after a
    faulting [process(0)], the same [process(1)] raises [StopIteration] and
    emits nothing. *)
Lemma C7_counterexample :
  let f : callable :=
    lift1 (fun v => match v with VInt 0 => Raise (UserError "boom") | _ => Ok v end) in
  let st0 := ((let* s := Stream_new (Some "s") "" in Stream_map s f) empty_store).2 in
  (exists st2,
     Stream_process 0 (VInt 1) st0 = (Ok tt, st2) /\
     trace st2 = [(0, mkElement "s" (VInt 1))]) /\
  (exists st1 st2,
     Stream_process 0 (VInt 0) st0 = (Raise (UserError "boom"), st1) /\
     Stream_process 0 (VInt 1) st1 = (Raise StopIteration, st2) /\
     trace st2 = []).
Proof.
  cbv zeta. split.
  - eexists. vm_compute. split; reflexivity.
  - eexists _, _. vm_compute. repeat split; reflexivity.
Qed.

(** C7, amended.  On a stream that is a chain of mappers and reducers, when a
    callable raises during [process(x)], the exception reaches the caller of
    [process] in the same call (a [StopIteration] of the callable as
    [RuntimeError]), and it finishes the generators it passes on its way: every
    later [process] call on the stream raises [StopIteration] and changes
    nothing. *)
Theorem C7_fault_finishes_the_chain st s sid l x e :
  stream_chain st s sid l ->
  o_fault (run_chain sid l x) = Some e ->
  exists st',
    Stream_process s x st = (Raise e, st') /\
    (exists p v e0,
       p ∈ cell_stage <$> l /\
       (stage_apply p v).1 = Raise e0 /\
       e = leaving_generator e0) /\
    forall y, Stream_process s y st' = (Raise StopIteration, st').
Proof.
  intros Hc Hf.
  destruct (process_chain st s sid l x Hc) as (st' & Hp & _ & _ & _ & _ & _ & Hstop).
  unfold result_of in Hp. rewrite Hf in Hp.
  exists st'. split; [exact Hp|]. split.
  - exact (run_chain_fault_origin _ _ _ _ Hf).
  - exact (Hstop e Hf).
Qed.

Lemma C7_fault_finishes_the_chain_witness :
  exists st',
    Stream_process 0 (VInt 0)
      (mkStore [mkStream (Some 0) [0] "s"]
               [mkFilter None (Mapper (lift1 (fun _ => Raise (UserError "boom"))))]
               [mkGen 0 GSuspended] [] [] [])
      = (Raise (UserError "boom"), st') /\
    (exists p v e0,
       p ∈ cell_stage <$> [(0, 0, PMap (fun _ => Raise (UserError "boom")))] /\
       (stage_apply p v).1 = Raise e0 /\
       UserError "boom" = leaving_generator e0) /\
    forall y, Stream_process 0 y st' = (Raise StopIteration, st').
Proof.
  apply (C7_fault_finishes_the_chain
           (mkStore [mkStream (Some 0) [0] "s"]
                    [mkFilter None (Mapper (lift1 (fun _ => Raise (UserError "boom"))))]
                    [mkGen 0 GSuspended] [] [] [])
           0 "s" [(0, 0, PMap (fun _ => Raise (UserError "boom")))] (VInt 0)
           (UserError "boom")).
  - exists (mkStream (Some 0) [0] "s"). simpl.
    repeat split; try reflexivity.
    + exists None. split; reflexivity.
    + repeat constructor.
    + repeat constructor. intros H. apply elem_of_nil in H. exact H.
    + repeat constructor. intros H. apply elem_of_nil in H. exact H.
  - reflexivity.
Defined.

Lemma op_raises_stage o v e :
  op_raises o v e -> (stage_apply (stage_of o) v).1 = Raise e.
Proof. destruct o as [f|f i]; cbn; intros ->; reflexivity. Qed.

Lemma run_chain_prefix_fault sid c lpost e : forall lpre hs x,
  cell_stage <$> lpre = stage_of <$> (total_map <$> hs) ->
  (stage_apply (cell_stage c) (compose_all hs x)).1 = Raise e ->
  o_fault (run_chain sid (lpre ++ c :: lpost) x) = Some (leaving_generator e).
Proof.
  induction lpre as [|[[g0 a0] p0] lpre IH]; intros [|h hs] x Hpre Hc; try discriminate.
  - destruct c as [[g a] p]. cbn [app run_chain]. cbn in Hc.
    destruct (stage_apply p x) as [[y|e'] p']; cbn in Hc; [discriminate|].
    injection Hc as ->. reflexivity.
  - rewrite !fmap_cons in Hpre. injection Hpre as Hp Hpre. cbn [cell_stage snd] in Hp.
    subst p0. cbn [app run_chain stage_apply stage_of total_map o_fault].
    rewrite (IH hs (h x) Hpre Hc). cbn. rewrite leaving_generator_idem. reflexivity.
Qed.

(** X2.  A fault in a pipeline as the user builds it, from a new stream:
    mappers that return, then a [map] or [reduce] whose callable raises [e] on
    what reaches it, then any stages.  [process(x)] raises [e] to its caller
    (a [StopIteration] of the callable as [RuntimeError]), and every later
    [process] call raises [StopIteration]. *)
Lemma fault_in_built_pipeline st s sid hs o post x e :
  streams st !! s = Some (mkStream None [] sid) ->
  op_raises o (compose_all hs x) e ->
  exists st1 st2,
    build s ((total_map <$> hs) ++ o :: post) st = (Ok s, st1) /\
    Stream_process s x st1 = (Raise (leaving_generator e), st2) /\
    forall y, Stream_process s y st2 = (Raise StopIteration, st2).
Proof.
  intros Hs Hr. apply stream_chain_fresh in Hs.
  destruct (build_chain ((total_map <$> hs) ++ o :: post) st s sid [] Hs)
    as (st1 & l & Hb & Hc & Hst & _).
  cbn [app] in Hc. rewrite fmap_app, fmap_cons in Hst.
  apply fmap_app_inv in Hst as (lpre & l2 & Hpre & H2 & ->).
  symmetry in H2. apply fmap_cons_inv in H2 as (c & lpost & Hp & _ & ->).
  symmetry in Hpre.
  pose proof (op_raises_stage _ _ _ Hr) as Hsa. rewrite Hp in Hsa.
  pose proof (run_chain_prefix_fault sid c lpost e lpre hs x Hpre Hsa) as Hf.
  destruct (process_chain st1 s sid _ x Hc) as (st2 & Hproc & _ & _ & _ & _ & _ & Hstop).
  unfold result_of in Hproc. rewrite Hf in Hproc.
  exists st1, st2. split; [exact Hb|]. split; [exact Hproc|]. exact (Hstop _ Hf).
Qed.

Lemma fault_in_built_pipeline_witness :
  let st := mkStore [mkStream None [] "s"] [] [] [] [] [] in
  let o := OpReduce (fun _ _ => Raise StopIteration) VNone in
  exists st1 st2,
    build 0 ((total_map <$> [fun v => VTuple [v]]) ++ o :: [total_map id]) st = (Ok 0, st1) /\
    Stream_process 0 (VInt 1) st1 = (Raise (leaving_generator StopIteration), st2) /\
    forall y, Stream_process 0 y st2 = (Raise StopIteration, st2).
Proof.
  cbv zeta.
  apply (fault_in_built_pipeline (mkStore [mkStream None [] "s"] [] [] [] [] []) 0 "s"
           [fun v => VTuple [v]] (OpReduce (fun _ _ => Raise StopIteration) VNone)
           [total_map id] (VInt 1) StopIteration).
  - reflexivity.
  - reflexivity.
Defined.

(** ** Joined streams in the store *)

Lemma send_joiner d gj j nx cl cr l r t m sl stt e st :
  generators st !! gj = Some (mkGen j GSuspended) ->
  filter_objs st !! j = Some (mkFilter nx (Joiner cl cr l r t m)) ->
  streams st !! l = Some sl ->
  streams st !! t = Some stt ->
  send (S d) gj e st =
    let step := Joiner_step (s_id sl) (s_id stt) cl cr e in
    let st1 :=
      mkStore (streams st)
              (<[j := mkFilter nx (Joiner step.2.1 step.2.2 l r t m)]> (filter_objs st))
              (<[gj := mkGen j GRunning]> (generators st))
              (world st) (trace st) (warnings st) in
    match step.1 with
    | Raise x => (Raise (leaving_generator x), set_gen_state gj GFinished st1)
    | Ok None => (Ok tt, set_gen_state gj GSuspended st1)
    | Ok (Some out) =>
        let st2 := set_trace (trace st ++ [(j, out)]) st1 in
        match nx with
        | None => (Ok tt, set_gen_state gj GSuspended st2)
        | Some g' =>
            match send d g' out st2 with
            | (Ok _, st3) => (Ok tt, set_gen_state gj GSuspended st3)
            | (Raise x, st3) =>
                (Raise (leaving_generator x), set_gen_state gj GFinished st3)
            end
        end
    end.
Proof.
  intros Hg Hj Hl Ht. pose proof (lookup_lt_Some _ _ _ Hj) as Hjlt.
  rewrite (send_unfold _ _ _ _ _ Hg).
  rewrite (process_Joiner j nx cl cr l r t m sl stt e
             (set_generators (<[gj := mkGen j GRunning]> (generators st)) st) Hj Hl Ht).
  cbv zeta. unfold set_filter_objs, set_generators, set_trace.
  cbn [streams filter_objs generators world trace warnings].
  destruct (Joiner_step (s_id sl) (s_id stt) cl cr e) as [[[out|]|x] [cl' cr']];
    cbn [fst snd]; try reflexivity.
  rewrite list_lookup_insert_eq by exact Hjlt. cbn [next]. reflexivity.
Qed.

Lemma run_chain_fault_left sid l x e :
  o_fault (run_chain sid l x) = Some e -> leaving_generator e = e.
Proof.
  intros H. destruct (run_chain_fault_origin _ _ _ _ H) as (_ & _ & e0 & _ & _ & ->).
  apply leaving_generator_idem.
Qed.

(** An arrival through a stream whose head is a generator of the joiner. *)
Lemma arrival st s gs fs sid j nx cl cr l r t m lid stt ld d :
  streams st !! s = Some (mkStream (Some gs) fs sid) ->
  generators st !! gs = Some (mkGen j GSuspended) ->
  filter_objs st !! j = Some (mkFilter nx (Joiner cl cr l r t m)) ->
  streams st !! l = Some lid ->
  streams st !! t = Some stt ->
  linked (filter_objs st) nx ld ->
  suspended (generators st) ld ->
  NoDup (cell_gen <$> ld) ->
  NoDup (cell_addr <$> ld) ->
  gs ∉ cell_gen <$> ld ->
  j ∉ cell_addr <$> ld ->
  length ld < length (generators st) ->
  let step := Joiner_step (s_id lid) (s_id stt) cl cr (mkElement sid d) in
  match step.1 with
  | Raise _ => True
  | Ok None =>
      Stream_process s d st =
        (Ok tt,
         set_filter_objs
           (<[j := mkFilter nx (Joiner step.2.1 step.2.2 l r t m)]> (filter_objs st)) st)
  | Ok (Some out) =>
      exists st',
        Stream_process s d st
          = (result_of (run_chain (stream_id out) ld (data out)), st') /\
        trace st' = trace st ++ (j, out) :: o_outs (run_chain (stream_id out) ld (data out)) /\
        world st' = world st
  end.
Proof.
  intros Hs Hg Hj Hl Ht Hlk Hsus Hng Hna Hgn Hjn Hlen step.
  pose proof (lookup_lt_Some _ _ _ Hg) as Hglt.
  pose proof (lookup_lt_Some _ _ _ Hj) as Hjlt.
  unfold Stream_process, bind, get_stream. rewrite Hs. cbn [s_head s_id].
  unfold send_top. rewrite (send_joiner _ _ _ _ _ _ _ _ _ _ _ _ _ _ Hg Hj Hl Ht).
  fold step. cbv zeta.
  destruct (step.1) as [[out|]|x]; [| |exact I].
  - (* a joined element *)
    unfold set_trace. cbn [streams filter_objs generators world trace warnings].
    destruct nx as [g'|].
    + match goal with |- context [send _ g' out ?s] => set (st2 := s) end.
      destruct (send_chain ld (length (generators st)) g' out st2) as (st3 & Hsend & Hpost).
      { eapply linked_frame; [|exact Hlk]. intros a Ha. subst st2. cbn [filter_objs].
        apply list_lookup_insert_ne. intros ->. contradiction. }
      { eapply suspended_frame; [|exact Hsus]. intros g Hgin. subst st2. cbn [generators].
        apply list_lookup_insert_ne. intros ->. contradiction. }
      { exact Hng. } { exact Hna. } { lia. }
      rewrite Hsend.
      destruct Hpost as (P1 & P2 & P3 & P4 & P5 & P6 & P7 & P8 & P9).
      assert (Hg3 : generators st3 !! gs = Some (mkGen j GRunning)).
      { rewrite P6, decide_False.
        - subst st2. cbn [generators]. apply list_lookup_insert_eq. exact Hglt.
        - intros Hin. apply Hgn. eapply run_chain_finished, Hin. }
      unfold result_of.
      destruct (o_fault (run_chain (stream_id out) ld (data out))) as [x|] eqn:Hf.
      * eexists. rewrite (run_chain_fault_left _ _ _ _ Hf).
        split; [reflexivity|]. rewrite (set_gen_state_eq _ _ _ _ Hg3).
        cbn [trace set_generators world]. rewrite P4, P2. subst st2.
        cbn [trace world]. rewrite <- app_assoc. auto.
      * eexists. split; [reflexivity|]. rewrite (set_gen_state_eq _ _ _ _ Hg3).
        cbn [trace set_generators world]. rewrite P4, P2. subst st2.
        cbn [trace world]. rewrite <- app_assoc. auto.
    + apply linked_None in Hlk as ->. cbn [run_chain result_of o_fault o_outs].
      eexists. split; [reflexivity|].
      unfold set_gen_state. cbn [generators].
      rewrite list_lookup_insert_eq by exact Hglt.
      cbn [trace set_generators world]. auto.
  - (* nothing to emit *)
    unfold set_gen_state. cbn [generators].
    rewrite list_lookup_insert_eq by exact Hglt. cbn [gen_self].
    unfold set_generators, set_filter_objs.
    cbn [streams filter_objs generators world trace warnings].
    rewrite list_insert_insert_eq, (list_insert_id _ _ _ Hg). reflexivity.
Qed.

(** The store that [join] leaves, for two streams without stages. *)
Lemma join_spec st l r lid rid max_size uuid :
  streams st !! l = Some (mkStream None [] lid) ->
  streams st !! r = Some (mkStream None [] rid) ->
  l <> r ->
  (0 < max_size)%Z ->
  let t := length (streams st) in
  let j := length (filter_objs st) in
  let g := length (generators st) in
  let c0 := lrucache.mk (Z.to_nat max_size) [] in
  join l r max_size uuid st =
    (Ok t,
     mkStore
       (<[t := mkStream (Some (S (S g))) [j] uuid]>
          (<[r := mkStream (Some (S g)) [j] rid]>
             (<[l := mkStream (Some g) [j] lid]>
                (streams st ++ [mkStream None [] uuid]))))
       (filter_objs st ++ [mkFilter None (Joiner c0 c0 l r t max_size)])
       (((generators st ++ [mkGen j GSuspended]) ++ [mkGen j GSuspended])
          ++ [mkGen j GSuspended])
       (world st) (trace st) (warnings st)).
Proof.
  intros Hl Hr Hne Hm t j g c0.
  pose proof (lookup_lt_Some _ _ _ Hl) as Hllt.
  pose proof (lookup_lt_Some _ _ _ Hr) as Hrlt.
  unfold join. unfold bind at 1. unfold Stream_new, alloc_stream. cbn [default].
  unfold bind at 1. unfold Joiner_new, lrucache.new.
  destruct (Z.ltb_spec 0 max_size) as [_|Hc]; [|lia].
  unfold alloc_filter, set_streams, set_filter_objs.
  cbn [streams filter_objs generators world trace warnings].
  fold t j c0.
  unfold bind at 1.
  erewrite (Stream_append_head _ l (mkStream None [] lid) j); cycle 1.
  { cbn [streams]. apply lookup_app_l_Some. exact Hl. }
  { reflexivity. }
  cbn [streams filter_objs generators world trace warnings s_filters s_id app].
  unfold bind at 1.
  erewrite (Stream_append_head _ r (mkStream None [] rid) j); cycle 1.
  { cbn [streams]. rewrite list_lookup_insert_ne by exact Hne.
    apply lookup_app_l_Some. exact Hr. }
  { reflexivity. }
  cbn [streams filter_objs generators world trace warnings s_filters s_id app].
  unfold bind at 1.
  erewrite (Stream_append_head _ t (mkStream None [] uuid) j); cycle 1.
  { cbn [streams]. subst t. rewrite !list_lookup_insert_ne by lia.
    apply list_lookup_middle. reflexivity. }
  { reflexivity. }
  cbn [streams filter_objs generators world trace warnings s_filters s_id app].
  unfold ret. rewrite !length_app. cbn [length]. fold g.
  replace (g + 1) with (S g) by lia. replace (S g + 1) with (S (S g)) by lia.
  reflexivity.
Qed.

Lemma join_joined st l r lid rid max_size uuid :
  streams st !! l = Some (mkStream None [] lid) ->
  streams st !! r = Some (mkStream None [] rid) ->
  l <> r ->
  (0 < max_size)%Z ->
  let t := length (streams st) in
  let j := length (filter_objs st) in
  let c0 := lrucache.mk (Z.to_nat max_size) [] in
  exists st1,
    join l r max_size uuid st = (Ok t, st1) /\
    joined st1 l r t j lid rid uuid c0 c0 None [] /\
    trace st1 = trace st /\
    world st1 = world st /\
    (forall s, s ∈ [l; r; t] ->
       exists so h, streams st1 !! s = Some so /\ s_head so = Some h /\
                    last (s_filters so) = Some j) /\
    (exists h, streams st1 !! t = Some (mkStream (Some h) [j] uuid)).
Proof.
  intros Hl Hr Hne Hm t j c0.
  pose proof (lookup_lt_Some _ _ _ Hl) as Hllt.
  pose proof (lookup_lt_Some _ _ _ Hr) as Hrlt.
  eexists. split; [exact (join_spec st l r lid rid max_size uuid Hl Hr Hne Hm)|].
  cbn [streams filter_objs generators world trace warnings]. fold t j c0.
  set (g := length (generators st)).
  assert (Hsl : (<[t := mkStream (Some (S (S g))) [j] uuid]>
                  (<[r := mkStream (Some (S g)) [j] rid]>
                     (<[l := mkStream (Some g) [j] lid]>
                        (streams st ++ [mkStream None [] uuid])))) !! l
                = Some (mkStream (Some g) [j] lid)).
  { rewrite list_lookup_insert_ne by (subst t; lia).
    rewrite list_lookup_insert_ne by auto.
    apply list_lookup_insert_eq. rewrite length_app. lia. }
  assert (Hsr : (<[t := mkStream (Some (S (S g))) [j] uuid]>
                  (<[r := mkStream (Some (S g)) [j] rid]>
                     (<[l := mkStream (Some g) [j] lid]>
                        (streams st ++ [mkStream None [] uuid])))) !! r
                = Some (mkStream (Some (S g)) [j] rid)).
  { rewrite list_lookup_insert_ne by (subst t; lia).
    apply list_lookup_insert_eq. rewrite length_insert, length_app. lia. }
  assert (Hst : (<[t := mkStream (Some (S (S g))) [j] uuid]>
                  (<[r := mkStream (Some (S g)) [j] rid]>
                     (<[l := mkStream (Some g) [j] lid]>
                        (streams st ++ [mkStream None [] uuid])))) !! t
                = Some (mkStream (Some (S (S g))) [j] uuid)).
  { apply list_lookup_insert_eq. rewrite !length_insert, length_app. simpl. subst t. lia. }
  split_and!; auto.
  - exists g, (S g), [j], [j], (mkStream (Some (S (S g))) [j] uuid), max_size.
    split_and!; auto; cbn [streams filter_objs generators world trace warnings].
    + rewrite lookup_app_l by (rewrite !length_app; simpl; unfold g; lia).
      rewrite lookup_app_l by (rewrite !length_app; simpl; unfold g; lia).
      apply list_lookup_middle. reflexivity.
    + rewrite lookup_app_l by (rewrite !length_app; simpl; unfold g; lia).
      apply list_lookup_middle. rewrite length_app. simpl. unfold g. lia.
    + apply list_lookup_middle. reflexivity.
    + reflexivity.
    + constructor.
    + cbn. apply NoDup_nil_2.
    + cbn. apply NoDup_nil_2.
    + cbn. apply not_elem_of_nil.
    + cbn. apply not_elem_of_nil.
    + cbn. apply not_elem_of_nil.
    + rewrite !length_app. simpl. lia.
  - intros s Hs. rewrite !elem_of_cons in Hs.
    destruct Hs as [->|[->|[->|Hs]]]; [| | |apply elem_of_nil in Hs; contradiction];
      eexists _, _; (split; [eassumption|]); split; reflexivity.
  - eauto.
Qed.

(** An arrival on one side of two joined streams. *)
Lemma joined_arrival st l r t j lid rid tid cl cr nx ld (on_left : bool) d :
  joined st l r t j lid rid tid cl cr nx ld ->
  let s := if on_left then l else r in
  let sid := if on_left then lid else rid in
  let step := Joiner_step lid tid cl cr (mkElement sid d) in
  match step.1 with
  | Raise _ => True
  | Ok None =>
      exists st',
        Stream_process s d st = (Ok tt, st') /\
        trace st' = trace st /\
        world st' = world st /\
        joined st' l r t j lid rid tid step.2.1 step.2.2 nx ld
  | Ok (Some out) =>
      exists st',
        Stream_process s d st
          = (result_of (run_chain (stream_id out) ld (data out)), st') /\
        trace st' = trace st ++ (j, out) :: o_outs (run_chain (stream_id out) ld (data out)) /\
        world st' = world st
  end.
Proof.
  intros (gl & gr & fl & fr & stt & m & Hl & Hr & Ht & Htid & Hgl & Hgr & Hj & Hlk & Hsus
          & Hng & Hna & Hgln & Hgrn & Hjn & Hlen) s sid step.
  assert (Harr : exists gs fs,
             streams st !! s = Some (mkStream (Some gs) fs sid) /\
             generators st !! gs = Some (mkGen j GSuspended) /\
             gs ∉ cell_gen <$> ld).
  { subst s sid. destruct on_left; eauto 10. }
  destruct Harr as (gs & fs & Hs & Hgs & Hgsn).
  pose proof (arrival st s gs fs sid j nx cl cr l r t m _ stt ld d
                Hs Hgs Hj Hl Ht Hlk Hsus Hng Hna Hgsn Hjn Hlen) as H.
  cbv zeta in H. cbn [s_id] in H. rewrite Htid in H. fold step in H.
  destruct (step.1) as [[out|]|x]; [exact H| |exact I].
  eexists. split; [exact H|].
  pose proof (lookup_lt_Some _ _ _ Hj) as Hjlt.
  split; [reflexivity|]. split; [reflexivity|].
  exists gl, gr, fl, fr, stt, m.
  unfold set_filter_objs. cbn [streams filter_objs generators world trace warnings].
  split_and!; auto.
  - apply list_lookup_insert_eq. exact Hjlt.
  - eapply linked_frame; [|exact Hlk]. intros a Ha.
    apply list_lookup_insert_ne. intros ->. contradiction.
Qed.

Lemma set_empty n k v :
  lrucache.set k v (lrucache.mk n []) = lrucache.mk n [(k, v)].
Proof.
  unfold lrucache.set.
  cbn [lrucache.table lrucache.lookup lrucache.size length removelast].
  destruct (0 <? n); reflexivity.
Qed.

Lemma step_first_left lid tid n k a :
  Joiner_step lid tid (lrucache.mk n []) (lrucache.mk n []) (mkElement lid (VTuple [k; a]))
    = (Ok None, (lrucache.mk n [(k, a)], lrucache.mk n [])).
Proof.
  rewrite Joiner_step_pair, String.eqb_refl, set_empty. reflexivity.
Qed.

Lemma step_first_right lid tid sid n k b :
  sid <> lid ->
  Joiner_step lid tid (lrucache.mk n []) (lrucache.mk n []) (mkElement sid (VTuple [k; b]))
    = (Ok None, (lrucache.mk n [], lrucache.mk n [(k, b)])).
Proof.
  intros Hne. apply String.eqb_neq in Hne.
  rewrite Joiner_step_pair, Hne, set_empty. reflexivity.
Qed.

Lemma step_match_right lid tid sid n k a b cr :
  sid <> lid -> a <> VNone ->
  Joiner_step lid tid (lrucache.mk n [(k, a)]) cr (mkElement sid (VTuple [k; b]))
    = (Ok (Some (mkElement tid (VTuple [k; VTuple [a; b]]))),
       (lrucache.mk n [(k, a)], cr)).
Proof.
  intros Hne Ha. apply String.eqb_neq in Hne. rewrite Joiner_step_pair, Hne.
  unfold lrucache.get. cbn. rewrite value_eqb_refl. cbn.
  rewrite (is_not_None_true _ Ha). reflexivity.
Qed.

Lemma step_match_left lid tid n k a b cl :
  b <> VNone ->
  Joiner_step lid tid cl (lrucache.mk n [(k, b)]) (mkElement lid (VTuple [k; a]))
    = (Ok (Some (mkElement tid (VTuple [k; VTuple [a; b]]))),
       (cl, lrucache.mk n [(k, b)])).
Proof.
  intros Hb. rewrite Joiner_step_pair, String.eqb_refl.
  unfold lrucache.get. cbn. rewrite value_eqb_refl. cbn.
  rewrite (is_not_None_true _ Hb). reflexivity.
Qed.

(** C1, as stated, fails when the value fed first is [None]:
    [left.process((1, None))] then [right.process((1, 2))] on two joined
    streams emits nothing at all. *)
Lemma C1_counterexample :
  exists st,
    (let* l := Stream_new (Some "left") "" in
     let* r := Stream_new (Some "right") "" in
     let* _ := join l r 128 "target" in
     let* _ := Stream_process l (VTuple [VInt 1; VNone]) in
     Stream_process r (VTuple [VInt 1; VInt 2])) empty_store = (Ok tt, st) /\
    trace st = [].
Proof.
  eexists. vm_compute. split; reflexivity.
Qed.

(** C1, amended.  Two streams without stages and with distinct identities are
    joined.  Feeding [(k, a)] to the left one and then [(k, b)] to the right
    one, with [a] other than [None], emits nothing at the first feed and at
    the second exactly one element, from the joiner, stamped with the identity
    of the target stream and carrying [(k, (a, b))].  Fed in the other order,
    with [b] other than [None], the outcome is the same, left value first. *)
Theorem C1_join_emits_one_pair st l r lid rid max_size uuid k a b :
  streams st !! l = Some (mkStream None [] lid) ->
  streams st !! r = Some (mkStream None [] rid) ->
  lid <> rid ->
  (0 < max_size)%Z ->
  exists t st1 stt j,
    join l r max_size uuid st = (Ok t, st1) /\
    streams st1 !! t = Some stt /\
    filter_objs st1 !! j
      = Some (mkFilter None
                (Joiner (lrucache.mk (Z.to_nat max_size) [])
                        (lrucache.mk (Z.to_nat max_size) []) l r t max_size)) /\
    (a <> VNone ->
     exists st2 st3,
       Stream_process l (VTuple [k; a]) st1 = (Ok tt, st2) /\
       trace st2 = trace st1 /\
       Stream_process r (VTuple [k; b]) st2 = (Ok tt, st3) /\
       trace st3 = trace st1 ++
                   [(j, mkElement (s_id stt) (VTuple [k; VTuple [a; b]]))]) /\
    (b <> VNone ->
     exists st2 st3,
       Stream_process r (VTuple [k; b]) st1 = (Ok tt, st2) /\
       trace st2 = trace st1 /\
       Stream_process l (VTuple [k; a]) st2 = (Ok tt, st3) /\
       trace st3 = trace st1 ++
                   [(j, mkElement (s_id stt) (VTuple [k; VTuple [a; b]]))]).
Proof.
  intros Hl Hr Hid Hm.
  assert (Hne : l <> r) by (intros ->; rewrite Hl in Hr; congruence).
  destruct (join_joined st l r lid rid max_size uuid Hl Hr Hne Hm)
    as (st1 & Hjoin & Hjd & _ & _ & _ & (h & Hstt)).
  set (n := Z.to_nat max_size) in *.
  exists (length (streams st)), st1, (mkStream (Some h) [length (filter_objs st)] uuid),
    (length (filter_objs st)).
  split; [exact Hjoin|]. split; [exact Hstt|]. split.
  { destruct Hjd as (? & ? & ? & ? & ? & m & _ & _ & _ & _ & _ & _ & Hj & _).
    rewrite (join_spec st l r lid rid max_size uuid Hl Hr Hne Hm) in Hjoin.
    injection Hjoin as <-. cbn [filter_objs]. apply list_lookup_middle. reflexivity. }
  cbn [s_id]. split.
  - intros Ha.
    pose proof (joined_arrival _ _ _ _ _ _ _ _ _ _ _ _ true (VTuple [k; a]) Hjd) as H1.
    cbv zeta in H1. rewrite step_first_left in H1. cbn [fst snd] in H1.
    destruct H1 as (st2 & Hp1 & Ht2 & _ & Hjd2).
    pose proof (joined_arrival _ _ _ _ _ _ _ _ _ _ _ _ false (VTuple [k; b]) Hjd2) as H2.
    cbv zeta in H2. rewrite step_match_right in H2 by auto. cbn [fst snd] in H2.
    destruct H2 as (st3 & Hp2 & Ht3 & _).
    exists st2, st3. split_and!; auto. rewrite Ht3, Ht2. reflexivity.
  - intros Hb.
    pose proof (joined_arrival _ _ _ _ _ _ _ _ _ _ _ _ false (VTuple [k; b]) Hjd) as H1.
    cbv zeta in H1. rewrite step_first_right in H1 by auto. cbn [fst snd] in H1.
    destruct H1 as (st2 & Hp1 & Ht2 & _ & Hjd2).
    pose proof (joined_arrival _ _ _ _ _ _ _ _ _ _ _ _ true (VTuple [k; a]) Hjd2) as H2.
    cbv zeta in H2. rewrite step_match_left in H2 by auto. cbn [fst snd] in H2.
    destruct H2 as (st3 & Hp2 & Ht3 & _).
    exists st2, st3. split_and!; auto. rewrite Ht3, Ht2. reflexivity.
Qed.

Lemma C1_join_emits_one_pair_witness :
  exists t st1 stt j,
    join 0 1 128 "target"
      (mkStore [mkStream None [] "left"; mkStream None [] "right"] [] [] [] [] [])
      = (Ok t, st1) /\
    streams st1 !! t = Some stt /\
    filter_objs st1 !! j
      = Some (mkFilter None
                (Joiner (lrucache.mk (Z.to_nat 128) [])
                        (lrucache.mk (Z.to_nat 128) []) 0 1 t 128)) /\
    (VInt 1 <> VNone ->
     exists st2 st3,
       Stream_process 0 (VTuple [VInt 7; VInt 1]) st1 = (Ok tt, st2) /\
       trace st2 = trace st1 /\
       Stream_process 1 (VTuple [VInt 7; VInt 2]) st2 = (Ok tt, st3) /\
       trace st3 = trace st1 ++
                   [(j, mkElement (s_id stt) (VTuple [VInt 7; VTuple [VInt 1; VInt 2]]))]) /\
    (VInt 2 <> VNone ->
     exists st2 st3,
       Stream_process 1 (VTuple [VInt 7; VInt 2]) st1 = (Ok tt, st2) /\
       trace st2 = trace st1 /\
       Stream_process 0 (VTuple [VInt 7; VInt 1]) st2 = (Ok tt, st3) /\
       trace st3 = trace st1 ++
                   [(j, mkElement (s_id stt) (VTuple [VInt 7; VTuple [VInt 1; VInt 2]]))]).
Proof.
  apply (C1_join_emits_one_pair
           (mkStore [mkStream None [] "left"; mkStream None [] "right"] [] [] [] [] [])
           0 1 "left" "right" 128 "target" (VInt 7) (VInt 1) (VInt 2)).
  - reflexivity.
  - reflexivity.
  - discriminate.
  - lia.
Defined.

(** ** The single link behind a joiner *)

(** [s.map(f)] on a stream whose tail is the joiner: whatever the joiner was
    linked to, it is linked to the new mapper alone afterwards. *)
Lemma map_behind_joiner st l r t j lid rid tid cl cr nx ld s so h f :
  joined st l r t j lid rid tid cl cr nx ld ->
  streams st !! s = Some so ->
  s_head so = Some h ->
  last (s_filters so) = Some j ->
  exists st',
    Stream_map s (lift1 f) st = (Ok s, st') /\
    joined st' l r t j lid rid tid cl cr (Some (length (generators st)))
      [(length (generators st), length (filter_objs st), PMap f)] /\
    trace st' = trace st /\
    world st' = world st /\
    (forall s', s' <> s -> streams st' !! s' = streams st !! s').
Proof.
  intros (gl & gr & fl & fr & stt & m & Hl & Hr & Ht & Htid & Hgl & Hgr & Hj & Hlk & Hsus
          & Hng & Hna & Hgln & Hgrn & Hjn & Hlen) Hs Hh Hlast.
  pose proof (lookup_lt_Some _ _ _ Hs) as Hslt.
  pose proof (lookup_lt_Some _ _ _ Hj) as Hjlt.
  pose proof (lookup_lt_Some _ _ _ Hgl) as Hgllt.
  pose proof (lookup_lt_Some _ _ _ Hgr) as Hgrlt.
  unfold Stream_map. unfold bind at 1. unfold alloc_filter. unfold bind at 1.
  erewrite (Stream_append_tail _ s so h j); cycle 1.
  { exact Hs. } { exact Hh. } { exact Hlast. }
  { cbn [filter_objs set_filter_objs]. apply lookup_app_l_Some. exact Hj. }
  unfold ret, set_filter_objs.
  cbn [streams filter_objs generators world trace warnings kind].
  eexists. split; [reflexivity|].
  cbn [streams filter_objs generators world trace warnings].
  split_and!; auto.
  2:{ intros s' Hne. apply list_lookup_insert_ne. auto. }
  set (new := mkStream (Some h) (s_filters so ++ [length (filter_objs st)]) (s_id so)).
  assert (Hl' : exists fl', <[s := new]> (streams st) !! l = Some (mkStream (Some gl) fl' lid)).
  { destruct (decide (s = l)) as [->|Hn].
    - rewrite list_lookup_insert_eq by exact Hslt. rewrite Hl in Hs.
      injection Hs as <-. cbn in Hh. injection Hh as <-. subst new. cbn. eauto.
    - rewrite list_lookup_insert_ne by auto. eauto. }
  assert (Hr' : exists fr', <[s := new]> (streams st) !! r = Some (mkStream (Some gr) fr' rid)).
  { destruct (decide (s = r)) as [->|Hn].
    - rewrite list_lookup_insert_eq by exact Hslt. rewrite Hr in Hs.
      injection Hs as <-. cbn in Hh. injection Hh as <-. subst new. cbn. eauto.
    - rewrite list_lookup_insert_ne by auto. eauto. }
  assert (Ht' : exists stt', <[s := new]> (streams st) !! t = Some stt' /\ s_id stt' = tid).
  { destruct (decide (s = t)) as [->|Hn].
    - rewrite list_lookup_insert_eq by exact Hslt. rewrite Ht in Hs.
      injection Hs as <-. subst new. cbn. eauto.
    - rewrite list_lookup_insert_ne by auto. eauto. }
  destruct Hl' as [fl' Hl']. destruct Hr' as [fr' Hr']. destruct Ht' as (stt' & Ht' & Htid').
  exists gl, gr, fl', fr', stt', m.
  cbn [streams filter_objs generators world trace warnings].
  split_and!; auto.
  - apply lookup_app_l_Some. exact Hgl.
  - apply lookup_app_l_Some. exact Hgr.
  - apply list_lookup_insert_eq. rewrite length_app. lia.
  - split; [reflexivity|]. exists None. split; [|reflexivity].
    rewrite list_lookup_insert_ne by lia. apply list_lookup_middle. reflexivity.
  - constructor; [|constructor]. cbn. apply list_lookup_middle. reflexivity.
  - cbn. apply NoDup_singleton.
  - cbn. apply NoDup_singleton.
  - cbn. rewrite list_elem_of_singleton. lia.
  - cbn. rewrite list_elem_of_singleton. lia.
  - cbn. rewrite list_elem_of_singleton. lia.
  - rewrite length_app. simpl. lia.
Qed.

(** C9.  [join] makes one joiner object the tail of [left], [right] and the
    new target stream.  An append to any stream whose tail is that joiner
    overwrites the joiner's only [next] link with the generator of the appended
    filter, whatever the link was.  So after [target.map(f1)] and then
    [left.map(f2)] (or [right.map(f2)]), the joined element of a matching pair,
    whichever side arrives second, goes to the mapper of [f2] and never to the
    mapper of [f1] on the target's own chain. *)
Theorem C9_joiner_has_one_next_link st l r lid rid max_size uuid :
  streams st !! l = Some (mkStream None [] lid) ->
  streams st !! r = Some (mkStream None [] rid) ->
  lid <> rid ->
  (0 < max_size)%Z ->
  exists t j st1,
    join l r max_size uuid st = (Ok t, st1) /\
    (forall s, s ∈ [l; r; t] ->
       exists so h, streams st1 !! s = Some so /\ s_head so = Some h /\
                    last (s_filters so) = Some j) /\
    (forall st2 s so h fo fltr,
       streams st2 !! s = Some so ->
       s_head so = Some h ->
       last (s_filters so) = Some j ->
       filter_objs st2 !! j = Some fo ->
       exists st3,
         Stream_append s fltr st2 = (Ok tt, st3) /\
         filter_objs st3 !! j
           = Some (mkFilter (Some (length (generators st2))) (kind fo)) /\
         generators st3 !! length (generators st2) = Some (mkGen fltr GSuspended)) /\
    (forall s f1 f2 k a b,
       s ∈ [l; r] -> a <> VNone -> b <> VNone ->
       exists st2 st3 m1 m2,
         Stream_map t (pure1 f1) st1 = (Ok t, st2) /\
         Stream_map s (pure1 f2) st2 = (Ok s, st3) /\
         filter_objs st3 !! m1 = Some (mkFilter None (Mapper (pure1 f1))) /\
         filter_objs st3 !! m2 = Some (mkFilter None (Mapper (pure1 f2))) /\
         m1 <> m2 /\
         (exists st4 st5,
            Stream_process l (VTuple [k; a]) st3 = (Ok tt, st4) /\
            Stream_process r (VTuple [k; b]) st4 = (Ok tt, st5) /\
            trace st5 = trace st1 ++
              [(j, mkElement uuid (VTuple [k; VTuple [a; b]]));
               (m2, mkElement uuid (f2 (VTuple [k; VTuple [a; b]])))]) /\
         (exists st4 st5,
            Stream_process r (VTuple [k; b]) st3 = (Ok tt, st4) /\
            Stream_process l (VTuple [k; a]) st4 = (Ok tt, st5) /\
            trace st5 = trace st1 ++
              [(j, mkElement uuid (VTuple [k; VTuple [a; b]]));
               (m2, mkElement uuid (f2 (VTuple [k; VTuple [a; b]])))])).
Proof.
  intros Hl Hr Hid Hm.
  assert (Hne : l <> r) by (intros ->; rewrite Hl in Hr; congruence).
  pose proof (lookup_lt_Some _ _ _ Hl) as Hllt.
  pose proof (lookup_lt_Some _ _ _ Hr) as Hrlt.
  destruct (join_joined st l r lid rid max_size uuid Hl Hr Hne Hm)
    as (st1 & Hjoin & Hjd & _ & _ & Htails & _).
  set (t := length (streams st)) in *. set (j := length (filter_objs st)) in *.
  set (n := Z.to_nat max_size) in *.
  exists t, j, st1. split; [exact Hjoin|]. split; [exact Htails|]. split.
  { intros st2 s so h fo fltr Hs Hh Hlast Hfo.
    pose proof (lookup_lt_Some _ _ _ Hfo) as Hjlt.
    eexists. split; [exact (Stream_append_tail st2 s so h j fo fltr Hs Hh Hlast Hfo)|].
    cbn [filter_objs generators]. split.
    - apply list_lookup_insert_eq. exact Hjlt.
    - apply list_lookup_middle. reflexivity. }
  intros s f1 f2 k a b Hs Ha Hb.
  assert (Hst : s <> t).
  { rewrite !elem_of_cons in Hs. destruct Hs as [->|[->|Hs]]; try (subst t; lia).
    apply elem_of_nil in Hs. contradiction. }
  destruct (Htails t) as (sot & ht & Hsot & Hht & Hlt).
  { rewrite !elem_of_cons. auto. }
  destruct (map_behind_joiner st1 l r t j lid rid uuid _ _ _ _ t sot ht
              (fun x => Ok (f1 x)) Hjd Hsot Hht Hlt)
    as (st2 & Hmap1 & Hjd2 & Ht2 & _ & Hother).
  destruct (Htails s) as (sos & hs & Hsos & Hhs & Hls).
  { rewrite !elem_of_cons in *. tauto. }
  rewrite <- (Hother s Hst) in Hsos.
  assert (Hm1 : filter_objs st2 !! length (filter_objs st1)
                = Some (mkFilter None (Mapper (pure1 f1)))).
  { destruct Hjd2 as (? & ? & ? & ? & ? & ? & _ & _ & _ & _ & _ & _ & _ & Hlk & _).
    destruct Hlk as (_ & nx & Hf & Hnx). simpl in Hnx. subst nx. exact Hf. }
  destruct (map_behind_joiner st2 l r t j lid rid uuid _ _ _ _ s sos hs
              (fun x => Ok (f2 x)) Hjd2 Hsos Hhs Hls)
    as (st3 & Hmap2 & Hjd3 & Ht3 & _ & _).
  assert (Hm2 : filter_objs st3 !! length (filter_objs st2)
                = Some (mkFilter None (Mapper (pure1 f2)))).
  { destruct Hjd3 as (? & ? & ? & ? & ? & ? & _ & _ & _ & _ & _ & _ & _ & Hlk & _).
    destruct Hlk as (_ & nx & Hf & Hnx). simpl in Hnx. subst nx. exact Hf. }
  assert (Hm1' : filter_objs st3 !! length (filter_objs st1)
                 = Some (mkFilter None (Mapper (pure1 f1))) /\
                 length (filter_objs st1) <> length (filter_objs st2)).
  { pose proof (lookup_lt_Some _ _ _ Hm1) as Hlt1.
    split; [|lia].
    unfold Stream_map in Hmap2. unfold bind at 1 in Hmap2. unfold alloc_filter in Hmap2.
    unfold bind at 1 in Hmap2.
    destruct Hjd2 as (? & ? & ? & ? & ? & ? & _ & _ & _ & _ & _ & _ & Hj2 & _).
    pose proof (lookup_lt_Some _ _ _ Hj2) as Hjlt2.
    erewrite (Stream_append_tail _ s sos hs j) in Hmap2; cycle 1.
    { exact Hsos. } { exact Hhs. } { exact Hls. }
    { cbn [filter_objs set_filter_objs]. apply lookup_app_l_Some. exact Hj2. }
    unfold ret in Hmap2. injection Hmap2 as <-. cbn [filter_objs].
    destruct Hjd as (? & ? & ? & ? & ? & ? & _ & _ & _ & _ & _ & _ & Hj1 & _).
    pose proof (lookup_lt_Some _ _ _ Hj1) as Hjlt1.
    rewrite list_lookup_insert_ne by lia.
    apply lookup_app_l_Some. exact Hm1. }
  destruct Hm1' as [Hm1' Hm12].
  exists st2, st3, (length (filter_objs st1)), (length (filter_objs st2)).
  split; [exact Hmap1|]. split; [exact Hmap2|]. split; [exact Hm1'|].
  split; [exact Hm2|]. split; [exact Hm12|]. split.
  - pose proof (joined_arrival _ _ _ _ _ _ _ _ _ _ _ _ true (VTuple [k; a]) Hjd3) as H1.
    cbv zeta in H1. rewrite step_first_left in H1. cbn [fst snd] in H1.
    destruct H1 as (st4 & Hp1 & Ht4 & _ & Hjd4).
    pose proof (joined_arrival _ _ _ _ _ _ _ _ _ _ _ _ false (VTuple [k; b]) Hjd4) as H2.
    cbv zeta in H2. rewrite step_match_right in H2 by auto. cbn [fst snd] in H2.
    destruct H2 as (st5 & Hp2 & Ht5 & _).
    exists st4, st5. split; [exact Hp1|]. split; [exact Hp2|].
    rewrite Ht5, Ht4, Ht3, Ht2. reflexivity.
  - pose proof (joined_arrival _ _ _ _ _ _ _ _ _ _ _ _ false (VTuple [k; b]) Hjd3) as H1.
    cbv zeta in H1. rewrite step_first_right in H1 by auto. cbn [fst snd] in H1.
    destruct H1 as (st4 & Hp1 & Ht4 & _ & Hjd4).
    pose proof (joined_arrival _ _ _ _ _ _ _ _ _ _ _ _ true (VTuple [k; a]) Hjd4) as H2.
    cbv zeta in H2. rewrite step_match_left in H2 by auto. cbn [fst snd] in H2.
    destruct H2 as (st5 & Hp2 & Ht5 & _).
    exists st4, st5. split; [exact Hp1|]. split; [exact Hp2|].
    rewrite Ht5, Ht4, Ht3, Ht2. reflexivity.
Qed.

Lemma C9_joiner_has_one_next_link_witness :
  exists t j st1,
    join 0 1 128 "target"
      (mkStore [mkStream None [] "left"; mkStream None [] "right"] [] [] [] [] [])
      = (Ok t, st1) /\
    (forall s, s ∈ [0; 1; t] ->
       exists so h, streams st1 !! s = Some so /\ s_head so = Some h /\
                    last (s_filters so) = Some j) /\
    (forall st2 s so h fo fltr,
       streams st2 !! s = Some so ->
       s_head so = Some h ->
       last (s_filters so) = Some j ->
       filter_objs st2 !! j = Some fo ->
       exists st3,
         Stream_append s fltr st2 = (Ok tt, st3) /\
         filter_objs st3 !! j
           = Some (mkFilter (Some (length (generators st2))) (kind fo)) /\
         generators st3 !! length (generators st2) = Some (mkGen fltr GSuspended)) /\
    (forall s f1 f2 k a b,
       s ∈ [0; 1] -> a <> VNone -> b <> VNone ->
       exists st2 st3 m1 m2,
         Stream_map t (pure1 f1) st1 = (Ok t, st2) /\
         Stream_map s (pure1 f2) st2 = (Ok s, st3) /\
         filter_objs st3 !! m1 = Some (mkFilter None (Mapper (pure1 f1))) /\
         filter_objs st3 !! m2 = Some (mkFilter None (Mapper (pure1 f2))) /\
         m1 <> m2 /\
         (exists st4 st5,
            Stream_process 0 (VTuple [k; a]) st3 = (Ok tt, st4) /\
            Stream_process 1 (VTuple [k; b]) st4 = (Ok tt, st5) /\
            trace st5 = trace st1 ++
              [(j, mkElement "target" (VTuple [k; VTuple [a; b]]));
               (m2, mkElement "target" (f2 (VTuple [k; VTuple [a; b]])))]) /\
         (exists st4 st5,
            Stream_process 1 (VTuple [k; b]) st3 = (Ok tt, st4) /\
            Stream_process 0 (VTuple [k; a]) st4 = (Ok tt, st5) /\
            trace st5 = trace st1 ++
              [(j, mkElement "target" (VTuple [k; VTuple [a; b]]));
               (m2, mkElement "target" (f2 (VTuple [k; VTuple [a; b]])))])).
Proof.
  apply (C9_joiner_has_one_next_link
           (mkStore [mkStream None [] "left"; mkStream None [] "right"] [] [] [] [] [])
           0 1 "left" "right" 128 "target").
  - reflexivity.
  - reflexivity.
  - discriminate.
  - lia.
Defined.

(** ** The depth of nested sends *)

Lemma suspended_count_running gs it a :
  gs !! it = Some (mkGen a GSuspended) ->
  S (suspended_count (<[it := mkGen a GRunning]> gs)) = suspended_count gs.
Proof.
  unfold suspended_count. revert it.
  induction gs as [|go gs IH]; intros [|it] H; try discriminate.
  - injection H as ->. reflexivity.
  - cbn in H. cbn [list_insert insert List.filter].
    change (<[it := mkGen a GRunning]> gs) with (list_insert it (mkGen a GRunning) gs) in IH.
    destruct (is_suspended go); cbn [length]; rewrite <- (IH it H); reflexivity.
Qed.

Lemma process_generators a e st : generators (process a e st).2 = generators st.
Proof.
  unfold process, bind, get_filter.
  destruct (filter_objs st !! a) as [fo|]; [|reflexivity].
  destruct (kind fo) as [f|f acc i|cl cr l r t m].
  - unfold Mapper_process. destruct (f (data e) (world st)) as [[y|x] w]; reflexivity.
  - unfold Reducer_process. destruct (f (data e) acc (world st)) as [[y|x] w]; reflexivity.
  - unfold Joiner_process, bind, get_stream.
    destruct (streams st !! l); [|reflexivity].
    destruct (streams st !! t); [|reflexivity].
    destruct (Joiner_step _ _ cl cr e) as [[o|x] [cl' cr']]; reflexivity.
Qed.

(** The depth bound of [send] is immaterial once it exceeds the number of
    suspended generators: every nested send marks one of them as executing
    first. *)
Lemma send_depth d : forall d' it e st,
  suspended_count (generators st) < d ->
  suspended_count (generators st) < d' ->
  send d it e st = send d' it e st.
Proof.
  induction d as [|d IH]; intros [|d'] it e st Hd Hd'; try lia.
  cbn [send].
  destruct (generators st !! it) as [[a s]|] eqn:Hit; [|reflexivity].
  cbn [gen_state_of gen_self]. destruct s; try reflexivity.
  pose proof (process_generators a e (set_gen_state it GRunning st)) as Hg.
  destruct (process a e (set_gen_state it GRunning st)) as [[[out|]|x] st1];
    try reflexivity.
  cbn [snd] in Hg. cbv zeta.
  destruct (filter_objs (set_trace (trace st1 ++ [(a, out)]) st1) !! a) as [fo|];
    [|reflexivity].
  destruct (next fo) as [nxt|]; [|reflexivity].
  rewrite (IH d' nxt out (set_trace (trace st1 ++ [(a, out)]) st1)); [reflexivity| |];
    cbn [generators set_trace]; rewrite Hg, (set_gen_state_eq _ _ _ _ Hit);
    cbn [generators set_generators gen_self];
    pose proof (suspended_count_running _ _ _ Hit); lia.
Qed.

Lemma suspended_count_le gs : suspended_count gs <= length gs.
Proof.
  unfold suspended_count. induction gs as [|go gs IH]; [reflexivity|].
  cbn [List.filter]. destruct (is_suspended go); cbn [length]; lia.
Qed.

(** So the depth that [Stream.process] starts with is never exhausted: any
    larger one gives the same result. *)
Lemma send_top_depth d it e st :
  length (generators st) < d -> send_top it e st = send d it e st.
Proof.
  intros Hd. unfold send_top. pose proof (suspended_count_le (generators st)).
  apply send_depth; lia.
Qed.

(** ** The assertions of test/test_stream.py *)

Example test_map_cached :
  exists st, test_map empty_store = (Ok tt, st) /\ world st = [VInt 8].
Proof. eexists. vm_compute. split; reflexivity. Qed.

Example test_reduce_cached :
  exists st,
    test_reduce empty_store = (Ok tt, st) /\ world st = [VInt 5; VInt 9; VInt 13].
Proof. eexists. vm_compute. split; reflexivity. Qed.

Example test_join_cached :
  exists st,
    test_join empty_store = (Ok tt, st) /\
    world st = [VTuple [VInt 1; VTuple [VInt 1; VInt 2]];
                VTuple [VInt 2; VTuple [VInt 3; VInt 5]]].
Proof. eexists. vm_compute. split; reflexivity. Qed.

(** * Further properties of the code *)

(** ** Sources with a stream attached *)

Lemma IterableSource_start_attached src s itr st :
  IterableSource_start (attach src s) itr st = process_all s itr st.
Proof.
  revert st. induction itr as [|e itr IH]; intros st; [reflexivity|].
  cbn [IterableSource_start process_all attach _stream]. unfold bind.
  destruct (Stream_process s e st) as [[[]|x] st1]; [apply IH|reflexivity].
Qed.

Lemma KafkaSource_start_attached src s records st :
  KafkaSource_start (attach src s) records st = process_all s records st.
Proof.
  revert st. induction records as [|e records IH]; intros st; [reflexivity|].
  cbn [KafkaSource_start process_all attach _stream Source__process]. unfold bind.
  destruct (Stream_process s e st) as [[[]|x] st1]; [apply IH|reflexivity].
Qed.

Lemma process_all_app s pre post st :
  process_all s (pre ++ post) st =
    match process_all s pre st with
    | (Ok _, st1) => process_all s post st1
    | (Raise e, st1) => (Raise e, st1)
    end.
Proof.
  revert st. induction pre as [|d pre IH]; intros st; [reflexivity|].
  cbn [app process_all]. unfold bind.
  destruct (Stream_process s d st) as [[[]|x] st1]; [apply IH|reflexivity].
Qed.

(** X3.  With a stream attached, the two sources deliver the same: what
    [KafkaSource.start] does with the record values is what
    [IterableSource.start] does with the same values as its iterable. *)
Theorem sources_agree_once_attached src src' s vs st :
  KafkaSource_start (attach src s) vs st = IterableSource_start (attach src' s) vs st.
Proof. rewrite KafkaSource_start_attached, IterableSource_start_attached. reflexivity. Qed.

(** X4.  Neither source catches what the stream raises: the loop of [start]
    ends at the first element whose [process] raises, with that exception, and
    the elements behind it are never delivered. *)
Theorem source_stops_at_first_fault src s pre x post e st st1 st2 :
  process_all s pre st = (Ok tt, st1) ->
  Stream_process s x st1 = (Raise e, st2) ->
  IterableSource_start (attach src s) (pre ++ x :: post) st = (Raise e, st2) /\
  KafkaSource_start (attach src s) (pre ++ x :: post) st = (Raise e, st2).
Proof.
  intros Hpre Hx.
  rewrite IterableSource_start_attached, KafkaSource_start_attached, process_all_app, Hpre.
  cbn [process_all]. unfold bind. rewrite Hx. auto.
Qed.

Lemma source_stops_at_first_fault_witness :
  let f := Mapper (lift1 (fun v =>
             match v with VInt 0 => Raise (UserError "boom") | _ => Ok v end)) in
  let st := mkStore [mkStream (Some 0) [0] "s"] [mkFilter None f]
              [mkGen 0 GSuspended] [] [] [] in
  let st2 := mkStore [mkStream (Some 0) [0] "s"] [mkFilter None f]
               [mkGen 0 GFinished] [] [(0, mkElement "s" (VInt 1))] [] in
  IterableSource_start (attach Source_new 0) ([VInt 1] ++ VInt 0 :: [VInt 2]) st
    = (Raise (UserError "boom"), st2) /\
  KafkaSource_start (attach Source_new 0) ([VInt 1] ++ VInt 0 :: [VInt 2]) st
    = (Raise (UserError "boom"), st2).
Proof.
  cbv zeta.
  apply (source_stops_at_first_fault Source_new 0 [VInt 1] (VInt 0) [VInt 2]
           (UserError "boom") _
           (mkStore [mkStream (Some 0) [0] "s"]
              [mkFilter None (Mapper (lift1 (fun v =>
                 match v with VInt 0 => Raise (UserError "boom") | _ => Ok v end)))]
              [mkGen 0 GSuspended] [] [(0, mkElement "s" (VInt 1))] [])).
  - reflexivity.
  - reflexivity.
Defined.

(** ** The payloads a joiner accepts *)

(** X5.  [Joiner.process] subscripts the payload twice (lines 181-182) and
    reads nothing else of it: a payload that is no tuple raises [TypeError], a
    tuple of fewer than two components raises [IndexError], both before
    either cache is touched; a longer tuple is treated as the pair of its
    first two components and raises nothing. *)
Theorem Joiner_payload_shape lid tid cl cr sid d :
  match d with
  | VTuple (k :: v :: rest) =>
      Joiner_step lid tid cl cr (mkElement sid d)
        = Joiner_step lid tid cl cr (mkElement sid (VTuple [k; v])) /\
      exists o c, Joiner_step lid tid cl cr (mkElement sid d) = (Ok o, c)
  | VTuple _ =>
      Joiner_step lid tid cl cr (mkElement sid d) = (Raise IndexError, (cl, cr))
  | _ =>
      Joiner_step lid tid cl cr (mkElement sid d) = (Raise TypeError, (cl, cr))
  end.
Proof.
  destruct d as [|n|[|k [|v rest]]]; try reflexivity.
  split; [reflexivity|].
  unfold Joiner_step. cbn [data stream_id subscript lookup list_lookup].
  destruct (String.eqb sid lid).
  - destruct (lrucache.get k cr) as [c cr']. destruct (is_not_None c); eauto.
  - destruct (lrucache.get k cl) as [c cl']. destruct (is_not_None c); eauto.
Qed.

(** ** Several arrivals under one key *)

Lemma Joiner_steps_app lid tid cl cr es1 es2 :
  Joiner_steps lid tid cl cr (es1 ++ es2) =
    let r1 := Joiner_steps lid tid cl cr es1 in
    let r2 := Joiner_steps lid tid r1.2.1 r1.2.2 es2 in
    (r1.1 ++ r2.1, r2.2).
Proof.
  revert cl cr. induction es1 as [|e es1 IH]; intros cl cr; cbv zeta.
  - cbn. destruct (Joiner_steps lid tid cl cr es2) as [rs [c1 c2]]. reflexivity.
  - cbn [app Joiner_steps].
    destruct (Joiner_step lid tid cl cr e) as [r [cl1 cr1]].
    rewrite IH. cbv zeta.
    destruct (Joiner_steps lid tid cl1 cr1 es1) as [rs1 [cl2 cr2]]. cbn [fst snd].
    destruct (Joiner_steps lid tid cl2 cr2 es2) as [rs2 [cl3 cr3]]. reflexivity.
Qed.

Lemma sets_last_lookup k vs v c :
  lrucache.lookup k (lrucache.table (sets (pair k <$> (vs ++ [v])) c)) = Some v.
Proof.
  rewrite fmap_app. change (pair k <$> [v]) with [(k, v)].
  rewrite sets_snoc. apply lookup_set.
Qed.

(** X6.  A cache keeps one value per key, the latest: after any number of
    unmatched arrivals on one side under the key [k], the last of them
    carrying [a], an arrival [(k, b)] on the other side is joined with [a]
    alone, and the earlier values are never emitted. *)
Theorem latest_value_under_a_key_joins lid tid cl cr sid sid' k vs a b :
  String.eqb sid' lid = negb (String.eqb sid lid) ->
  lrucache.lookup k (lrucache.table (opposite_cache lid sid cl cr)) = None ->
  a <> VNone ->
  (Joiner_steps lid tid cl cr
     (((fun v => mkElement sid (VTuple [k; v])) <$> (vs ++ [a]))
        ++ [mkElement sid' (VTuple [k; b])])).1
    = replicate (S (length vs)) (Ok None) ++
      [Ok (Some (mkElement tid
                   (VTuple [k; if String.eqb sid lid
                               then VTuple [a; b] else VTuple [b; a]])))].
Proof.
  intros Hside Hmiss Ha.
  rewrite Joiner_steps_app. cbv zeta.
  destruct (Joiner_steps_unmatched lid tid sid (pair k <$> (vs ++ [a])) cl cr)
    as (cl1 & cr1 & Hrun & Hown & Hopp).
  { apply Forall_forall. intros kv Hin. apply list_elem_of_fmap in Hin as (v & -> & _).
    exact Hmiss. }
  rewrite <- list_fmap_compose in Hrun.
  replace ((fun kv => mkElement sid (pair_data kv)) ∘ pair k)
    with (fun v => mkElement sid (VTuple [k; v])) in Hrun by reflexivity.
  rewrite Hrun. cbn [fst snd].
  rewrite length_fmap, length_app. cbn [length]. rewrite Nat.add_1_r. f_equal.
  pose proof (sets_last_lookup k vs a (own_cache lid sid cl cr)) as Hlk.
  rewrite <- Hown in Hlk.
  cbn [Joiner_steps]. rewrite Joiner_step_pair, Hside.
  unfold own_cache in Hlk.
  destruct (String.eqb sid lid); cbn [negb]; rewrite (get_hit _ _ _ Hlk); cbn [fst snd];
    rewrite (is_not_None_true _ Ha); reflexivity.
Qed.

Lemma latest_value_under_a_key_joins_witness :
  (Joiner_steps "left" "target" (lrucache.mk 2 []) (lrucache.mk 2 [])
     (((fun v => mkElement "left" (VTuple [VInt 7; v])) <$> ([VInt 1; VNone] ++ [VInt 3]))
        ++ [mkElement "right" (VTuple [VInt 7; VInt 4])])).1
    = replicate (S (length [VInt 1; VNone])) (Ok None) ++
      [Ok (Some (mkElement "target"
                   (VTuple [VInt 7; if String.eqb "left" "left"
                                    then VTuple [VInt 3; VInt 4]
                                    else VTuple [VInt 4; VInt 3]])))].
Proof.
  apply (latest_value_under_a_key_joins "left" "target" (lrucache.mk 2 []) (lrucache.mk 2 [])
           "left" "right" (VInt 7) [VInt 1; VNone] (VInt 3) (VInt 4)).
  - reflexivity.
  - reflexivity.
  - discriminate.
Defined.

(** ** What a joiner can emit *)

Lemma lookup_elem_of k l v : lrucache.lookup k l = Some v -> (k, v) ∈ l.
Proof.
  induction l as [|[k' v'] l IH]; cbn; [discriminate|].
  destruct (value_eqb k k') eqn:E.
  - intros [= ->]. apply value_eqb_eq in E as ->. apply elem_of_cons; auto.
  - intros H. apply elem_of_cons; auto.
Qed.

Lemma remove_subseteq k l : lrucache.remove k l ⊆ l.
Proof.
  induction l as [|[k' v'] l IH]; cbn; [intros x Hx; exact Hx|].
  destruct (value_eqb k k'); [intros x Hx; apply elem_of_cons; auto|].
  intros x Hx. apply elem_of_cons in Hx as [->|Hx]; apply elem_of_cons; auto.
Qed.

Lemma get_subseteq k c : lrucache.table (lrucache.get k c).2 ⊆ lrucache.table c.
Proof.
  unfold lrucache.get. destruct (lrucache.lookup k (lrucache.table c)) as [v|] eqn:E;
    [|intros x Hx; exact Hx].
  cbn. intros x Hx. apply elem_of_cons in Hx as [->|Hx].
  - apply lookup_elem_of, E.
  - eapply remove_subseteq, Hx.
Qed.

Lemma get_value_elem_of k c :
  is_not_None (lrucache.get k c).1 = true -> (k, (lrucache.get k c).1) ∈ lrucache.table c.
Proof.
  unfold lrucache.get. destruct (lrucache.lookup k (lrucache.table c)) as [v|] eqn:E.
  - intros _. apply lookup_elem_of, E.
  - discriminate.
Qed.

Lemma set_subseteq k v c : lrucache.table (lrucache.set k v c) ⊆ (k, v) :: lrucache.table c.
Proof.
  unfold lrucache.set. destruct (lrucache.lookup k (lrucache.table c)).
  - cbn [lrucache.table].
    intros x Hx. apply elem_of_cons in Hx as [->|Hx]; apply elem_of_cons; auto.
    right. eapply remove_subseteq, Hx.
  - destruct (length (lrucache.table c) <? lrucache.size c); cbn [lrucache.table];
      [intros x Hx; exact Hx|].
    intros x Hx. apply elem_of_cons in Hx as [->|Hx]; apply elem_of_cons; auto.
    right. rewrite removelast_firstn_len in Hx. eapply subseteq_take, Hx.
Qed.

Lemma cached_from_mono lid seen seen' cl cr :
  seen ⊆ seen' -> cached_from lid seen cl cr -> cached_from lid seen' cl cr.
Proof.
  intros Hsub [Hl Hr]. split; intros k v Hin.
  - destruct (Hl k v Hin) as (e & He & H). exists e. split; [apply Hsub, He|exact H].
  - destruct (Hr k v Hin) as (e & He & H). exists e. split; [apply Hsub, He|exact H].
Qed.

Lemma Joiner_step_sound lid tid cl cr seen e :
  cached_from lid seen cl cr ->
  cached_from lid (seen ++ [e]) (Joiner_step lid tid cl cr e).2.1
                                (Joiner_step lid tid cl cr e).2.2 /\
  forall out, (Joiner_step lid tid cl cr e).1 = Ok (Some out) ->
              joins lid tid (seen ++ [e]) out.
Proof.
  intros Hinv.
  assert (Hsub : seen ⊆ seen ++ [e]) by (intros x Hx; apply elem_of_app; auto).
  assert (He : e ∈ seen ++ [e]) by (apply elem_of_app; right; apply elem_of_cons; auto).
  pose proof (cached_from_mono _ _ _ _ _ Hsub Hinv) as [Hl Hr].
  unfold Joiner_step.
  destruct (subscript (data e) 0) as [k|x] eqn:Hk; [|split; [split; assumption|discriminate]].
  destruct (subscript (data e) 1) as [v|x] eqn:Hv; [|split; [split; assumption|discriminate]].
  assert (Hc : carries e k v) by (split; assumption).
  destruct (String.eqb (stream_id e) lid) eqn:Hside.
  - apply String.eqb_eq in Hside.
    pose proof (get_subseteq k cr) as Hg. pose proof (get_value_elem_of k cr) as Hval.
    destruct (lrucache.get k cr) as [c cr']. cbn [fst snd] in Hg, Hval.
    destruct (is_not_None c) eqn:Hn; cbn [fst snd].
    + split; [split; [exact Hl|]|].
      * intros k' v' Hin. apply Hr, Hg, Hin.
      * intros out [= <-]. destruct (Hr k c (Hval eq_refl)) as (er & Her & Hrid & Hcr).
        exists k, v, c, e, er. split_and!; auto.
    + split; [split|discriminate].
      * intros k' v' Hin. apply set_subseteq in Hin. apply elem_of_cons in Hin as [[= -> ->]|Hin].
        -- exists e. auto.
        -- apply Hl, Hin.
      * intros k' v' Hin. apply Hr, Hg, Hin.
  - apply String.eqb_neq in Hside.
    pose proof (get_subseteq k cl) as Hg. pose proof (get_value_elem_of k cl) as Hval.
    destruct (lrucache.get k cl) as [c cl']. cbn [fst snd] in Hg, Hval.
    destruct (is_not_None c) eqn:Hn; cbn [fst snd].
    + split; [split; [|exact Hr]|].
      * intros k' v' Hin. apply Hl, Hg, Hin.
      * intros out [= <-]. destruct (Hl k c (Hval eq_refl)) as (el & Hel & Hlid & Hcl).
        exists k, c, v, el, e. split_and!; auto.
    + split; [split|discriminate].
      * intros k' v' Hin. apply Hl, Hg, Hin.
      * intros k' v' Hin. apply set_subseteq in Hin. apply elem_of_cons in Hin as [[= -> ->]|Hin].
        -- exists e. auto.
        -- apply Hr, Hin.
Qed.

Lemma joins_mono lid tid seen seen' out :
  seen ⊆ seen' -> joins lid tid seen out -> joins lid tid seen' out.
Proof.
  intros Hsub (k & a & b & el & er & H1 & H2 & H3 & H4 & H5 & H6 & H7).
  exists k, a, b, el, er. split_and!; try assumption; apply Hsub; assumption.
Qed.

Lemma Joiner_steps_sound lid tid es : forall seen cl cr,
  cached_from lid seen cl cr ->
  forall out, Ok (Some out) ∈ (Joiner_steps lid tid cl cr es).1 ->
              joins lid tid (seen ++ es) out.
Proof.
  induction es as [|e es IH]; intros seen cl cr Hinv out; cbn [Joiner_steps].
  - cbn. intros H. apply elem_of_nil in H. contradiction.
  - destruct (Joiner_step_sound lid tid cl cr seen e Hinv) as [Hinv' Hout].
    destruct (Joiner_step lid tid cl cr e) as [r [cl1 cr1]]. cbn [fst snd] in Hinv', Hout.
    specialize (IH (seen ++ [e]) cl1 cr1 Hinv' out).
    destruct (Joiner_steps lid tid cl1 cr1 es) as [rs caches]. cbn [fst] in *.
    rewrite <- app_assoc in IH. cbn [app] in IH.
    intros H. apply elem_of_cons in H as [<-|H]; [|exact (IH H)].
    eapply joins_mono; [|exact (Hout out eq_refl)].
    intros x Hx. apply elem_of_app in Hx as [Hx|Hx]; apply elem_of_app; auto.
    right. apply list_elem_of_singleton in Hx as ->. apply elem_of_cons; auto.
Qed.

Lemma Joiner_steps_take lid tid n : forall es cl cr,
  (Joiner_steps lid tid cl cr (take n es)).1 = take n (Joiner_steps lid tid cl cr es).1.
Proof.
  induction n as [|n IH]; intros [|e es] cl cr; try reflexivity.
  cbn [take Joiner_steps]. destruct (Joiner_step lid tid cl cr e) as [r [cl1 cr1]].
  specialize (IH es cl1 cr1).
  destruct (Joiner_steps lid tid cl1 cr1 (take n es)) as [rs1 caches1].
  destruct (Joiner_steps lid tid cl1 cr1 es) as [rs caches].
  cbn [fst take] in *. rewrite IH. reflexivity.
Qed.

(** X7.  A joiner pairs one side with the other and invents nothing: whatever
    is fed to a new joiner, in any order and of any shape, the element that
    its [i]-th call emits is stamped with the identity of the target stream
    and carries [(k, (a, b))] where [(k, a)] was the payload of one of the
    arrivals up to that call stamped with the identity of the left stream,
    and [(k, b)] that of one stamped otherwise. *)
Theorem joiner_pairs_left_with_right lid tid max_size c0 es i out :
  lrucache.new max_size = Ok c0 ->
  (Joiner_steps lid tid c0 c0 es).1 !! i = Some (Ok (Some out)) ->
  joins lid tid (take (S i) es) out.
Proof.
  intros Hc0 Hout. apply new_inv in Hc0 as [_ ->].
  refine (Joiner_steps_sound lid tid (take (S i) es) []
            (lrucache.mk (Z.to_nat max_size) []) (lrucache.mk (Z.to_nat max_size) []) _ out _).
  - split; cbn; intros k v H; apply elem_of_nil in H; contradiction.
  - rewrite Joiner_steps_take. apply list_elem_of_lookup. exists i.
    rewrite lookup_take_lt by lia. exact Hout.
Qed.

Lemma joiner_pairs_left_with_right_witness :
  joins "left" "target"
    (take 2 [mkElement "left" (VTuple [VInt 1; VInt 10]);
             mkElement "right" (VTuple [VInt 1; VInt 20]);
             mkElement "right" (VTuple [VInt 2; VInt 30])])
    (mkElement "target" (VTuple [VInt 1; VTuple [VInt 10; VInt 20]])).
Proof.
  apply (joiner_pairs_left_with_right "left" "target" 128 (lrucache.mk 128 [])).
  - reflexivity.
  - reflexivity.
Defined.

(** ** The three entries of a joiner *)

(** What [join] leaves in the store, object by object. *)
Lemma join_store st l r lid rid max_size uuid :
  streams st !! l = Some (mkStream None [] lid) ->
  streams st !! r = Some (mkStream None [] rid) ->
  l <> r ->
  (0 < max_size)%Z ->
  let t := length (streams st) in
  let j := length (filter_objs st) in
  let g := length (generators st) in
  let c0 := lrucache.mk (Z.to_nat max_size) [] in
  exists st1,
    join l r max_size uuid st = (Ok t, st1) /\
    streams st1 !! l = Some (mkStream (Some g) [j] lid) /\
    streams st1 !! r = Some (mkStream (Some (S g)) [j] rid) /\
    streams st1 !! t = Some (mkStream (Some (S (S g))) [j] uuid) /\
    generators st1 !! g = Some (mkGen j GSuspended) /\
    generators st1 !! S g = Some (mkGen j GSuspended) /\
    generators st1 !! S (S g) = Some (mkGen j GSuspended) /\
    filter_objs st1 !! j = Some (mkFilter None (Joiner c0 c0 l r t max_size)) /\
    trace st1 = trace st /\
    length (filter_objs st1) = S j /\
    length (generators st1) = S (S (S g)) /\
    length (streams st1) = S t /\
    (forall s', s' <> l -> s' <> r -> s' < t -> streams st1 !! s' = streams st !! s').
Proof.
  intros Hl Hr Hne Hm t j g c0.
  pose proof (lookup_lt_Some _ _ _ Hl) as Hllt.
  pose proof (lookup_lt_Some _ _ _ Hr) as Hrlt.
  eexists. split; [exact (join_spec st l r lid rid max_size uuid Hl Hr Hne Hm)|].
  cbn [streams filter_objs generators world trace warnings]. fold t j g c0.
  split_and!.
  - rewrite list_lookup_insert_ne by (subst t; lia).
    rewrite list_lookup_insert_ne by auto.
    apply list_lookup_insert_eq. rewrite length_app. lia.
  - rewrite list_lookup_insert_ne by (subst t; lia).
    apply list_lookup_insert_eq. rewrite length_insert, length_app. lia.
  - apply list_lookup_insert_eq. rewrite !length_insert, length_app. simpl. subst t. lia.
  - rewrite lookup_app_l by (rewrite !length_app; simpl; unfold g; lia).
    rewrite lookup_app_l by (rewrite !length_app; simpl; unfold g; lia).
    apply list_lookup_middle. reflexivity.
  - rewrite lookup_app_l by (rewrite !length_app; simpl; unfold g; lia).
    apply list_lookup_middle. rewrite length_app. simpl. unfold g. lia.
  - apply list_lookup_middle. rewrite !length_app. simpl. unfold g. lia.
  - apply list_lookup_middle. reflexivity.
  - reflexivity.
  - rewrite length_app. cbn. unfold j. lia.
  - rewrite !length_app. cbn. unfold g. lia.
  - rewrite !length_insert, length_app. cbn. unfold t. lia.
  - intros s' H1 H2 H3. rewrite !list_lookup_insert_ne by (try (subst t); lia || auto).
    apply lookup_app_l. exact H3.
Qed.

(** An arrival that the joiner stores: only the joiner object changes. *)
Lemma arrival_stored st s gs fs sid j cl cr l r t m sl stt d cl' cr' :
  streams st !! s = Some (mkStream (Some gs) fs sid) ->
  generators st !! gs = Some (mkGen j GSuspended) ->
  filter_objs st !! j = Some (mkFilter None (Joiner cl cr l r t m)) ->
  streams st !! l = Some sl ->
  streams st !! t = Some stt ->
  Joiner_step (s_id sl) (s_id stt) cl cr (mkElement sid d) = (Ok None, (cl', cr')) ->
  Stream_process s d st =
    (Ok tt,
     set_filter_objs (<[j := mkFilter None (Joiner cl' cr' l r t m)]> (filter_objs st)) st).
Proof.
  intros Hs Hg Hj Hl Ht Hstep.
  pose proof (arrival st s gs fs sid j None cl cr l r t m sl stt [] d Hs Hg Hj Hl Ht) as H.
  cbv zeta in H. rewrite Hstep in H. cbn [fst snd] in H. apply H; cbn.
  - reflexivity.
  - constructor.
  - apply NoDup_nil_2.
  - apply NoDup_nil_2.
  - apply not_elem_of_nil.
  - apply not_elem_of_nil.
  - pose proof (lookup_lt_Some _ _ _ Hg). lia.
Qed.

(** An arrival that the joiner matches, with no stage behind the joiner. *)
Lemma arrival_matched st s gs fs sid j cl cr l r t m sl stt d out c :
  streams st !! s = Some (mkStream (Some gs) fs sid) ->
  generators st !! gs = Some (mkGen j GSuspended) ->
  filter_objs st !! j = Some (mkFilter None (Joiner cl cr l r t m)) ->
  streams st !! l = Some sl ->
  streams st !! t = Some stt ->
  Joiner_step (s_id sl) (s_id stt) cl cr (mkElement sid d) = (Ok (Some out), c) ->
  exists st',
    Stream_process s d st = (Ok tt, st') /\
    trace st' = trace st ++ [(j, out)].
Proof.
  intros Hs Hg Hj Hl Ht Hstep.
  pose proof (arrival st s gs fs sid j None cl cr l r t m sl stt [] d Hs Hg Hj Hl Ht) as H.
  cbv zeta in H. rewrite Hstep in H. cbn [fst snd] in H.
  destruct H as (st' & Hp & Htr & _); cbn.
  - reflexivity.
  - constructor.
  - apply NoDup_nil_2.
  - apply NoDup_nil_2.
  - apply not_elem_of_nil.
  - apply not_elem_of_nil.
  - pose proof (lookup_lt_Some _ _ _ Hg). lia.
  - exists st'. split; [exact Hp|exact Htr].
Qed.

Lemma Joiner_step_raise lid tid cl cr e x c :
  Joiner_step lid tid cl cr e = (Raise x, c) -> c = (cl, cr).
Proof.
  unfold Joiner_step.
  destruct (subscript (data e) 0) as [k|x0]; [|intros [= _ <-]; reflexivity].
  destruct (subscript (data e) 1) as [v|x0]; [|intros [= _ <-]; reflexivity].
  destruct (String.eqb (stream_id e) lid).
  - destruct (lrucache.get k cr) as [c1 cr']. destruct (is_not_None c1); discriminate.
  - destruct (lrucache.get k cl) as [c1 cl']. destruct (is_not_None c1); discriminate.
Qed.

(** An arrival on which [Joiner.process] raises: the generator it came
    through is finished, and nothing else changes. *)
Lemma arrival_raises st s gs fs sid j nx cl cr l r t m sl stt d x :
  streams st !! s = Some (mkStream (Some gs) fs sid) ->
  generators st !! gs = Some (mkGen j GSuspended) ->
  filter_objs st !! j = Some (mkFilter nx (Joiner cl cr l r t m)) ->
  streams st !! l = Some sl ->
  streams st !! t = Some stt ->
  (Joiner_step (s_id sl) (s_id stt) cl cr (mkElement sid d)).1 = Raise x ->
  Stream_process s d st =
    (Raise (leaving_generator x),
     set_generators (<[gs := mkGen j GFinished]> (generators st)) st).
Proof.
  intros Hs Hg Hj Hl Ht Hstep.
  pose proof (lookup_lt_Some _ _ _ Hg) as Hglt.
  unfold Stream_process, bind, get_stream. rewrite Hs. cbn [s_head s_id].
  unfold send_top. rewrite (send_joiner _ _ _ _ _ _ _ _ _ _ _ _ _ _ Hg Hj Hl Ht).
  cbv zeta.
  destruct (Joiner_step (s_id sl) (s_id stt) cl cr (mkElement sid d)) as [res c] eqn:E.
  cbn [fst snd] in *. subst res. apply Joiner_step_raise in E as ->. cbn [fst snd].
  rewrite (list_insert_id _ _ _ Hj).
  unfold set_gen_state. cbn [generators].
  rewrite list_lookup_insert_eq by exact Hglt. cbn [gen_self].
  unfold set_generators. cbn [streams filter_objs generators world trace warnings].
  rewrite list_insert_insert_eq. reflexivity.
Qed.

(** [process] on a stream whose head generator is finished. *)
Lemma process_finished st s gs fs sid a y :
  streams st !! s = Some (mkStream (Some gs) fs sid) ->
  generators st !! gs = Some (mkGen a GFinished) ->
  Stream_process s y st = (Raise StopIteration, st).
Proof.
  intros Hs Hg. unfold Stream_process, bind, get_stream. rewrite Hs. cbn [s_head s_id].
  unfold send_top. cbn [send]. rewrite Hg. reflexivity.
Qed.

(** X8.  The stream that [join] returns has an entry of its own into the
    joiner, and what is fed to it counts as an arrival on the right: its
    identity is not the left one (line 183).  So after [(k, a)] on the left
    stream, [(k, b)] processed by the joined stream itself is joined with it. *)
Theorem joined_stream_feeds_the_right_side st l r lid rid max_size uuid k a b :
  streams st !! l = Some (mkStream None [] lid) ->
  streams st !! r = Some (mkStream None [] rid) ->
  l <> r ->
  uuid <> lid ->
  (0 < max_size)%Z ->
  a <> VNone ->
  exists t st1 st2 st3,
    join l r max_size uuid st = (Ok t, st1) /\
    Stream_process l (VTuple [k; a]) st1 = (Ok tt, st2) /\
    trace st2 = trace st /\
    Stream_process t (VTuple [k; b]) st2 = (Ok tt, st3) /\
    trace st3 = trace st ++
                [(length (filter_objs st), mkElement uuid (VTuple [k; VTuple [a; b]]))].
Proof.
  intros Hl Hr Hne Hid Hm Ha.
  destruct (join_store st l r lid rid max_size uuid Hl Hr Hne Hm)
    as (st1 & Hjoin & Hsl & Hsr & Hst & Hgl & Hgr & Hgt & Hj & Htr & _).
  set (t := length (streams st)) in *. set (j := length (filter_objs st)) in *.
  set (g := length (generators st)) in *. set (n := Z.to_nat max_size) in *.
  pose proof (lookup_lt_Some _ _ _ Hj) as Hjlt.
  pose proof (arrival_stored st1 l g [j] lid j (lrucache.mk n []) (lrucache.mk n [])
                l r t max_size (mkStream (Some g) [j] lid)
                (mkStream (Some (S (S g))) [j] uuid) (VTuple [k; a]) (lrucache.mk n [(k, a)]) (lrucache.mk n [])
                Hsl Hgl Hj Hsl Hst (step_first_left lid uuid n k a)) as Hp1.
  match type of Hp1 with _ = (_, ?s) => set (st2 := s) in * end.
  destruct (arrival_matched st2 t (S (S g)) [j] uuid j (lrucache.mk n [(k, a)])
              (lrucache.mk n []) l r t max_size (mkStream (Some g) [j] lid)
              (mkStream (Some (S (S g))) [j] uuid) (VTuple [k; b])
              (mkElement uuid (VTuple [k; VTuple [a; b]])) (lrucache.mk n [(k, a)], lrucache.mk n []))
    as (st3 & Hp2 & Htr3).
  - exact Hst.
  - exact Hgt.
  - subst st2. cbn [filter_objs set_filter_objs]. apply list_lookup_insert_eq. exact Hjlt.
  - exact Hsl.
  - exact Hst.
  - cbn [s_id]. apply step_match_right; assumption.
  - exists t, st1, st2, st3. split_and!; auto.
    rewrite Htr3. subst st2. cbn [trace set_filter_objs]. rewrite Htr. reflexivity.
Qed.

Lemma joined_stream_feeds_the_right_side_witness :
  exists t st1 st2 st3,
    join 0 1 128 "target"
      (mkStore [mkStream None [] "left"; mkStream None [] "right"] [] [] [] [] [])
      = (Ok t, st1) /\
    Stream_process 0 (VTuple [VInt 7; VInt 1]) st1 = (Ok tt, st2) /\
    trace st2 = [] /\
    Stream_process t (VTuple [VInt 7; VInt 2]) st2 = (Ok tt, st3) /\
    trace st3 = [] ++ [(0, mkElement "target" (VTuple [VInt 7; VTuple [VInt 1; VInt 2]]))].
Proof.
  apply (joined_stream_feeds_the_right_side
           (mkStore [mkStream None [] "left"; mkStream None [] "right"] [] [] [] [] [])
           0 1 "left" "right" 128 "target" (VInt 7) (VInt 1) (VInt 2)).
  - reflexivity.
  - reflexivity.
  - discriminate.
  - discriminate.
  - lia.
  - discriminate.
Defined.

(** X9.  Each stream enters a joiner through a generator of its own, so an
    arrival whose payload is no pair breaks one entry only.  After [(k, a)] on
    the left, a payload [d] that is no tuple of two or more components makes
    [left.process(d)] raise ([TypeError], or [IndexError] for a short tuple)
    and every later [left.process] raise [StopIteration]; the right stream
    still works, and [(k, b)] on it is joined with the [(k, a)] cached before
    the fault. *)
Theorem malformed_arrival_breaks_one_entry st l r lid rid max_size uuid k a b d :
  streams st !! l = Some (mkStream None [] lid) ->
  streams st !! r = Some (mkStream None [] rid) ->
  lid <> rid ->
  (0 < max_size)%Z ->
  a <> VNone ->
  (forall k' v' rest, d <> VTuple (k' :: v' :: rest)) ->
  exists t st1 st2 st3 st4,
    join l r max_size uuid st = (Ok t, st1) /\
    Stream_process l (VTuple [k; a]) st1 = (Ok tt, st2) /\
    Stream_process l d st2
      = (Raise (match d with VTuple _ => IndexError | _ => TypeError end), st3) /\
    (forall y, Stream_process l y st3 = (Raise StopIteration, st3)) /\
    Stream_process r (VTuple [k; b]) st3 = (Ok tt, st4) /\
    trace st4 = trace st ++
                [(length (filter_objs st), mkElement uuid (VTuple [k; VTuple [a; b]]))].
Proof.
  intros Hl Hr Hid Hm Ha Hd.
  assert (Hne : l <> r) by (intros ->; rewrite Hl in Hr; congruence).
  destruct (join_store st l r lid rid max_size uuid Hl Hr Hne Hm)
    as (st1 & Hjoin & Hsl & Hsr & Hst & Hgl & Hgr & Hgt & Hj & Htr & _).
  set (t := length (streams st)) in *. set (j := length (filter_objs st)) in *.
  set (g := length (generators st)) in *. set (n := Z.to_nat max_size) in *.
  pose proof (lookup_lt_Some _ _ _ Hj) as Hjlt.
  pose proof (lookup_lt_Some _ _ _ Hgl) as Hgllt.
  pose proof (arrival_stored st1 l g [j] lid j (lrucache.mk n []) (lrucache.mk n [])
                l r t max_size (mkStream (Some g) [j] lid)
                (mkStream (Some (S (S g))) [j] uuid) (VTuple [k; a]) (lrucache.mk n [(k, a)]) (lrucache.mk n [])
                Hsl Hgl Hj Hsl Hst (step_first_left lid uuid n k a)) as Hp1.
  match type of Hp1 with _ = (_, ?s) => set (st2 := s) in * end.
  assert (Hj2 : filter_objs st2 !! j
                = Some (mkFilter None (Joiner (lrucache.mk n [(k, a)]) (lrucache.mk n [])
                                         l r t max_size))).
  { subst st2. cbn [filter_objs set_filter_objs]. apply list_lookup_insert_eq. exact Hjlt. }
  set (x := match d with VTuple _ => IndexError | _ => TypeError end).
  assert (Hraise : (Joiner_step lid uuid (lrucache.mk n [(k, a)]) (lrucache.mk n [])
                      (mkElement lid d)).1 = Raise x).
  { subst x. destruct d as [|z|[|k' [|v' rest]]]; try reflexivity.
    exfalso. exact (Hd k' v' rest eq_refl). }
  pose proof (arrival_raises st2 l g [j] lid j None (lrucache.mk n [(k, a)])
                (lrucache.mk n []) l r t max_size (mkStream (Some g) [j] lid)
                (mkStream (Some (S (S g))) [j] uuid) d x
                Hsl Hgl Hj2 Hsl Hst Hraise) as Hp2.
  match type of Hp2 with _ = (_, ?s) => set (st3 := s) in * end.
  assert (Hx : leaving_generator x = x) by (subst x; destruct d; reflexivity).
  rewrite Hx in Hp2.
  destruct (arrival_matched st3 r (S g) [j] rid j (lrucache.mk n [(k, a)])
              (lrucache.mk n []) l r t max_size (mkStream (Some g) [j] lid)
              (mkStream (Some (S (S g))) [j] uuid) (VTuple [k; b])
              (mkElement uuid (VTuple [k; VTuple [a; b]])) (lrucache.mk n [(k, a)], lrucache.mk n []))
    as (st4 & Hp3 & Htr4).
  - exact Hsr.
  - subst st3. cbn [generators set_generators]. rewrite list_lookup_insert_ne by lia.
    exact Hgr.
  - exact Hj2.
  - exact Hsl.
  - exact Hst.
  - cbn [s_id]. apply step_match_right; [congruence|assumption].
  - exists t, st1, st2, st3, st4. split_and!; auto.
    + intros y. apply (process_finished st3 l g [j] lid j y Hsl).
      subst st3. cbn [generators set_generators]. apply list_lookup_insert_eq. exact Hgllt.
    + rewrite Htr4. subst st3 st2. cbn [trace set_generators set_filter_objs].
      rewrite Htr. reflexivity.
Qed.

Lemma malformed_arrival_breaks_one_entry_witness :
  exists t st1 st2 st3 st4,
    join 0 1 128 "target"
      (mkStore [mkStream None [] "left"; mkStream None [] "right"] [] [] [] [] [])
      = (Ok t, st1) /\
    Stream_process 0 (VTuple [VInt 7; VInt 1]) st1 = (Ok tt, st2) /\
    Stream_process 0 (VInt 5) st2
      = (Raise (match VInt 5 with VTuple _ => IndexError | _ => TypeError end), st3) /\
    (forall y, Stream_process 0 y st3 = (Raise StopIteration, st3)) /\
    Stream_process 1 (VTuple [VInt 7; VInt 2]) st3 = (Ok tt, st4) /\
    trace st4 = [] ++ [(0, mkElement "target" (VTuple [VInt 7; VTuple [VInt 1; VInt 2]]))].
Proof.
  apply (malformed_arrival_breaks_one_entry
           (mkStore [mkStream None [] "left"; mkStream None [] "right"] [] [] [] [] [])
           0 1 "left" "right" 128 "target" (VInt 7) (VInt 1) (VInt 2) (VInt 5)).
  - reflexivity.
  - reflexivity.
  - discriminate.
  - lia.
  - discriminate.
  - discriminate.
Defined.

(** ** Appending, whatever the filters *)

(** One [append] on a stream that has a head exactly when it has filters. *)
Lemma Stream_append_spec st s so fltr :
  streams st !! s = Some so ->
  (s_head so = None <-> s_filters so = []) ->
  Forall (fun a => a < length (filter_objs st)) (s_filters so) ->
  exists st',
    Stream_append s fltr st = (Ok tt, st') /\
    streams st' =
      <[s := mkStream (Some (default (length (generators st)) (s_head so)))
                      (s_filters so ++ [fltr]) (s_id so)]> (streams st) /\
    generators st' = generators st ++ [mkGen fltr GSuspended] /\
    length (filter_objs st') = length (filter_objs st) /\
    world st' = world st /\ trace st' = trace st /\ warnings st' = warnings st.
Proof.
  intros Hs Hinv Hval. destruct (s_head so) as [h|] eqn:Hh.
  - destruct (last (s_filters so)) as [tl|] eqn:Hlast.
    + assert (Htl : tl < length (filter_objs st)).
      { rewrite Forall_forall in Hval. apply Hval. eapply last_Some_elem_of, Hlast. }
      destruct (lookup_lt_is_Some_2 _ _ Htl) as [fo Hfo].
      eexists. split; [exact (Stream_append_tail st s so h tl fo fltr Hs Hh Hlast Hfo)|].
      cbn [streams filter_objs generators world trace warnings default].
      rewrite length_insert. auto 10.
    + apply last_None in Hlast. apply Hinv in Hlast. discriminate.
  - eexists. split; [exact (Stream_append_head st s so fltr Hs Hh)|].
    cbn [streams filter_objs generators world trace warnings default]. auto 10.
Qed.

Lemma appends_spec fltrs : forall st s so,
  streams st !! s = Some so ->
  (s_head so = None <-> s_filters so = []) ->
  Forall (fun a => a < length (filter_objs st)) (s_filters so) ->
  Forall (fun a => a < length (filter_objs st)) fltrs ->
  exists st',
    appends s fltrs st = (Ok tt, st') /\
    streams st' !! s =
      Some (mkStream (match fltrs with
                      | [] => s_head so
                      | _ => Some (default (length (generators st)) (s_head so))
                      end)
                     (s_filters so ++ fltrs) (s_id so)) /\
    (forall s', s' <> s -> streams st' !! s' = streams st !! s') /\
    generators st' = generators st ++ ((fun a => mkGen a GSuspended) <$> fltrs) /\
    length (filter_objs st') = length (filter_objs st) /\
    world st' = world st /\ trace st' = trace st /\ warnings st' = warnings st.
Proof.
  induction fltrs as [|a fltrs IH]; intros st s so Hs Hinv Hval Hnew.
  - exists st. cbn. rewrite !app_nil_r. destruct so. split_and!; auto.
  - apply Forall_cons in Hnew as [Ha Hnew].
    destruct (Stream_append_spec st s so a Hs Hinv Hval)
      as (st1 & Happ & Hst1 & Hg1 & Hf1 & Hw1 & Ht1 & Hwa1).
    pose proof (lookup_lt_Some _ _ _ Hs) as Hslt.
    destruct (IH st1 s (mkStream (Some (default (length (generators st)) (s_head so)))
                                 (s_filters so ++ [a]) (s_id so)))
      as (st2 & Happs & Hst2 & Hoth & Hg2 & Hf2 & Hw2 & Ht2 & Hwa2).
    + rewrite Hst1. apply list_lookup_insert_eq. exact Hslt.
    + cbn. split; [discriminate|]. intros H. apply app_eq_nil in H as [_ H]. discriminate.
    + cbn. rewrite Hf1. apply Forall_app. split; [exact Hval|]. constructor; [exact Ha|constructor].
    + rewrite Hf1. exact Hnew.
    + exists st2. cbn [appends]. unfold bind. rewrite Happ. split; [exact Happs|].
      cbn [s_head s_filters s_id default] in Hst2.
      split_and!.
      * rewrite Hst2. rewrite <- app_assoc. cbn [app].
        destruct fltrs; reflexivity.
      * intros s' Hne. rewrite Hoth by exact Hne. rewrite Hst1.
        apply list_lookup_insert_ne. auto.
      * rewrite Hg2, Hg1, <- app_assoc. reflexivity.
      * congruence.
      * congruence.
      * congruence.
      * congruence.
Qed.

(** X10.  [append] never fails on a stream that was built by appends, whatever
    is appended (a filter already used elsewhere, or the same one again): from
    a new stream, each call primes one new generator over its filter, the
    first of them becomes the head and stays it, the filters are recorded in
    call order, no other stream changes, and no callable runs. *)
Theorem appends_to_a_new_stream st s sid fltrs :
  streams st !! s = Some (mkStream None [] sid) ->
  Forall (fun a => a < length (filter_objs st)) fltrs ->
  exists st',
    appends s fltrs st = (Ok tt, st') /\
    streams st' !! s =
      Some (mkStream (match fltrs with
                      | [] => None
                      | _ => Some (length (generators st))
                      end) fltrs sid) /\
    (forall s', s' <> s -> streams st' !! s' = streams st !! s') /\
    generators st' = generators st ++ ((fun a => mkGen a GSuspended) <$> fltrs) /\
    world st' = world st /\ trace st' = trace st.
Proof.
  intros Hs Hnew.
  destruct (appends_spec fltrs st s (mkStream None [] sid) Hs)
    as (st' & Happs & Hst & Hoth & Hg & _ & Hw & Ht & _).
  - cbn. split; reflexivity.
  - constructor.
  - exact Hnew.
  - exists st'. cbn in Hst. split_and!; auto.
Qed.

Lemma appends_to_a_new_stream_witness :
  exists st',
    appends 0 [0; 1; 0]
      (mkStore [mkStream None [] "s"]
               [mkFilter None (Mapper (pure1 id)); mkFilter None (Mapper (pure1 id))]
               [] [] [] [])
      = (Ok tt, st') /\
    streams st' !! 0 = Some (mkStream (Some 0) [0; 1; 0] "s") /\
    (forall s', s' <> 0 -> streams st' !! s' = [mkStream None [] "s"] !! s') /\
    generators st' = [] ++ ((fun a => mkGen a GSuspended) <$> [0; 1; 0]) /\
    world st' = [] /\ trace st' = [].
Proof.
  apply (appends_to_a_new_stream
           (mkStore [mkStream None [] "s"]
                    [mkFilter None (Mapper (pure1 id)); mkFilter None (Mapper (pure1 id))]
                    [] [] [] []) 0 "s" [0; 1; 0]).
  - reflexivity.
  - cbn. repeat constructor.
Defined.

(** ** One filter appended twice to one stream *)

(** [process] of a mapper whose callable returns and leaves the world alone. *)
Lemma process_pure_mapper a nx f e st :
  filter_objs st !! a = Some (mkFilter nx (Mapper (pure1 f))) ->
  process a e st = (Ok (Some (mkElement (stream_id e) (f (data e)))), st).
Proof.
  intros Ha. unfold process, bind, get_filter. rewrite Ha. cbn [kind].
  unfold Mapper_process, pure1, set_world. rewrite store_eta. reflexivity.
Qed.

(** X11.  A filter has one [next] link and one generator per append.  When
    the same mapper is appended twice to a new stream, the second append links
    the mapper to a generator of itself: [process(x)] applies [f] twice, then
    the second generator is sent to while it is executing, which raises
    [ValueError]; the exception finishes both generators, and every later
    [process] raises [StopIteration]. *)
Theorem filter_appended_twice_is_a_cycle st s sid f x :
  streams st !! s = Some (mkStream None [] sid) ->
  let m := length (filter_objs st) in
  exists st1 st2,
    (let* m := alloc_filter (mkFilter None (Mapper (pure1 f))) in
     let* _ := Stream_append s m in
     Stream_append s m) st = (Ok tt, st1) /\
    Stream_process s x st1 = (Raise ValueError, st2) /\
    trace st2 = trace st ++ [(m, mkElement sid (f x)); (m, mkElement sid (f (f x)))] /\
    forall y, Stream_process s y st2 = (Raise StopIteration, st2).
Proof.
  intros Hs m. pose proof (lookup_lt_Some _ _ _ Hs) as Hslt.
  set (g := length (generators st)).
  set (fo := mkFilter None (Mapper (pure1 f))).
  (* the store after the two appends *)
  set (st1 := mkStore
                (<[s := mkStream (Some g) [m; m] sid]> (streams st))
                (<[m := mkFilter (Some (S g)) (Mapper (pure1 f))]> (filter_objs st ++ [fo]))
                ((generators st ++ [mkGen m GSuspended]) ++ [mkGen m GSuspended])
                (world st) (trace st) (warnings st)).
  assert (Hbuild : (let* m := alloc_filter fo in
                    let* _ := Stream_append s m in
                    Stream_append s m) st = (Ok tt, st1)).
  { unfold bind at 1. unfold alloc_filter. fold m.
    unfold bind at 1.
    erewrite (Stream_append_head _ s (mkStream None [] sid) m); cycle 1.
    { exact Hs. }
    { reflexivity. }
    unfold set_filter_objs.
    cbn [streams filter_objs generators world trace warnings s_filters s_id app].
    fold g.
    erewrite (Stream_append_tail _ s (mkStream (Some g) [m] sid) g m fo m); cycle 1.
    { cbn [streams]. apply list_lookup_insert_eq. exact Hslt. }
    { reflexivity. }
    { reflexivity. }
    { cbn [filter_objs]. apply list_lookup_middle. reflexivity. }
    cbn [streams filter_objs generators world trace warnings s_filters s_id app kind fo].
    rewrite list_insert_insert_eq, length_app. cbn [length].
    fold g. rewrite Nat.add_1_r. reflexivity. }
  assert (Hm1 : filter_objs st1 !! m = Some (mkFilter (Some (S g)) (Mapper (pure1 f)))).
  { subst st1. cbn [filter_objs]. apply list_lookup_insert_eq.
    rewrite length_app. cbn. unfold m. lia. }
  assert (Hg1 : generators st1 !! g = Some (mkGen m GSuspended)).
  { subst st1. cbn [generators]. rewrite lookup_app_l by (rewrite length_app; cbn; unfold g; lia).
    apply list_lookup_middle. reflexivity. }
  assert (Hg2 : generators st1 !! S g = Some (mkGen m GSuspended)).
  { subst st1. cbn [generators]. apply list_lookup_middle. rewrite length_app. cbn.
    unfold g. lia. }
  assert (Hlen : length (generators st1) = S (S g)).
  { subst st1. cbn [generators]. rewrite !length_app. cbn. unfold g. lia. }
  assert (Hs1 : streams st1 !! s = Some (mkStream (Some g) [m; m] sid)).
  { subst st1. cbn [streams]. apply list_lookup_insert_eq. exact Hslt. }
  (* the store after the faulting call *)
  set (st2 := mkStore
                (streams st1) (filter_objs st1)
                (<[g := mkGen m GFinished]> (<[S g := mkGen m GFinished]> (generators st1)))
                (world st) (trace st ++ [(m, mkElement sid (f x)); (m, mkElement sid (f (f x)))])
                (warnings st)).
  exists st1, st2. split; [exact Hbuild|].
  assert (Hproc : Stream_process s x st1 = (Raise ValueError, st2)).
  { unfold Stream_process, bind, get_stream. rewrite Hs1. cbn [s_head s_id].
    unfold send_top. rewrite Hlen.
    rewrite (send_unfold _ _ _ _ _ Hg1).
    rewrite (process_pure_mapper m (Some (S g)) f); [|exact Hm1].
    cbn [stream_id data]. cbv zeta.
    unfold set_trace, set_generators.
    cbn [streams filter_objs generators world trace warnings].
    rewrite Hm1. cbn [next].
    erewrite (send_unfold _ (S g) _ _ m); cycle 1.
    { cbn [generators]. rewrite list_lookup_insert_ne by lia. exact Hg2. }
    rewrite (process_pure_mapper m (Some (S g)) f); [|exact Hm1].
    cbn [stream_id data]. cbv zeta.
    unfold set_trace, set_generators.
    cbn [streams filter_objs generators world trace warnings].
    rewrite Hm1. cbn [next].
    (* the second generator is executing *)
    cbn [send].
    cbn [streams filter_objs generators world trace warnings].
    rewrite list_lookup_insert_eq
      by (rewrite length_insert, Hlen; lia).
    cbn [gen_state_of leaving_generator].
    unfold set_gen_state.
    cbn [streams filter_objs generators world trace warnings].
    rewrite list_lookup_insert_eq by (rewrite length_insert, Hlen; lia).
    unfold set_generators.
    cbn [streams filter_objs generators world trace warnings gen_self].
    rewrite list_insert_insert_eq.
    rewrite list_lookup_insert_ne by lia.
    rewrite list_lookup_insert_eq by (rewrite Hlen; lia).
    cbn [gen_self]. rewrite (list_insert_insert_ne _ g (S g)) by lia.
    rewrite list_insert_insert_eq.
    subst st2. rewrite <- app_assoc.
    subst st1. cbn [streams filter_objs generators world trace warnings app].
    rewrite (list_insert_insert_ne _ g (S g)) by lia. reflexivity. }
  split; [exact Hproc|]. split; [reflexivity|].
  intros y. apply (process_finished st2 s g [m; m] sid m y).
  - exact Hs1.
  - subst st2. cbn [generators]. apply list_lookup_insert_eq.
    rewrite length_insert, Hlen. lia.
Qed.

Lemma filter_appended_twice_is_a_cycle_witness :
  let st := mkStore [mkStream None [] "s"] [] [] [] [] [] in
  let f := fun v => VTuple [v] in
  exists st1 st2,
    (let* m := alloc_filter (mkFilter None (Mapper (pure1 f))) in
     let* _ := Stream_append 0 m in
     Stream_append 0 m) st = (Ok tt, st1) /\
    Stream_process 0 (VInt 1) st1 = (Raise ValueError, st2) /\
    trace st2 = [] ++ [(0, mkElement "s" (f (VInt 1))); (0, mkElement "s" (f (f (VInt 1))))] /\
    forall y, Stream_process 0 y st2 = (Raise StopIteration, st2).
Proof.
  cbv zeta.
  apply (filter_appended_twice_is_a_cycle
           (mkStore [mkStream None [] "s"] [] [] [] [] []) 0 "s"
           (fun v => VTuple [v]) (VInt 1)).
  reflexivity.
Defined.

(** ** A copy of a mapper *)

Lemma linked_lookup fs l1 g a p l2 : forall it,
  linked fs it (l1 ++ (g, a, p) :: l2) ->
  exists nx, fs !! a = Some (mkFilter nx (kind_of p)).
Proof.
  induction l1 as [|[[g0 a0] p0] l1 IH]; intros it; cbn [app linked].
  - intros (_ & nx & Ha & _). eauto.
  - intros (_ & nx & _ & Hl). exact (IH nx Hl).
Qed.

(** A stream stays the chain it is when its own objects are left alone. *)
Lemma stream_chain_frame st st' s sid l :
  stream_chain st s sid l ->
  streams st' !! s = streams st !! s ->
  (forall a, a ∈ cell_addr <$> l -> filter_objs st' !! a = filter_objs st !! a) ->
  (forall g, g ∈ cell_gen <$> l -> generators st' !! g = generators st !! g) ->
  length (generators st) <= length (generators st') ->
  stream_chain st' s sid l.
Proof.
  intros (so & Hs & Hid & Hfl & Hlk & Hsus & Hng & Hna & Hlen) Hss Hff Hgg Hll.
  exists so. split_and!; auto.
  - rewrite Hss. exact Hs.
  - eapply linked_frame; [|exact Hlk]. exact Hff.
  - eapply suspended_frame; [|exact Hsus]. exact Hgg.
  - lia.
Qed.

(** X12.  [Mapper.copy] makes a mapper of its own: it holds the callable of
    the original and no [next], whatever the original is linked to.  Appended
    to another stream it makes that stream a one-stage pipeline, which applies
    the callable and relays to nothing, and the pipeline of the original stays
    the chain it was. *)
Theorem copy_of_a_mapper_is_independent st s1 sid1 l1 g m f l2 s2 sid2 x :
  stream_chain st s1 sid1 (l1 ++ (g, m, PMap f) :: l2) ->
  streams st !! s2 = Some (mkStream None [] sid2) ->
  let c := length (filter_objs st) in
  exists st1 st2,
    (let* c := Mapper_copy m in
     let* _ := Stream_append s2 c in
     ret c) st = (Ok c, st1) /\
    filter_objs st1 !! c = Some (mkFilter None (Mapper (lift1 f))) /\
    stream_chain st1 s1 sid1 (l1 ++ (g, m, PMap f) :: l2) /\
    stream_chain st1 s2 sid2 [(length (generators st), c, PMap f)] /\
    Stream_process s2 x st1 =
      (match f x with Ok _ => Ok tt | Raise e => Raise (leaving_generator e) end, st2) /\
    trace st2 = trace st ++ match f x with
                            | Ok y => [(c, mkElement sid2 y)]
                            | Raise _ => []
                            end.
Proof.
  intros Hc Hs2 c.
  pose proof Hc as (so & Hs1 & Hid & Hfl & Hlk & Hsus & Hng & Hna & Hlen).
  destruct (linked_lookup _ _ _ _ _ _ _ Hlk) as [nx Hm].
  pose proof (lookup_lt_Some _ _ _ Hs2) as Hs2lt.
  assert (Hne : s1 <> s2).
  { intros ->. rewrite Hs1 in Hs2. injection Hs2 as ->. cbn in Hfl.
    symmetry in Hfl. apply fmap_nil_inv in Hfl. destruct l1; discriminate. }
  set (fo := mkFilter None (Mapper (lift1 f))).
  set (st1 := mkStore
                (<[s2 := mkStream (Some (length (generators st))) [c] sid2]> (streams st))
                (filter_objs st ++ [fo])
                (generators st ++ [mkGen c GSuspended])
                (world st) (trace st) (warnings st)).
  assert (Hbuild : (let* c := Mapper_copy m in
                    let* _ := Stream_append s2 c in
                    ret c) st = (Ok c, st1)).
  { unfold bind at 1. unfold Mapper_copy. unfold bind at 1. unfold get_filter.
    rewrite Hm. cbn [kind kind_of]. unfold alloc_filter. fold c.
    unfold bind.
    erewrite (Stream_append_head _ s2 (mkStream None [] sid2) c); cycle 1.
    { exact Hs2. }
    { reflexivity. }
    reflexivity. }
  assert (Hc2 : stream_chain st1 s2 sid2 [(length (generators st), c, PMap f)]).
  { exists (mkStream (Some (length (generators st))) [c] sid2). subst st1.
    cbn [streams filter_objs generators s_id s_filters s_head].
    split_and!.
    - apply list_lookup_insert_eq. exact Hs2lt.
    - reflexivity.
    - reflexivity.
    - cbn. split; [reflexivity|]. exists None. split; [|reflexivity].
      apply list_lookup_middle. reflexivity.
    - constructor; [|constructor]. cbn. apply list_lookup_middle. reflexivity.
    - cbn. apply NoDup_singleton.
    - cbn. apply NoDup_singleton.
    - rewrite length_app. cbn. lia. }
  destruct (process_chain st1 s2 sid2 _ x Hc2) as (st2 & Hp & _ & _ & _ & Ht & _).
  exists st1, st2. split; [exact Hbuild|]. split_and!.
  - subst st1. cbn [filter_objs]. apply list_lookup_middle. reflexivity.
  - apply (stream_chain_frame st st1 s1 sid1 _ Hc); subst st1;
      cbn [streams filter_objs generators].
    + apply list_lookup_insert_ne. auto.
    + intros a Ha. apply lookup_app_l. exact (linked_lt _ _ _ _ Hlk Ha).
    + intros g' Hg'. apply lookup_app_l. exact (suspended_lt _ _ _ Hsus Hg').
    + rewrite length_app. lia.
  - exact Hc2.
  - rewrite Hp. cbn [run_chain stage_apply]. destruct (f x); reflexivity.
  - rewrite Ht. cbn [run_chain stage_apply]. destruct (f x); reflexivity.
Qed.

Lemma copy_of_a_mapper_is_independent_witness :
  let f := fun v : value => Ok (VTuple [v]) in
  let st := mkStore [mkStream (Some 0) [0] "a"; mkStream None [] "b"]
              [mkFilter None (Mapper (lift1 f))] [mkGen 0 GSuspended] [] [] [] in
  exists st1 st2,
    (let* c := Mapper_copy 0 in
     let* _ := Stream_append 1 c in
     ret c) st = (Ok 1, st1) /\
    filter_objs st1 !! 1 = Some (mkFilter None (Mapper (lift1 f))) /\
    stream_chain st1 0 "a" ([] ++ (0, 0, PMap f) :: []) /\
    stream_chain st1 1 "b" [(1, 1, PMap f)] /\
    Stream_process 1 (VInt 3) st1 =
      (match f (VInt 3) with Ok _ => Ok tt | Raise e => Raise (leaving_generator e) end, st2) /\
    trace st2 = [] ++ match f (VInt 3) with
                      | Ok y => [(1, mkElement "b" y)]
                      | Raise _ => []
                      end.
Proof.
  cbv zeta.
  apply (copy_of_a_mapper_is_independent
           (mkStore [mkStream (Some 0) [0] "a"; mkStream None [] "b"]
              [mkFilter None (Mapper (lift1 (fun v : value => Ok (VTuple [v]))))]
              [mkGen 0 GSuspended] [] [] [])
           0 "a" [] 0 0 (fun v : value => Ok (VTuple [v])) [] 1 "b" (VInt 3)).
  - exists (mkStream (Some 0) [0] "a"). cbn.
    split_and!; try reflexivity.
    all: try apply NoDup_singleton.
    all: try (repeat constructor; fail).
    all: try (exists None; split; reflexivity).
    all: try lia.
  - reflexivity.
Defined.

(** ** An iterable source in front of mappers *)

Lemma filter_last_fst (outs : list (nat * Element)) a e :
  NoDup outs.*1 ->
  last outs = Some (a, e) ->
  filter (fun o : nat * Element => o.1 = a) outs = [(a, e)].
Proof.
  intros Hnd Hlast.
  destruct outs as [|o outs'] using rev_ind; [discriminate|].
  rewrite last_snoc in Hlast. injection Hlast as ->.
  rewrite fmap_app in Hnd. apply NoDup_app in Hnd as (_ & Hdisj & _).
  rewrite filter_app, filter_cons_True by reflexivity. cbn [filter list_filter].
  replace (filter (fun o : nat * Element => o.1 = a) outs') with (@nil (nat * Element)).
  - reflexivity.
  - symmetry. clear IHouts'.
    induction outs' as [|o outs' IH]; [reflexivity|].
    rewrite filter_cons_False.
    + apply IH. intros x Hx. apply Hdisj. rewrite fmap_cons. apply elem_of_cons; auto.
    + intros Heq. apply (Hdisj a).
      * rewrite fmap_cons. apply elem_of_cons. left. auto.
      * cbn. apply elem_of_cons. auto.
Qed.

Lemma process_all_maps s sid l fs :
  cell_stage <$> l = stage_of <$> (total_map <$> fs) ->
  forall xs st,
    stream_chain st s sid l ->
    exists st',
      process_all s xs st = (Ok tt, st') /\
      trace st' = trace st ++
        concat ((fun x => zip (cell_addr <$> l) (mkElement sid <$> scan_all fs x)) <$> xs) /\
      world st' = world st.
Proof.
  intros Hst. induction xs as [|x xs IH]; intros st Hc.
  - exists st. cbn. rewrite app_nil_r. auto.
  - destruct (process_chain st s sid l x Hc) as (st1 & Hp & _ & Hw & _ & Ht & Hc1 & _).
    destruct (run_chain_maps sid l fs x Hst) as (Hf & Hch & Ho & _).
    unfold result_of in Hp. rewrite Hf in Hp. rewrite Hch in Hc1.
    destruct (IH st1 (Hc1 Hf)) as (st2 & Hps & Ht2 & Hw2).
    exists st2. cbn [process_all]. unfold bind. rewrite Hp.
    split; [exact Hps|]. split; [|congruence].
    rewrite Ht2, Ht, Ho, fmap_cons. cbn [concat]. rewrite <- app_assoc. reflexivity.
Qed.

(** X13.  An [IterableSource] attached to a stream built by [map(f1)], ...,
    [map(fn)] and started: every element of the iterable goes through all the
    mappers before the next one is read, nothing is carried from one element
    to the next, and nothing raises.  In source order, the last mapper emits
    [fn(...f1(x)...)] for each element [x]. *)
Theorem iterable_source_through_mappers st s sid fs xs :
  streams st !! s = Some (mkStream None [] sid) ->
  exists st1 st2 so,
    map_all s fs st = (Ok s, st1) /\
    streams st1 !! s = Some so /\
    IterableSource_start (attach Source_new s) xs st1 = (Ok tt, st2) /\
    trace st2 = trace st ++
      concat ((fun x => zip (s_filters so) (mkElement sid <$> scan_all fs x)) <$> xs) /\
    (forall a, last (s_filters so) = Some a ->
       filter (fun o : nat * Element => o.1 = a) (drop (length (trace st)) (trace st2))
         = (fun x => (a, mkElement sid (compose_all fs x))) <$> xs).
Proof.
  intros Hs. apply stream_chain_fresh in Hs.
  destruct (build_chain (total_map <$> fs) st s sid [] Hs)
    as (st1 & l & Hb & Hc & Hst & Ht1 & _).
  cbn [app] in Hc.
  destruct (process_all_maps s sid l fs Hst xs st1 Hc) as (st2 & Hp & Ht & _).
  pose proof Hc as (so & Hso & Hid & Hfl & _ & _ & _ & Hna & _).
  exists st1, st2, so. rewrite map_all_build, IterableSource_start_attached.
  split_and!; auto.
  - rewrite Ht, Ht1, Hfl. reflexivity.
  - intros a Hlast. rewrite Ht, Ht1, drop_app_length. rewrite Hfl in Hlast.
    clear Hp Ht. induction xs as [|x xs IH]; [reflexivity|].
    rewrite !fmap_cons. cbn [concat]. rewrite filter_app, IH.
    destruct (run_chain_maps sid l fs x Hst) as (_ & _ & Ho & Hlen & Hl).
    assert (Hfs : fs <> []).
    { intros ->. destruct l; [discriminate Hlast|discriminate Hlen]. }
    destruct (Hl Hfs) as (a' & Ha' & Hlo). rewrite Hlast in Ha'. injection Ha' as <-.
    assert (Hnd : NoDup (o_outs (run_chain sid l x)).*1).
    { rewrite Ho, fst_zip; [exact Hna|].
      rewrite !length_fmap, Hlen. clear. revert x.
      induction fs as [|f fs IHf]; intros x; cbn; [lia|]. specialize (IHf (f x)). lia. }
    rewrite <- Ho, (filter_last_fst _ a _ Hnd Hlo). reflexivity.
Qed.

Lemma iterable_source_through_mappers_witness :
  let st := mkStore [mkStream None [] "s"] [] [] [] [] [] in
  let fs := [fun v => VTuple [v]; fun v => VTuple [v; v]] in
  let xs := [VInt 1; VInt 2] in
  exists st1 st2 so,
    map_all 0 fs st = (Ok 0, st1) /\
    streams st1 !! 0 = Some so /\
    IterableSource_start (attach Source_new 0) xs st1 = (Ok tt, st2) /\
    trace st2 = trace st ++
      concat ((fun x => zip (s_filters so) (mkElement "s" <$> scan_all fs x)) <$> xs) /\
    (forall a, last (s_filters so) = Some a ->
       filter (fun o : nat * Element => o.1 = a) (drop (length (trace st)) (trace st2))
         = (fun x => (a, mkElement "s" (compose_all fs x))) <$> xs).
Proof.
  cbv zeta.
  apply (iterable_source_through_mappers (mkStore [mkStream None [] "s"] [] [] [] [] [])
           0 "s" [fun v => VTuple [v]; fun v => VTuple [v; v]] [VInt 1; VInt 2]).
  reflexivity.
Defined.

(** ** The identity that elements carry *)

Lemma run_chain_outs_stamp sid l x o :
  o ∈ o_outs (run_chain sid l x) -> stream_id o.2 = sid.
Proof.
  revert x. induction l as [|[[g a] p] l IH]; intros x; cbn [run_chain].
  - cbn. intros H. apply elem_of_nil in H. contradiction.
  - destruct (stage_apply p x) as [[y|e] p']; cbn [o_outs].
    + intros H. apply elem_of_cons in H as [->|H]; [reflexivity|exact (IH _ H)].
    + intros H. apply elem_of_nil in H. contradiction.
Qed.

(** X14.  Mappers and reducers stamp what they emit with the identity of what
    they received (lines 120 and 142), and [Stream.process] stamps the
    identity of the stream (line 55).  So whatever one [process] call makes a
    chain of mappers and reducers emit, up to a fault if there is one, carries
    the identity of the stream, and it comes from the filters of the stream. *)
Theorem pipeline_keeps_the_stream_identity st s sid l x :
  stream_chain st s sid l ->
  exists res st' new,
    Stream_process s x st = (res, st') /\
    trace st' = trace st ++ new /\
    Forall (fun o : nat * Element =>
              stream_id o.2 = sid /\ o.1 ∈ cell_addr <$> l) new.
Proof.
  intros Hc.
  destruct (process_chain st s sid l x Hc) as (st' & Hp & _ & _ & _ & Ht & _).
  eexists _, st', _. split; [exact Hp|]. split; [exact Ht|].
  apply Forall_forall. intros o Ho. split.
  - exact (run_chain_outs_stamp _ _ _ _ Ho).
  - exact (run_chain_outs_addr _ _ _ _ Ho).
Qed.

Lemma pipeline_keeps_the_stream_identity_witness :
  exists res st' new,
    Stream_process 0 (VInt 3)
      (mkStore [mkStream (Some 0) [0] "s"]
               [mkFilter None (Mapper (lift1 (fun v => Ok (VTuple [v]))))]
               [mkGen 0 GSuspended] [] [] [])
      = (res, st') /\
    trace st' = [] ++ new /\
    Forall (fun o : nat * Element =>
              stream_id o.2 = "s" /\
              o.1 ∈ cell_addr <$> [(0, 0, PMap (fun v => Ok (VTuple [v])))]) new.
Proof.
  apply (pipeline_keeps_the_stream_identity
           (mkStore [mkStream (Some 0) [0] "s"]
              [mkFilter None (Mapper (lift1 (fun v => Ok (VTuple [v]))))]
              [mkGen 0 GSuspended] [] [] [])
           0 "s" [(0, 0, PMap (fun v => Ok (VTuple [v])))] (VInt 3)).
  exists (mkStream (Some 0) [0] "s"). cbn.
  split_and!; try reflexivity.
  all: try apply NoDup_singleton.
  all: try (repeat constructor; fail).
  all: try (exists None; split; reflexivity).
  all: try lia.
Defined.

(** ** Mappers in front of a joiner *)

Lemma linked_to_frame fs fs' it l tail :
  (forall a, a ∈ cell_addr <$> l -> fs' !! a = fs !! a) ->
  linked_to fs it l tail -> linked_to fs' it l tail.
Proof.
  revert it. induction l as [|[[g a] p] l IH]; intros it Hf; simpl; [auto|].
  intros (-> & nx & Ha & Hl). split; [reflexivity|]. exists nx. split.
  - rewrite Hf; [exact Ha|]. simpl. apply elem_of_cons; auto.
  - apply IH; [|exact Hl]. intros a' Hin. apply Hf. simpl. apply elem_of_cons; auto.
Qed.

(** Linking the last filter of a chain to a generator. *)
Lemma linked_retarget fs it l g x :
  linked fs it l ->
  NoDup (cell_addr <$> l) ->
  forall a, last (cell_addr <$> l) = Some a ->
  exists fo,
    fs !! a = Some fo /\
    linked_to (<[a := mkFilter (Some g) (kind fo)]> (fs ++ [x])) it l (Some g).
Proof.
  revert it. induction l as [|[[g0 a0] p0] l IH]; intros it Hl Hnd a Hlast; [discriminate|].
  destruct Hl as (-> & nx & Ha & Hl).
  rewrite fmap_cons in Hnd. apply NoDup_cons in Hnd as [Hna Hnd].
  pose proof (lookup_lt_Some _ _ _ Ha) as Halt.
  rewrite fmap_cons in Hlast. destruct l as [|c l].
  - cbn in Hlast. injection Hlast as <-. cbn in Hl. subst nx.
    exists (mkFilter None (kind_of p0)). split; [exact Ha|].
    cbn. split; [reflexivity|]. exists (Some g). split; [|reflexivity].
    apply list_lookup_insert_eq. rewrite length_app. lia.
  - rewrite fmap_cons, last_cons_cons in Hlast. rewrite <- fmap_cons in Hlast.
    destruct (IH nx Hl Hnd a Hlast) as (fo & Hfo & IH'). exists fo. split; [exact Hfo|].
    cbn [linked_to]. split; [reflexivity|]. exists nx. split; [|exact IH'].
    rewrite list_lookup_insert_ne.
    + apply lookup_app_l_Some. exact Ha.
    + intros <-. apply Hna. cbn [cell_addr fst snd].
      eapply last_Some_elem_of. exact Hlast.
Qed.

Lemma trace_set_all s gs st : trace (set_all s gs st) = trace st.
Proof.
  induction gs as [|g gs IH]; [reflexivity|]. cbn [set_all foldr].
  fold (set_all s gs st). unfold set_gen_state.
  destruct (generators (set_all s gs st) !! g); cbn; exact IH.
Qed.

Lemma streams_set_all s gs st : streams (set_all s gs st) = streams st.
Proof.
  induction gs as [|g gs IH]; [reflexivity|]. cbn [set_all foldr].
  fold (set_all s gs st). unfold set_gen_state.
  destruct (generators (set_all s gs st) !! g); cbn; exact IH.
Qed.

(** One send into mappers that return, the last of which relays to [tail]:
    the send into [tail] happens with every mapper executing and every output
    of theirs emitted, and its outcome decides how the mappers are left. *)
Lemma send_maps_then l : forall c fs d it e st tail,
  cell_stage <$> (c :: l) = stage_of <$> (total_map <$> fs) ->
  linked_to (filter_objs st) (Some it) (c :: l) (Some tail) ->
  suspended (generators st) (c :: l) ->
  NoDup (cell_gen <$> (c :: l)) ->
  exists st_mid,
    streams st_mid = streams st /\
    filter_objs st_mid = filter_objs st /\
    world st_mid = world st /\
    warnings st_mid = warnings st /\
    trace st_mid = trace st ++
      zip (cell_addr <$> (c :: l)) (mkElement (stream_id e) <$> scan_all fs (data e)) /\
    length (generators st_mid) = length (generators st) /\
    (forall g, g ∉ cell_gen <$> (c :: l) -> generators st_mid !! g = generators st !! g) /\
    Forall (fun c0 => generators st_mid !! cell_gen c0 = Some (mkGen (cell_addr c0) GRunning))
           (c :: l) /\
    send (length (c :: l) + d) it e st =
      match send d tail (mkElement (stream_id e) (compose_all fs (data e))) st_mid with
      | (Ok _, st3) => (Ok tt, set_all GSuspended (cell_gen <$> (c :: l)) st3)
      | (Raise x, st3) =>
          (Raise (leaving_generator x), set_all GFinished (cell_gen <$> (c :: l)) st3)
      end.
Proof.
  induction l as [|c' l IH]; intros [[g a] p] fs d it e st tail Hst Hlk Hsus Hnd.
  - (* the last mapper *)
    destruct fs as [|f [|f' fs]]; try discriminate.
    cbn in Hst. injection Hst as ->.
    destruct Hlk as ([= ->] & nx & Ha & Hnx). cbn in Hnx. subst nx.
    apply Forall_cons in Hsus as [Hg _]. cbn [cell_gen cell_addr fst snd] in Hg.
    pose proof (lookup_lt_Some _ _ _ Hg) as Hglt.
    pose proof (lookup_lt_Some _ _ _ Ha) as Halt.
    eexists (mkStore (streams st) (filter_objs st)
               (<[g := mkGen a GRunning]> (generators st)) (world st)
               (trace st ++ [(a, mkElement (stream_id e) (f (data e)))]) (warnings st)).
    cbn [streams filter_objs generators world trace warnings].
    split_and!; try reflexivity.
    + apply length_insert.
    + intros g' Hg'. apply list_lookup_insert_ne. intros <-. apply Hg'. cbn.
      apply elem_of_cons; auto.
    + constructor; [|constructor]. cbn [cell_gen cell_addr fst snd].
      apply list_lookup_insert_eq. exact Hglt.
    + cbn [length Nat.add]. rewrite (send_unfold _ _ _ _ _ Hg).
      rewrite (process_pstage a (Some tail) (PMap (fun x => Ok (f x))) e); [|exact Ha].
      cbn [stage_apply kind_of] in Ha |- *. cbv zeta.
      unfold set_filter_objs, set_trace, set_generators.
      cbn [streams filter_objs generators world trace warnings].
      rewrite (list_insert_id _ _ _ Ha), Ha. cbn [next compose_all fold_left].
      match goal with |- context [send d tail ?e' ?s] => destruct (send d tail e' s) as [[u|x] st3] end;
        reflexivity.
  - (* a mapper before others *)
    destruct fs as [|f fs]; [discriminate|].
    rewrite fmap_cons in Hst. cbn [fmap list_fmap] in Hst.
    injection Hst as Hp Hst. cbn [cell_stage snd] in Hp. subst p.
    destruct Hlk as ([= ->] & nx & Ha & Hnx).
    destruct c' as [[g' a'] p']. pose proof Hnx as (-> & _).
    apply Forall_cons in Hsus as [Hg Hsus]. cbn [cell_gen cell_addr fst snd] in Hg.
    rewrite fmap_cons in Hnd. apply NoDup_cons in Hnd as [Hgn Hnd].
    cbn [cell_gen fst snd] in Hgn.
    pose proof (lookup_lt_Some _ _ _ Hg) as Hglt.
    set (st1 := mkStore (streams st) (filter_objs st)
                  (<[g := mkGen a GRunning]> (generators st)) (world st)
                  (trace st ++ [(a, mkElement (stream_id e) (f (data e)))]) (warnings st)).
    destruct (IH (g', a', p') fs d g' (mkElement (stream_id e) (f (data e))) st1 tail)
      as (st_mid & M1 & M2 & M3 & M4 & M5 & M6 & M7 & M8 & Hsend).
    + exact Hst.
    + exact Hnx.
    + eapply suspended_frame; [|exact Hsus]. intros g0 Hg0. subst st1. cbn [generators].
      apply list_lookup_insert_ne. intros <-. contradiction.
    + exact Hnd.
    + exists st_mid. subst st1.
      cbn [streams filter_objs generators world trace warnings stream_id data] in *.
      split_and!; try assumption.
      * rewrite M5, <- app_assoc. reflexivity.
      * rewrite M6. apply length_insert.
      * intros g0 Hg0. rewrite fmap_cons in Hg0. apply not_elem_of_cons in Hg0 as [Hne Hg0].
        rewrite M7 by exact Hg0. apply list_lookup_insert_ne. cbn in Hne. auto.
      * constructor; [|exact M8]. cbn [cell_gen cell_addr fst snd].
        rewrite M7 by exact Hgn. apply list_lookup_insert_eq. exact Hglt.
      * change (length ((g, a, PMap (fun x => Ok (f x))) :: (g', a', p') :: l) + d)
          with (S (length ((g', a', p') :: l) + d)).
        rewrite (send_unfold _ _ _ _ _ Hg).
        rewrite (process_pstage a (Some g') (PMap (fun x => Ok (f x))) e); [|exact Ha].
        cbn [stage_apply kind_of] in Ha |- *. cbv zeta.
        unfold set_filter_objs, set_trace, set_generators.
        cbn [streams filter_objs generators world trace warnings].
        rewrite (list_insert_id _ _ _ Ha), Ha. cbn [next].
        match type of Hsend with _ = ?rhs =>
          match goal with |- context [send ?n g' ?e' ?s] =>
            let H := fresh in
            assert (H : send n g' e' s = rhs) by exact Hsend; rewrite H; clear H
          end
        end.
        cbn [compose_all fold_left].
        change (fold_left (fun v f0 => f0 v) fs (f (data e)))
          with (compose_all fs (f (data e))).
        match goal with |- context [send d tail ?e' ?s] => destruct (send d tail e' s) as [[u|x] st3] end.
        -- reflexivity.
        -- rewrite leaving_generator_idem. reflexivity.
Qed.

(** [join] when the left stream already is a chain of stages: the joiner is
    linked behind the last of them. *)
Lemma join_behind_chain st l r lid rid c ll max_size uuid :
  stream_chain st l lid (c :: ll) ->
  streams st !! r = Some (mkStream None [] rid) ->
  (0 < max_size)%Z ->
  let t := length (streams st) in
  let j := length (filter_objs st) in
  let g := length (generators st) in
  let c0 := lrucache.mk (Z.to_nat max_size) [] in
  exists st1,
    join l r max_size uuid st = (Ok t, st1) /\
    streams st1 !! l
      = Some (mkStream (Some (cell_gen c)) ((cell_addr <$> (c :: ll)) ++ [j]) lid) /\
    streams st1 !! r = Some (mkStream (Some (S g)) [j] rid) /\
    streams st1 !! t = Some (mkStream (Some (S (S g))) [j] uuid) /\
    linked_to (filter_objs st1) (Some (cell_gen c)) (c :: ll) (Some g) /\
    suspended (generators st1) (c :: ll) /\
    generators st1 !! g = Some (mkGen j GSuspended) /\
    generators st1 !! S g = Some (mkGen j GSuspended) /\
    generators st1 !! S (S g) = Some (mkGen j GSuspended) /\
    filter_objs st1 !! j = Some (mkFilter None (Joiner c0 c0 l r t max_size)) /\
    trace st1 = trace st /\
    length (generators st1) = S (S (S g)).
Proof.
  intros (so & Hl & Hid & Hfl & Hlk & Hsus & Hng & Hna & Hlen) Hr Hm t j g c0.
  destruct so as [hd fl sid0]. cbn [s_head s_filters s_id] in *. subst sid0 fl.
  assert (Hhd : hd = Some (cell_gen c)).
  { destruct c as [[g0 a0] p0]. destruct Hlk as (-> & _). reflexivity. }
  subst hd.
  assert (Hne : l <> r).
  { intros ->. rewrite Hl in Hr. discriminate. }
  pose proof (lookup_lt_Some _ _ _ Hl) as Hllt.
  pose proof (lookup_lt_Some _ _ _ Hr) as Hrlt.
  destruct (last (cell_addr <$> (c :: ll))) as [tl|] eqn:Hlast.
  2:{ apply last_None in Hlast. discriminate. }
  destruct (linked_retarget (filter_objs st) _ _ g
              (mkFilter None (Joiner c0 c0 l r t max_size)) Hlk Hna tl Hlast)
    as (fo & Hfo & Hlk').
  pose proof (lookup_lt_Some _ _ _ Hfo) as Htllt.
  eexists. split.
  { unfold join. unfold bind at 1. unfold Stream_new, alloc_stream. cbn [default].
    unfold bind at 1. unfold Joiner_new, lrucache.new.
    destruct (Z.ltb_spec 0 max_size) as [_|Hc]; [|lia].
    unfold alloc_filter, set_streams, set_filter_objs.
    cbn [streams filter_objs generators world trace warnings].
    fold t j c0.
    unfold bind at 1.
    erewrite (Stream_append_tail _ l (mkStream (Some (cell_gen c)) (cell_addr <$> (c :: ll)) lid)
                (cell_gen c) tl fo j); cycle 1.
    { cbn [streams]. apply lookup_app_l_Some. exact Hl. }
    { reflexivity. }
    { exact Hlast. }
    { cbn [filter_objs]. apply lookup_app_l_Some. exact Hfo. }
    cbn [streams filter_objs generators world trace warnings s_filters s_id].
    unfold bind at 1.
    erewrite (Stream_append_head _ r (mkStream None [] rid) j); cycle 1.
    { cbn [streams]. rewrite list_lookup_insert_ne by exact Hne.
      apply lookup_app_l_Some. exact Hr. }
    { reflexivity. }
    cbn [streams filter_objs generators world trace warnings s_filters s_id app].
    unfold bind at 1.
    erewrite (Stream_append_head _ t (mkStream None [] uuid) j); cycle 1.
    { cbn [streams]. subst t. rewrite !list_lookup_insert_ne by lia.
      apply list_lookup_middle. reflexivity. }
    { reflexivity. }
    cbn [streams filter_objs generators world trace warnings s_filters s_id app].
    unfold ret. rewrite !length_app. cbn [length]. fold g.
    replace (g + 1) with (S g) by lia. replace (S g + 1) with (S (S g)) by lia.
    reflexivity. }
  cbn [streams filter_objs generators world trace warnings].
  split_and!.
  - rewrite list_lookup_insert_ne by (subst t; lia).
    rewrite list_lookup_insert_ne by auto.
    apply list_lookup_insert_eq. rewrite length_app. lia.
  - rewrite list_lookup_insert_ne by (subst t; lia).
    apply list_lookup_insert_eq. rewrite length_insert, length_app. lia.
  - apply list_lookup_insert_eq. rewrite !length_insert, length_app. simpl. subst t. lia.
  - exact Hlk'.
  - eapply suspended_frame; [|exact Hsus]. intros g0 Hg0.
    pose proof (suspended_lt _ _ _ Hsus Hg0).
    rewrite !lookup_app_l by (rewrite ?length_app; cbn; lia). reflexivity.
  - rewrite lookup_app_l by (rewrite !length_app; simpl; unfold g; lia).
    rewrite lookup_app_l by (rewrite !length_app; simpl; unfold g; lia).
    apply list_lookup_middle. reflexivity.
  - rewrite lookup_app_l by (rewrite !length_app; simpl; unfold g; lia).
    apply list_lookup_middle. rewrite length_app. simpl. unfold g. lia.
  - apply list_lookup_middle. rewrite !length_app. simpl. unfold g. lia.
  - rewrite list_lookup_insert_ne by (unfold j; lia).
    apply list_lookup_middle. reflexivity.
  - reflexivity.
  - rewrite !length_app. cbn. unfold g. lia.
Qed.

(** Building on one stream leaves the others as they are. *)
Lemma apply_op_frame st s sid l o st' :
  stream_chain st s sid l ->
  apply_op s o st = (Ok s, st') ->
  forall s', s' <> s -> streams st' !! s' = streams st !! s'.
Proof.
  intros (so & Hs & Hid & Hfl & Hlk & Hsus & Hng & Hna & Hlen) Hop s' Hne.
  assert (Hinv : s_head so = None <-> s_filters so = []).
  { rewrite Hfl. destruct l as [|[[g a] p] l]; cbn in *.
    - tauto.
    - destruct Hlk as [-> _]. split; discriminate. }
  assert (Hval : forall x, Forall (fun a => a < length (filter_objs st ++ [x])) (s_filters so)).
  { intros x. rewrite Hfl. apply Forall_forall. intros a Ha.
    pose proof (linked_lt _ _ _ _ Hlk Ha). rewrite length_app. lia. }
  assert (Hgen : forall x, exists st1,
             (let* m := alloc_filter x in let* _ := Stream_append s m in ret s) st
               = (Ok s, st1) /\
             streams st1 !! s' = streams st !! s').
  { intros x. unfold bind at 1. unfold alloc_filter.
    destruct (Stream_append_spec (set_filter_objs (filter_objs st ++ [x]) st) s so
                (length (filter_objs st)) Hs Hinv (Hval x))
      as (st1 & Happ & Hst1 & _).
    exists st1. unfold bind. rewrite Happ. split; [reflexivity|].
    rewrite Hst1. cbn [streams set_filter_objs]. apply list_lookup_insert_ne. auto. }
  destruct o as [f|f i]; cbn [apply_op] in Hop; unfold Stream_map, Stream_reduce in Hop.
  - destruct (Hgen (mkFilter None (Mapper (lift1 f)))) as (st1 & H1 & H2).
    rewrite H1 in Hop. injection Hop as <-. exact H2.
  - destruct (Hgen (mkFilter None (Reducer (lift2 f) i i))) as (st1 & H1 & H2).
    rewrite H1 in Hop. injection Hop as <-. exact H2.
Qed.

Lemma build_frame ops : forall st s sid l st',
  stream_chain st s sid l ->
  build s ops st = (Ok s, st') ->
  forall s', s' <> s -> streams st' !! s' = streams st !! s'.
Proof.
  induction ops as [|o ops IH]; intros st s sid l st' Hc Hb s' Hne.
  - cbn in Hb. injection Hb as <-. reflexivity.
  - destruct (apply_op_chain st s sid l o Hc) as (st1 & Hop & Hc1 & _).
    cbn [build] in Hb. unfold bind in Hb. rewrite Hop in Hb.
    rewrite (IH st1 s sid _ st' Hc1 Hb s' Hne).
    exact (apply_op_frame st s sid l o st1 Hc Hop s' Hne).
Qed.

(** X15.  Stages appended before [join] run before the joiner.  When the left
    stream is [Stream().map(f1)...map(fn)] and is then joined with a new right
    stream, [left.process(x)] makes each mapper emit in turn and hands
    [fn(...f1(x)...)] to the joiner, which takes key and value from that
    payload: with [(k, b)] cached from the right and [fn(...f1(x)...)] equal
    to [(k, a)], the call ends with the joiner emitting [(k, (a, b))] stamped
    with the identity of the joined stream. *)
Theorem mappers_before_a_join st l r lid rid f fs max_size uuid x k a b :
  streams st !! l = Some (mkStream None [] lid) ->
  streams st !! r = Some (mkStream None [] rid) ->
  lid <> rid ->
  (0 < max_size)%Z ->
  b <> VNone ->
  compose_all (f :: fs) x = VTuple [k; a] ->
  exists st1 t st2 st3 st4 so,
    map_all l (f :: fs) st = (Ok l, st1) /\
    streams st1 !! l = Some so /\
    join l r max_size uuid st1 = (Ok t, st2) /\
    Stream_process r (VTuple [k; b]) st2 = (Ok tt, st3) /\
    Stream_process l x st3 = (Ok tt, st4) /\
    trace st4 = trace st ++
      zip (s_filters so) (mkElement lid <$> scan_all (f :: fs) x) ++
      [(length (filter_objs st1), mkElement uuid (VTuple [k; VTuple [a; b]]))].
Proof.
  intros Hl Hr Hid Hm Hb Hx.
  pose proof (stream_chain_fresh _ _ _ Hl) as Hc0.
  destruct (build_chain (total_map <$> (f :: fs)) st l lid [] Hc0)
    as (st1 & ll & Hb1 & Hc & Hst & Ht1 & _ & _).
  cbn [app] in Hc. rewrite <- map_all_build in Hb1.
  destruct ll as [|c ll]; [discriminate|].
  pose proof Hc as (so & Hso & Hsoid & Hfl & Hlk & Hsus & Hng & Hna & Hlen).
  assert (Hne : l <> r).
  { intros ->. rewrite Hl in Hr. congruence. }
  assert (Hr1 : streams st1 !! r = Some (mkStream None [] rid)).
  { rewrite map_all_build in Hb1.
    rewrite (build_frame _ st l lid [] st1 Hc0 Hb1 r) by auto. exact Hr. }
  destruct (join_behind_chain st1 l r lid rid c ll max_size uuid Hc Hr1 Hm)
    as (st2 & Hjoin & J1 & J2 & J3 & J4 & J5 & J6 & J7 & J8 & J9 & J10 & J11).
  set (t := length (streams st1)) in *. set (j := length (filter_objs st1)) in *.
  set (g := length (generators st1)) in *. set (n := Z.to_nat max_size) in *.
  set (sl := mkStream (Some (cell_gen c)) ((cell_addr <$> c :: ll) ++ [j]) lid) in *.
  set (stt := mkStream (Some (S (S g))) [j] uuid) in *.
  pose proof (lookup_lt_Some _ _ _ J9) as Hjlt.
  (* the arrival on the right is cached *)
  pose proof (arrival_stored st2 r (S g) [j] rid j (lrucache.mk n []) (lrucache.mk n [])
                l r t max_size sl stt (VTuple [k; b]) (lrucache.mk n []) (lrucache.mk n [(k, b)])
                J2 J7 J9 J1 J3 (step_first_right lid uuid rid n k b ltac:(congruence))) as Hp1.
  match type of Hp1 with _ = (_, ?s) => set (st3 := s) in * end.
  assert (Hj3 : filter_objs st3 !! j
                = Some (mkFilter None (Joiner (lrucache.mk n []) (lrucache.mk n [(k, b)])
                                         l r t max_size))).
  { subst st3. cbn [filter_objs set_filter_objs]. apply list_lookup_insert_eq. exact Hjlt. }
  assert (Hjn : j ∉ cell_addr <$> c :: ll).
  { intros Hin. pose proof (linked_lt _ _ _ _ Hlk Hin). unfold j in *. lia. }
  assert (Hgn : g ∉ cell_gen <$> c :: ll).
  { intros Hin. pose proof (suspended_lt _ _ _ Hsus Hin). unfold g in *. lia. }
  assert (Hlk3 : linked_to (filter_objs st3) (Some (cell_gen c)) (c :: ll) (Some g)).
  { eapply linked_to_frame; [|exact J4]. intros a0 Ha0. subst st3.
    cbn [filter_objs set_filter_objs]. apply list_lookup_insert_ne. intros <-. contradiction. }
  (* the arrival on the left goes through the mappers *)
  destruct (send_maps_then ll c (f :: fs) (S (length (generators st3))) (cell_gen c)
              (mkElement lid x) st3 g Hst Hlk3 J5 Hng)
    as (st_mid & M1 & M2 & M3 & M4 & M5 & M6 & M7 & _ & Hsend).
  cbn [stream_id data] in M5, Hsend.
  assert (Hgm : generators st_mid !! g = Some (mkGen j GSuspended)).
  { rewrite M7 by exact Hgn. exact J6. }
  assert (Hjm : filter_objs st_mid !! j
                = Some (mkFilter None (Joiner (lrucache.mk n []) (lrucache.mk n [(k, b)])
                                         l r t max_size))).
  { rewrite M2. exact Hj3. }
  assert (Hlm : streams st_mid !! l = Some sl) by (rewrite M1; exact J1).
  assert (Htm : streams st_mid !! t = Some stt) by (rewrite M1; exact J3).
  rewrite (send_joiner _ _ _ _ _ _ _ _ _ _ _ _ _ _ Hgm Hjm Hlm Htm) in Hsend.
  cbv zeta in Hsend. subst sl stt. cbn [s_id] in Hsend.
  rewrite Hx, (step_match_left lid uuid n k a b (lrucache.mk n []) Hb) in Hsend.
  cbn [fst snd] in Hsend.
  eexists st1, t, st2, st3, _, so.
  split; [exact Hb1|]. split; [exact Hso|]. split; [exact Hjoin|]. split; [exact Hp1|].
  split.
  - unfold Stream_process, bind, get_stream.
    change (streams st3) with (streams st2). rewrite J1. cbn [s_head s_id].
    rewrite (send_top_depth (length (c :: ll) + S (length (generators st3)))) by lia.
    exact Hsend.
  - rewrite trace_set_all. unfold set_gen_state, set_trace, set_generators.
    cbn [streams filter_objs generators world trace warnings].
    rewrite list_lookup_insert_eq by (rewrite M6; exact (lookup_lt_Some _ _ _ J6)).
    cbn [trace]. rewrite M5. subst st3. cbn [trace set_filter_objs].
    rewrite J10, Ht1, Hfl, <- app_assoc. reflexivity.
Qed.

Lemma mappers_before_a_join_witness :
  let st := mkStore [mkStream None [] "left"; mkStream None [] "right"] [] [] [] [] [] in
  let f := fun v => VTuple [VInt 7; v] in
  exists st1 t st2 st3 st4 so,
    map_all 0 (f :: []) st = (Ok 0, st1) /\
    streams st1 !! 0 = Some so /\
    join 0 1 128 "target" st1 = (Ok t, st2) /\
    Stream_process 1 (VTuple [VInt 7; VInt 2]) st2 = (Ok tt, st3) /\
    Stream_process 0 (VInt 1) st3 = (Ok tt, st4) /\
    trace st4 = trace st ++
      zip (s_filters so) (mkElement "left" <$> scan_all (f :: []) (VInt 1)) ++
      [(length (filter_objs st1),
        mkElement "target" (VTuple [VInt 7; VTuple [VInt 1; VInt 2]]))].
Proof.
  cbv zeta.
  apply (mappers_before_a_join
           (mkStore [mkStream None [] "left"; mkStream None [] "right"] [] [] [] [] [])
           0 1 "left" "right" (fun v => VTuple [VInt 7; v]) [] 128 "target"
           (VInt 1) (VInt 7) (VInt 1) (VInt 2)).
  - reflexivity.
  - reflexivity.
  - discriminate.
  - lia.
  - discriminate.
  - reflexivity.
Defined.

(** ** A fault behind a joiner *)

(** A matched arrival whose joined element makes a stage behind the joiner
    raise: the exception comes back through the generator the arrival came
    through and finishes it, together with the generators it crossed behind
    the joiner. *)
Lemma arrival_fault st s gs fs sid j nx cl cr l r t m sl stt ld d out c x :
  streams st !! s = Some (mkStream (Some gs) fs sid) ->
  generators st !! gs = Some (mkGen j GSuspended) ->
  filter_objs st !! j = Some (mkFilter nx (Joiner cl cr l r t m)) ->
  streams st !! l = Some sl ->
  streams st !! t = Some stt ->
  linked (filter_objs st) nx ld ->
  suspended (generators st) ld ->
  NoDup (cell_gen <$> ld) ->
  NoDup (cell_addr <$> ld) ->
  gs ∉ cell_gen <$> ld ->
  j ∉ cell_addr <$> ld ->
  length ld < length (generators st) ->
  Joiner_step (s_id sl) (s_id stt) cl cr (mkElement sid d) = (Ok (Some out), c) ->
  o_fault (run_chain (stream_id out) ld (data out)) = Some x ->
  exists st',
    Stream_process s d st = (Raise x, st') /\
    streams st' = streams st /\
    generators st' !! gs = Some (mkGen j GFinished) /\
    (forall g0, g0 <> gs -> g0 ∉ cell_gen <$> ld ->
       generators st' !! g0 = generators st !! g0) /\
    (forall g0, g0 ∈ o_finished (run_chain (stream_id out) ld (data out)) ->
       generators st' !! g0 = finish <$> generators st !! g0) /\
    filter_objs st' !! j = Some (mkFilter nx (Joiner c.1 c.2 l r t m)) /\
    trace st' = trace st ++ (j, out) :: o_outs (run_chain (stream_id out) ld (data out)).
Proof.
  intros Hs Hg Hj Hl Ht Hlk Hsus Hng Hna Hgn Hjn Hlen Hstep Hf.
  pose proof (lookup_lt_Some _ _ _ Hg) as Hglt.
  pose proof (lookup_lt_Some _ _ _ Hj) as Hjlt.
  unfold Stream_process, bind, get_stream. rewrite Hs. cbn [s_head s_id].
  unfold send_top. rewrite (send_joiner _ _ _ _ _ _ _ _ _ _ _ _ _ _ Hg Hj Hl Ht).
  cbv zeta. rewrite Hstep. cbn [fst snd].
  unfold set_trace. cbn [streams filter_objs generators world trace warnings].
  destruct nx as [g'|].
  2:{ apply linked_None in Hlk as ->. discriminate. }
  match goal with |- context [send _ g' out ?s] => set (st2 := s) end.
  destruct (send_chain ld (length (generators st)) g' out st2) as (st3 & Hsend & Hpost).
  { eapply linked_frame; [|exact Hlk]. intros a Ha. subst st2. cbn [filter_objs].
    apply list_lookup_insert_ne. intros ->. contradiction. }
  { eapply suspended_frame; [|exact Hsus]. intros g Hgin. subst st2. cbn [generators].
    apply list_lookup_insert_ne. intros ->. contradiction. }
  { exact Hng. } { exact Hna. } { lia. }
  rewrite Hsend.
  destruct Hpost as (P1 & P2 & P3 & P4 & P5 & P6 & P7 & P8 & P9).
  assert (Hg3 : generators st3 !! gs = Some (mkGen j GRunning)).
  { rewrite P6, decide_False.
    - subst st2. cbn [generators]. apply list_lookup_insert_eq. exact Hglt.
    - intros Hin. apply Hgn. eapply run_chain_finished, Hin. }
  pose proof (lookup_lt_Some _ _ _ Hg3) as Hg3lt.
  unfold result_of. rewrite Hf, (run_chain_fault_left _ _ _ _ Hf).
  eexists. split; [reflexivity|]. rewrite (set_gen_state_eq _ _ _ _ Hg3).
  cbn [streams filter_objs generators world trace warnings set_generators gen_self].
  split_and!.
  - exact P1.
  - apply list_lookup_insert_eq. exact Hg3lt.
  - intros g0 Hne Hnin. rewrite list_lookup_insert_ne by auto.
    rewrite P6, decide_False.
    + subst st2. cbn [generators]. apply list_lookup_insert_ne. auto.
    + intros Hin. apply Hnin. eapply run_chain_finished, Hin.
  - intros g0 Hin.
    assert (Hg0 : g0 ∈ cell_gen <$> ld) by (eapply run_chain_finished, Hin).
    rewrite list_lookup_insert_ne by (intros <-; contradiction).
    rewrite P6, decide_True by exact Hin.
    subst st2. cbn [generators]. rewrite list_lookup_insert_ne by (intros <-; contradiction).
    reflexivity.
  - rewrite P8 by exact Hjn. subst st2. cbn [filter_objs].
    apply list_lookup_insert_eq. exact Hjlt.
  - rewrite P4. subst st2. cbn [trace]. rewrite <- app_assoc. reflexivity.
Qed.

(** A matched arrival when the generator behind the joiner is finished: the
    [StopIteration] of the relay leaves the generator of the joiner as
    [RuntimeError]. *)
Lemma arrival_dead_next st s gs fs sid j g' a' cl cr l r t m sl stt d out c :
  streams st !! s = Some (mkStream (Some gs) fs sid) ->
  generators st !! gs = Some (mkGen j GSuspended) ->
  filter_objs st !! j = Some (mkFilter (Some g') (Joiner cl cr l r t m)) ->
  streams st !! l = Some sl ->
  streams st !! t = Some stt ->
  generators st !! g' = Some (mkGen a' GFinished) ->
  Joiner_step (s_id sl) (s_id stt) cl cr (mkElement sid d) = (Ok (Some out), c) ->
  exists st',
    Stream_process s d st = (Raise RuntimeError, st') /\
    streams st' = streams st /\
    generators st' !! gs = Some (mkGen j GFinished) /\
    trace st' = trace st ++ [(j, out)].
Proof.
  intros Hs Hg Hj Hl Ht Hg' Hstep.
  pose proof (lookup_lt_Some _ _ _ Hg) as Hglt.
  assert (Hne : g' <> gs) by (intros ->; rewrite Hg in Hg'; discriminate).
  unfold Stream_process, bind, get_stream. rewrite Hs. cbn [s_head s_id].
  unfold send_top. rewrite (send_joiner _ _ _ _ _ _ _ _ _ _ _ _ _ _ Hg Hj Hl Ht).
  cbv zeta. rewrite Hstep. cbn [fst snd].
  unfold set_trace. cbn [streams filter_objs generators world trace warnings].
  destruct (length (generators st)) as [|d0] eqn:Hlen; [lia|].
  cbn [send]. cbn [streams filter_objs generators world trace warnings].
  rewrite list_lookup_insert_ne by auto. rewrite Hg'. cbn [gen_state_of leaving_generator].
  eexists. split; [reflexivity|].
  unfold set_gen_state. cbn [streams filter_objs generators world trace warnings].
  rewrite list_lookup_insert_eq by lia.
  cbn [streams filter_objs generators world trace warnings set_generators gen_self].
  split_and!; try reflexivity.
  apply list_lookup_insert_eq. rewrite length_insert. lia.
Qed.

(** An arrival that the joiner stores, with stages behind the joiner. *)
Lemma arrival_stored_behind st s gs fs sid j nx cl cr l r t m sl stt d cl' cr' :
  streams st !! s = Some (mkStream (Some gs) fs sid) ->
  generators st !! gs = Some (mkGen j GSuspended) ->
  filter_objs st !! j = Some (mkFilter nx (Joiner cl cr l r t m)) ->
  streams st !! l = Some sl ->
  streams st !! t = Some stt ->
  Joiner_step (s_id sl) (s_id stt) cl cr (mkElement sid d) = (Ok None, (cl', cr')) ->
  Stream_process s d st =
    (Ok tt,
     set_filter_objs (<[j := mkFilter nx (Joiner cl' cr' l r t m)]> (filter_objs st)) st).
Proof.
  intros Hs Hg Hj Hl Ht Hstep.
  pose proof (lookup_lt_Some _ _ _ Hg) as Hglt.
  unfold Stream_process, bind, get_stream. rewrite Hs. cbn [s_head s_id].
  unfold send_top. rewrite (send_joiner _ _ _ _ _ _ _ _ _ _ _ _ _ _ Hg Hj Hl Ht).
  cbv zeta. rewrite Hstep. cbn [fst snd].
  unfold set_gen_state. cbn [generators].
  rewrite list_lookup_insert_eq by exact Hglt. cbn [gen_self].
  unfold set_generators, set_filter_objs.
  cbn [streams filter_objs generators world trace warnings].
  rewrite list_insert_insert_eq, (list_insert_id _ _ _ Hg). reflexivity.
Qed.

Lemma step_other_key_right lid tid sid n k a k2 b2 :
  sid <> lid -> k2 <> k ->
  Joiner_step lid tid (lrucache.mk n [(k, a)]) (lrucache.mk n [])
              (mkElement sid (VTuple [k2; b2]))
    = (Ok None, (lrucache.mk n [(k, a)], lrucache.mk n [(k2, b2)])).
Proof.
  intros Hne Hk. apply String.eqb_neq in Hne. rewrite Joiner_step_pair, Hne.
  rewrite get_miss by (cbn; rewrite (value_eqb_neq _ _ Hk); reflexivity).
  cbn [fst snd is_not_None]. rewrite set_empty. reflexivity.
Qed.

(** X16.  The joiner relays inside the generator of the stream that fed it,
    so a fault behind the joiner comes back through that stream.  With a
    mapper [h] behind the joiner that raises [e] on the pair joined from
    [(k, a)] and [(k, b)]: the right stream, which completed the pair, raises
    [e] and is finished, and so is the mapper.  The left stream is not, yet:
    its next arrival that finds a match is relayed to the finished mapper,
    whose [StopIteration] leaves the joiner as [RuntimeError] (PEP 479) and
    finishes the left stream as well; until then its unmatched arrivals are
    cached as before.  The joiner itself emitted both pairs. *)
Theorem fault_behind_a_joiner st l r lid rid max_size uuid h k a b k2 a2 b2 e :
  streams st !! l = Some (mkStream None [] lid) ->
  streams st !! r = Some (mkStream None [] rid) ->
  lid <> rid ->
  (0 < max_size)%Z ->
  a <> VNone ->
  b2 <> VNone ->
  k2 <> k ->
  h (VTuple [k; VTuple [a; b]]) = Raise e ->
  let j := length (filter_objs st) in
  exists t st1 st2 st3 st4 st5 st6,
    join l r max_size uuid st = (Ok t, st1) /\
    Stream_map t (lift1 h) st1 = (Ok t, st2) /\
    Stream_process l (VTuple [k; a]) st2 = (Ok tt, st3) /\
    Stream_process r (VTuple [k2; b2]) st3 = (Ok tt, st4) /\
    Stream_process r (VTuple [k; b]) st4 = (Raise (leaving_generator e), st5) /\
    (forall y, Stream_process r y st5 = (Raise StopIteration, st5)) /\
    (forall k3 a3, k3 <> k2 ->
       exists st', Stream_process l (VTuple [k3; a3]) st5 = (Ok tt, st')) /\
    Stream_process l (VTuple [k2; a2]) st5 = (Raise RuntimeError, st6) /\
    (forall y, Stream_process l y st6 = (Raise StopIteration, st6)) /\
    trace st6 = trace st ++
      [(j, mkElement uuid (VTuple [k; VTuple [a; b]]));
       (j, mkElement uuid (VTuple [k2; VTuple [a2; b2]]))].
Proof.
  intros Hl Hr Hid Hm Ha Hb2 Hk He j.
  assert (Hne : l <> r) by (intros ->; rewrite Hl in Hr; congruence).
  destruct (join_store st l r lid rid max_size uuid Hl Hr Hne Hm)
    as (st1 & Hjoin & Hsl & Hsr & Hst & Hgl & Hgr & Hgt & Hj & Htr & Hflen & Hglen & _).
  pose proof (lookup_lt_Some _ _ _ Hl) as Hllt.
  pose proof (lookup_lt_Some _ _ _ Hr) as Hrlt.
  set (t := length (streams st)) in *. fold j in Hsl, Hsr, Hst, Hgl, Hgr, Hgt, Hj, Hflen.
  set (g := length (generators st)) in *. set (n := Z.to_nat max_size) in *.
  set (c0 := lrucache.mk n []) in *.
  set (g3 := S (S (S g))). set (m := S j).
  set (sl := mkStream (Some g) [j] lid).
  set (sr := mkStream (Some (S g)) [j] rid).
  set (stt := mkStream (Some (S (S g))) [j; m] uuid).
  (* the mapper behind the joiner *)
  set (st2 := mkStore
                (<[t := stt]> (streams st1))
                (<[j := mkFilter (Some g3) (Joiner c0 c0 l r t max_size)]>
                   (filter_objs st1 ++ [mkFilter None (Mapper (lift1 h))]))
                (generators st1 ++ [mkGen m GSuspended])
                (world st1) (trace st1) (warnings st1)).
  assert (Hmap : Stream_map t (lift1 h) st1 = (Ok t, st2)).
  { unfold Stream_map. unfold bind at 1. unfold alloc_filter. rewrite Hflen. fold m.
    unfold bind at 1.
    erewrite (Stream_append_tail _ t (mkStream (Some (S (S g))) [j] uuid) (S (S g)) j
                (mkFilter None (Joiner c0 c0 l r t max_size)) m); cycle 1.
    { exact Hst. }
    { reflexivity. }
    { reflexivity. }
    { cbn [filter_objs set_filter_objs]. apply lookup_app_l_Some. exact Hj. }
    cbn [streams filter_objs generators world trace warnings set_filter_objs
         s_filters s_id app kind].
    rewrite Hglen. reflexivity. }
  assert (F1 : streams st2 !! l = Some sl).
  { unfold st2. cbn [streams]. rewrite list_lookup_insert_ne by (unfold t; lia). exact Hsl. }
  assert (F2 : streams st2 !! r = Some sr).
  { unfold st2. cbn [streams]. rewrite list_lookup_insert_ne by (unfold t; lia). exact Hsr. }
  assert (F3 : streams st2 !! t = Some stt).
  { unfold st2. cbn [streams]. apply list_lookup_insert_eq. exact (lookup_lt_Some _ _ _ Hst). }
  assert (F4 : generators st2 !! g = Some (mkGen j GSuspended)).
  { unfold st2. cbn [generators]. apply lookup_app_l_Some. exact Hgl. }
  assert (F5 : generators st2 !! S g = Some (mkGen j GSuspended)).
  { unfold st2. cbn [generators]. apply lookup_app_l_Some. exact Hgr. }
  assert (F6 : generators st2 !! g3 = Some (mkGen m GSuspended)).
  { unfold st2. cbn [generators]. apply list_lookup_middle. symmetry. exact Hglen. }
  assert (F7 : filter_objs st2 !! j = Some (mkFilter (Some g3) (Joiner c0 c0 l r t max_size))).
  { unfold st2. cbn [filter_objs]. apply list_lookup_insert_eq. rewrite length_app. lia. }
  assert (F8 : filter_objs st2 !! m = Some (mkFilter None (Mapper (lift1 h)))).
  { unfold st2. cbn [filter_objs]. rewrite list_lookup_insert_ne by (unfold m; lia).
    apply list_lookup_middle. symmetry. exact Hflen. }
  pose proof (lookup_lt_Some _ _ _ F7) as Hjlt.
  (* (k, a) on the left, (k2, b2) on the right: both cached *)
  pose proof (arrival_stored_behind st2 l g [j] lid j (Some g3) c0 c0 l r t max_size sl stt
                (VTuple [k; a]) (lrucache.mk n [(k, a)]) c0
                F1 F4 F7 F1 F3 (step_first_left lid uuid n k a)) as Hp1.
  match type of Hp1 with _ = (_, ?s) => set (st3 := s) in * end.
  assert (G7 : filter_objs st3 !! j
               = Some (mkFilter (Some g3) (Joiner (lrucache.mk n [(k, a)]) c0 l r t max_size))).
  { unfold st3. cbn [filter_objs set_filter_objs]. apply list_lookup_insert_eq. exact Hjlt. }
  pose proof (arrival_stored_behind st3 r (S g) [j] rid j (Some g3) (lrucache.mk n [(k, a)]) c0
                l r t max_size sl stt (VTuple [k2; b2])
                (lrucache.mk n [(k, a)]) (lrucache.mk n [(k2, b2)])
                F2 F5 G7 F1 F3
                (step_other_key_right lid uuid rid n k a k2 b2 ltac:(congruence) Hk)) as Hp2.
  match type of Hp2 with _ = (_, ?s) => set (st4 := s) in * end.
  assert (H7 : filter_objs st4 !! j
               = Some (mkFilter (Some g3)
                         (Joiner (lrucache.mk n [(k, a)]) (lrucache.mk n [(k2, b2)])
                                 l r t max_size))).
  { unfold st4. cbn [filter_objs set_filter_objs]. apply list_lookup_insert_eq.
    unfold st3. cbn [filter_objs set_filter_objs]. rewrite length_insert. exact Hjlt. }
  assert (H8 : filter_objs st4 !! m = Some (mkFilter None (Mapper (lift1 h)))).
  { unfold st4, st3. cbn [filter_objs set_filter_objs].
    rewrite !list_lookup_insert_ne by (unfold m; lia). exact F8. }
  (* (k, b) on the right completes a pair, on which the mapper raises *)
  set (out := mkElement uuid (VTuple [k; VTuple [a; b]])).
  assert (Hrun : run_chain uuid [(g3, m, PMap h)] (VTuple [k; VTuple [a; b]])
                 = mkOutcome (Some (leaving_generator e)) [(g3, m, PMap h)] [] [g3]).
  { cbn [run_chain stage_apply]. rewrite He. reflexivity. }
  destruct (arrival_fault st4 r (S g) [j] rid j (Some g3)
              (lrucache.mk n [(k, a)]) (lrucache.mk n [(k2, b2)]) l r t max_size sl stt
              [(g3, m, PMap h)] (VTuple [k; b]) out
              (lrucache.mk n [(k, a)], lrucache.mk n [(k2, b2)]) (leaving_generator e))
    as (st5 & Hp3 & S5 & G5r & G5o & G5f & F5j & T5).
  { exact F2. } { exact F5. } { exact H7. } { exact F1. } { exact F3. }
  { cbn. split; [reflexivity|]. exists None. split; [exact H8|reflexivity]. }
  { constructor; [exact F6|constructor]. }
  { cbn. apply NoDup_singleton. }
  { cbn. apply NoDup_singleton. }
  { cbn. rewrite list_elem_of_singleton. unfold g3. lia. }
  { cbn. rewrite list_elem_of_singleton. unfold m. lia. }
  { cbn [length]. change (generators st4) with (generators st2).
    pose proof (lookup_lt_Some _ _ _ F6). lia. }
  { cbn [s_id sl stt]. apply step_match_right; [congruence|exact Ha]. }
  { cbn [stream_id data out]. rewrite Hrun. reflexivity. }
  cbn [stream_id data out fst snd] in G5f, F5j, T5. rewrite Hrun in G5f, T5.
  cbn [o_finished o_outs] in G5f, T5.
  assert (G5l : generators st5 !! g = Some (mkGen j GSuspended)).
  { rewrite G5o; [exact F4|lia|]. cbn. rewrite list_elem_of_singleton. unfold g3. lia. }
  assert (G5m : generators st5 !! g3 = Some (mkGen m GFinished)).
  { rewrite G5f by (apply list_elem_of_singleton; reflexivity).
    change (generators st4) with (generators st2). rewrite F6. reflexivity. }
  (* (k2, a2) on the left finds a match and a finished mapper *)
  destruct (arrival_dead_next st5 l g [j] lid j g3 m
              (lrucache.mk n [(k, a)]) (lrucache.mk n [(k2, b2)]) l r t max_size sl stt
              (VTuple [k2; a2]) (mkElement uuid (VTuple [k2; VTuple [a2; b2]]))
              (lrucache.mk n [(k, a)], lrucache.mk n [(k2, b2)]))
    as (st6 & Hp4 & S6 & G6 & T6).
  { rewrite S5. exact F1. } { exact G5l. } { exact F5j. }
  { rewrite S5. exact F1. } { rewrite S5. exact F3. } { exact G5m. }
  { cbn [s_id sl stt]. apply step_match_left. exact Hb2. }
  exists t, st1, st2, st3, st4, st5, st6. split_and!; auto.
  - intros y. apply (process_finished st5 r (S g) [j] rid j y); [rewrite S5; exact F2|exact G5r].
  - intros k3 a3 Hk3. eexists.
    apply (arrival_stored_behind st5 l g [j] lid j (Some g3)
             (lrucache.mk n [(k, a)]) (lrucache.mk n [(k2, b2)]) l r t max_size sl stt
             (VTuple [k3; a3]) (lrucache.set k3 a3 (lrucache.mk n [(k, a)]))
             (lrucache.mk n [(k2, b2)])).
    + rewrite S5. exact F1.
    + exact G5l.
    + exact F5j.
    + rewrite S5. exact F1.
    + rewrite S5. exact F3.
    + cbn [s_id sl stt]. rewrite Joiner_step_pair, String.eqb_refl.
      rewrite get_miss by (cbn; rewrite (value_eqb_neq _ _ Hk3); reflexivity).
      reflexivity.
  - intros y. apply (process_finished st6 l g [j] lid j y); [|exact G6].
    rewrite S6, S5. exact F1.
  - rewrite T6, T5. change (trace st4) with (trace st1). rewrite Htr, <- app_assoc.
    reflexivity.
Qed.

Lemma fault_behind_a_joiner_witness :
  let st := mkStore [mkStream None [] "left"; mkStream None [] "right"] [] [] [] [] [] in
  let h := fun _ : value => @Raise value (UserError "boom") in
  exists t st1 st2 st3 st4 st5 st6,
    join 0 1 128 "target" st = (Ok t, st1) /\
    Stream_map t (lift1 h) st1 = (Ok t, st2) /\
    Stream_process 0 (VTuple [VInt 1; VInt 10]) st2 = (Ok tt, st3) /\
    Stream_process 1 (VTuple [VInt 2; VInt 21]) st3 = (Ok tt, st4) /\
    Stream_process 1 (VTuple [VInt 1; VInt 11]) st4
      = (Raise (leaving_generator (UserError "boom")), st5) /\
    (forall y, Stream_process 1 y st5 = (Raise StopIteration, st5)) /\
    (forall k3 a3, k3 <> VInt 2 ->
       exists st', Stream_process 0 (VTuple [k3; a3]) st5 = (Ok tt, st')) /\
    Stream_process 0 (VTuple [VInt 2; VInt 20]) st5 = (Raise RuntimeError, st6) /\
    (forall y, Stream_process 0 y st6 = (Raise StopIteration, st6)) /\
    trace st6 = trace st ++
      [(0, mkElement "target" (VTuple [VInt 1; VTuple [VInt 10; VInt 11]]));
       (0, mkElement "target" (VTuple [VInt 2; VTuple [VInt 20; VInt 21]]))].
Proof.
  cbv zeta.
  apply (fault_behind_a_joiner
           (mkStore [mkStream None [] "left"; mkStream None [] "right"] [] [] [] [] [])
           0 1 "left" "right" 128 "target" (fun _ => Raise (UserError "boom"))
           (VInt 1) (VInt 10) (VInt 11) (VInt 2) (VInt 20) (VInt 21) (UserError "boom")).
  - reflexivity.
  - reflexivity.
  - discriminate.
  - lia.
  - discriminate.
  - discriminate.
  - discriminate.
  - reflexivity.
Defined.

(** ** Below the capacity *)

Lemma lookup_app_hit k l1 l2 v :
  lrucache.lookup k l1 = Some v -> lrucache.lookup k (l1 ++ l2) = Some v.
Proof.
  induction l1 as [|[k' v'] l1 IH]; cbn; [discriminate|].
  destruct (value_eqb k k'); [auto|exact IH].
Qed.

Lemma lookup_NoDup k v l :
  NoDup l.*1 -> (k, v) ∈ l -> lrucache.lookup k l = Some v.
Proof.
  induction l as [|[k' v'] l IH]; intros Hnd Hin.
  - apply elem_of_nil in Hin. contradiction.
  - rewrite fmap_cons in Hnd. apply NoDup_cons in Hnd as [Hk Hnd]. cbn in Hk |- *.
    apply elem_of_cons in Hin as [[= <- <-]|Hin].
    + rewrite value_eqb_refl. reflexivity.
    + rewrite value_eqb_neq; [exact (IH Hnd Hin)|].
      intros <-. apply Hk. apply list_elem_of_fmap. exists (k, v). auto.
Qed.

(** X17.  Up to the capacity nothing is lost.  When a new joiner has received
    at most [max_size] arrivals on one side, under pairwise distinct keys, each
    of them is still cached: an arrival on the other side under the key of any
    of them whose value is not [None] is joined with it, whatever was fed in
    between on the first side. *)
Theorem no_loss_within_capacity lid tid sid sid' max_size c0 kvs k a b :
  lrucache.new max_size = Ok c0 ->
  String.eqb sid' lid = negb (String.eqb sid lid) ->
  NoDup kvs.*1 ->
  length kvs <= Z.to_nat max_size ->
  (k, a) ∈ kvs ->
  a <> VNone ->
  (Joiner_steps lid tid c0 c0
     (((fun kv => mkElement sid (pair_data kv)) <$> kvs)
        ++ [mkElement sid' (VTuple [k; b])])).1
    = replicate (length kvs) (Ok None) ++
      [Ok (Some (mkElement tid
                   (VTuple [k; if String.eqb sid lid
                               then VTuple [a; b] else VTuple [b; a]])))].
Proof.
  intros Hc0 Hside Hnd Hlen Hin Ha.
  apply new_inv in Hc0 as [Hpos ->]. set (m := Z.to_nat max_size) in *.
  assert (Hm : 0 < m) by (subst m; lia).
  rewrite Joiner_steps_app. cbv zeta.
  destruct (Joiner_steps_unmatched lid tid sid kvs (lrucache.mk m []) (lrucache.mk m []))
    as (cl1 & cr1 & Hrun & Hown & Hopp).
  { apply Forall_forall. intros kv _. unfold opposite_cache.
    destruct (String.eqb sid lid); reflexivity. }
  rewrite Hrun. cbn [fst snd]. f_equal.
  assert (Hown0 : own_cache lid sid (lrucache.mk m []) (lrucache.mk m []) = lrucache.mk m []).
  { unfold own_cache. destruct (String.eqb sid lid); reflexivity. }
  rewrite Hown0 in Hown.
  destruct (sets_table_prefix kvs (lrucache.mk m [])) as [rest Hrest].
  { exact Hm. } { unfold within_capacity. cbn. lia. } { exact Hnd. }
  cbn [lrucache.size] in Hrest.
  rewrite take_ge in Hrest by (rewrite length_reverse; lia).
  assert (Hlk : lrucache.lookup k (lrucache.table (own_cache lid sid cl1 cr1)) = Some a).
  { rewrite Hown, Hrest. apply lookup_app_hit, lookup_NoDup.
    - rewrite fmap_reverse, reverse_Permutation. exact Hnd.
    - apply elem_of_reverse. exact Hin. }
  cbn [Joiner_steps]. rewrite Joiner_step_pair, Hside.
  unfold own_cache in Hlk.
  destruct (String.eqb sid lid); cbn [negb]; rewrite (get_hit _ _ _ Hlk); cbn [fst snd];
    rewrite (is_not_None_true _ Ha); reflexivity.
Qed.

Lemma no_loss_within_capacity_witness :
  (Joiner_steps "left" "target" (lrucache.mk 2 []) (lrucache.mk 2 [])
     (((fun kv => mkElement "right" (pair_data kv)) <$> [(VInt 1, VInt 10); (VInt 2, VInt 20)])
        ++ [mkElement "left" (VTuple [VInt 1; VInt 5])])).1
    = replicate (length [(VInt 1, VInt 10); (VInt 2, VInt 20)]) (Ok None) ++
      [Ok (Some (mkElement "target"
                   (VTuple [VInt 1; if String.eqb "right" "left"
                                    then VTuple [VInt 10; VInt 5]
                                    else VTuple [VInt 5; VInt 10]])))].
Proof.
  apply (no_loss_within_capacity "left" "target" "right" "left" 2 (lrucache.mk 2 [])
           [(VInt 1, VInt 10); (VInt 2, VInt 20)] (VInt 1) (VInt 10) (VInt 5)).
  - reflexivity.
  - reflexivity.
  - cbn. repeat constructor; rewrite ?elem_of_cons, ?elem_of_nil; intuition discriminate.
  - cbn. lia.
  - apply elem_of_cons. left. reflexivity.
  - discriminate.
Defined.

(** ** A joined stream joined again *)

(** A matched arrival whose joined element a second joiner, behind the first,
    stores: both joiners are updated, and every generator is suspended again. *)
Lemma arrival_relayed st s gs fs sid j1 g' j2 cl cr l r t m sl stt
    cl2 cr2 l2 r2 t2 m2 sl2 stt2 d out c cl2' cr2' :
  streams st !! s = Some (mkStream (Some gs) fs sid) ->
  generators st !! gs = Some (mkGen j1 GSuspended) ->
  filter_objs st !! j1 = Some (mkFilter (Some g') (Joiner cl cr l r t m)) ->
  streams st !! l = Some sl ->
  streams st !! t = Some stt ->
  generators st !! g' = Some (mkGen j2 GSuspended) ->
  filter_objs st !! j2 = Some (mkFilter None (Joiner cl2 cr2 l2 r2 t2 m2)) ->
  streams st !! l2 = Some sl2 ->
  streams st !! t2 = Some stt2 ->
  Joiner_step (s_id sl) (s_id stt) cl cr (mkElement sid d) = (Ok (Some out), c) ->
  Joiner_step (s_id sl2) (s_id stt2) cl2 cr2 out = (Ok None, (cl2', cr2')) ->
  Stream_process s d st =
    (Ok tt,
     mkStore (streams st)
       (<[j2 := mkFilter None (Joiner cl2' cr2' l2 r2 t2 m2)]>
          (<[j1 := mkFilter (Some g') (Joiner c.1 c.2 l r t m)]> (filter_objs st)))
       (generators st) (world st) (trace st ++ [(j1, out)]) (warnings st)).
Proof.
  intros Hs Hg Hj Hl Ht Hg' Hj' Hl2 Ht2 Hstep Hstep2.
  pose proof (lookup_lt_Some _ _ _ Hg) as Hglt.
  pose proof (lookup_lt_Some _ _ _ Hg') as Hg'lt.
  assert (Hjne : j1 <> j2) by (intros ->; rewrite Hj in Hj'; discriminate).
  assert (Hgne : gs <> g') by (intros ->; rewrite Hg in Hg'; congruence).
  unfold Stream_process, bind, get_stream. rewrite Hs. cbn [s_head s_id].
  unfold send_top. rewrite (send_joiner _ _ _ _ _ _ _ _ _ _ _ _ _ _ Hg Hj Hl Ht).
  cbv zeta. rewrite Hstep. cbn [fst snd].
  unfold set_trace. cbn [streams filter_objs generators world trace warnings].
  destruct (length (generators st)) as [|d0] eqn:Hlen; [lia|].
  erewrite (send_joiner d0 g' j2 None cl2 cr2 l2 r2 t2 m2 sl2 stt2); cycle 1.
  { cbn [generators]. rewrite list_lookup_insert_ne by auto. exact Hg'. }
  { cbn [filter_objs]. rewrite list_lookup_insert_ne by auto. exact Hj'. }
  { exact Hl2. }
  { exact Ht2. }
  cbv zeta. rewrite Hstep2. cbn [fst snd].
  unfold set_gen_state. cbn [streams filter_objs generators world trace warnings].
  rewrite list_lookup_insert_eq by (rewrite length_insert; lia).
  cbn [streams filter_objs generators world trace warnings set_generators gen_self].
  rewrite list_insert_insert_eq.
  rewrite list_lookup_insert_ne by auto.
  rewrite list_lookup_insert_eq by lia.
  cbn [streams filter_objs generators world trace warnings set_generators gen_self].
  rewrite (list_insert_insert_ne _ gs g') by auto.
  rewrite list_insert_insert_eq.
  rewrite (list_insert_id _ gs _ Hg).
  rewrite (list_insert_id _ g' _ Hg'). reflexivity.
Qed.

(** [join] when the left stream already has a head: the joiner is linked
    behind the last filter of the left stream, whatever that filter is. *)
Lemma join_onto st l r hd fl lid rid tl fo max_size uuid :
  streams st !! l = Some (mkStream (Some hd) fl lid) ->
  last fl = Some tl ->
  filter_objs st !! tl = Some fo ->
  streams st !! r = Some (mkStream None [] rid) ->
  (0 < max_size)%Z ->
  let t := length (streams st) in
  let j := length (filter_objs st) in
  let g := length (generators st) in
  let c0 := lrucache.mk (Z.to_nat max_size) [] in
  exists st1,
    join l r max_size uuid st = (Ok t, st1) /\
    streams st1 !! l = Some (mkStream (Some hd) (fl ++ [j]) lid) /\
    streams st1 !! r = Some (mkStream (Some (S g)) [j] rid) /\
    streams st1 !! t = Some (mkStream (Some (S (S g))) [j] uuid) /\
    (forall s', s' <> l -> s' <> r -> s' < t -> streams st1 !! s' = streams st !! s') /\
    (forall g0, g0 < g -> generators st1 !! g0 = generators st !! g0) /\
    generators st1 !! g = Some (mkGen j GSuspended) /\
    generators st1 !! S g = Some (mkGen j GSuspended) /\
    generators st1 !! S (S g) = Some (mkGen j GSuspended) /\
    filter_objs st1 !! tl = Some (mkFilter (Some g) (kind fo)) /\
    filter_objs st1 !! j = Some (mkFilter None (Joiner c0 c0 l r t max_size)) /\
    (forall a, a <> tl -> a < j -> filter_objs st1 !! a = filter_objs st !! a) /\
    trace st1 = trace st.
Proof.
  intros Hl Hlast Hfo Hr Hm t j g c0.
  assert (Hne : l <> r) by (intros ->; rewrite Hl in Hr; discriminate).
  pose proof (lookup_lt_Some _ _ _ Hl) as Hllt.
  pose proof (lookup_lt_Some _ _ _ Hr) as Hrlt.
  pose proof (lookup_lt_Some _ _ _ Hfo) as Htllt.
  eexists. split.
  { unfold join. unfold bind at 1. unfold Stream_new, alloc_stream. cbn [default].
    unfold bind at 1. unfold Joiner_new, lrucache.new.
    destruct (Z.ltb_spec 0 max_size) as [_|Hc]; [|lia].
    unfold alloc_filter, set_streams, set_filter_objs.
    cbn [streams filter_objs generators world trace warnings].
    fold t j c0.
    unfold bind at 1.
    erewrite (Stream_append_tail _ l (mkStream (Some hd) fl lid) hd tl fo j); cycle 1.
    { cbn [streams]. apply lookup_app_l_Some. exact Hl. }
    { reflexivity. }
    { exact Hlast. }
    { cbn [filter_objs]. apply lookup_app_l_Some. exact Hfo. }
    cbn [streams filter_objs generators world trace warnings s_filters s_id].
    unfold bind at 1.
    erewrite (Stream_append_head _ r (mkStream None [] rid) j); cycle 1.
    { cbn [streams]. rewrite list_lookup_insert_ne by exact Hne.
      apply lookup_app_l_Some. exact Hr. }
    { reflexivity. }
    cbn [streams filter_objs generators world trace warnings s_filters s_id app].
    unfold bind at 1.
    erewrite (Stream_append_head _ t (mkStream None [] uuid) j); cycle 1.
    { cbn [streams]. subst t. rewrite !list_lookup_insert_ne by lia.
      apply list_lookup_middle. reflexivity. }
    { reflexivity. }
    cbn [streams filter_objs generators world trace warnings s_filters s_id app].
    unfold ret. rewrite !length_app. cbn [length]. fold g.
    replace (g + 1) with (S g) by lia. replace (S g + 1) with (S (S g)) by lia.
    reflexivity. }
  cbn [streams filter_objs generators world trace warnings].
  split_and!.
  - rewrite list_lookup_insert_ne by (subst t; lia).
    rewrite list_lookup_insert_ne by auto.
    apply list_lookup_insert_eq. rewrite length_app. lia.
  - rewrite list_lookup_insert_ne by (subst t; lia).
    apply list_lookup_insert_eq. rewrite length_insert, length_app. lia.
  - apply list_lookup_insert_eq. rewrite !length_insert, length_app. simpl. subst t. lia.
  - intros s' H1 H2 H3. rewrite !list_lookup_insert_ne by (try (subst t); lia || auto).
    apply lookup_app_l. exact H3.
  - intros g0 Hg0. rewrite !lookup_app_l by (rewrite ?length_app; cbn; unfold g in *; lia).
    reflexivity.
  - rewrite lookup_app_l by (rewrite !length_app; simpl; unfold g; lia).
    rewrite lookup_app_l by (rewrite !length_app; simpl; unfold g; lia).
    apply list_lookup_middle. reflexivity.
  - rewrite lookup_app_l by (rewrite !length_app; simpl; unfold g; lia).
    apply list_lookup_middle. rewrite length_app. simpl. unfold g. lia.
  - apply list_lookup_middle. rewrite !length_app. simpl. unfold g. lia.
  - apply list_lookup_insert_eq. rewrite length_app. lia.
  - rewrite list_lookup_insert_ne by (unfold j; lia).
    apply list_lookup_middle. reflexivity.
  - intros a0 H1 H2. rewrite list_lookup_insert_ne by auto.
    apply lookup_app_l. exact H2.
  - reflexivity.
Qed.

(** X18.  Joins cascade, because a joiner stamps what it emits with the
    identity of the stream that [join] returned.  When that stream is joined
    in turn with a third one, the pair that the first joiner emits for
    [(k, a)] and [(k, b)] reaches the second joiner as an arrival on its left
    side and is cached there; [(k, c)] on the third stream is then joined with
    it, and the second joiner emits [(k, ((a, b), c))]. *)
Theorem joins_cascade st l r q lid rid qid max_size uuid1 uuid2 k a b c :
  streams st !! l = Some (mkStream None [] lid) ->
  streams st !! r = Some (mkStream None [] rid) ->
  streams st !! q = Some (mkStream None [] qid) ->
  l <> r -> q <> l -> q <> r ->
  lid <> rid ->
  qid <> uuid1 ->
  (0 < max_size)%Z ->
  a <> VNone ->
  let j1 := length (filter_objs st) in
  exists t st1 u st2 st3 st4 st5,
    join l r max_size uuid1 st = (Ok t, st1) /\
    join t q max_size uuid2 st1 = (Ok u, st2) /\
    Stream_process l (VTuple [k; a]) st2 = (Ok tt, st3) /\
    Stream_process r (VTuple [k; b]) st3 = (Ok tt, st4) /\
    Stream_process q (VTuple [k; c]) st4 = (Ok tt, st5) /\
    trace st5 = trace st ++
      [(j1, mkElement uuid1 (VTuple [k; VTuple [a; b]]));
       (S j1, mkElement uuid2 (VTuple [k; VTuple [VTuple [a; b]; c]]))].
Proof.
  intros Hl Hr Hq Hlr Hql Hqr Hid Hqid Hm Ha j1.
  destruct (join_store st l r lid rid max_size uuid1 Hl Hr Hlr Hm)
    as (st1 & Hjoin & Hsl & Hsr & Hst & Hgl & Hgr & Hgt & Hj & Htr & Hflen & Hglen
        & Hslen & Hsq).
  pose proof (lookup_lt_Some _ _ _ Hl) as Hllt.
  pose proof (lookup_lt_Some _ _ _ Hr) as Hrlt.
  pose proof (lookup_lt_Some _ _ _ Hq) as Hqlt.
  set (t := length (streams st)) in *. fold j1 in Hsl, Hsr, Hst, Hgl, Hgr, Hgt, Hj, Hflen.
  set (g := length (generators st)) in *. set (n := Z.to_nat max_size) in *.
  set (c0 := lrucache.mk n []) in *.
  set (g4 := S (S (S g))). set (j2 := S j1).
  (* the second join, onto the stream that the first one returned *)
  destruct (join_onto st1 t q (S (S g)) [j1] uuid1 qid j1
              (mkFilter None (Joiner c0 c0 l r t max_size)) max_size uuid2)
    as (st2 & Hjoin2 & K1 & K2 & K3 & K4 & K5 & K6 & K7 & K8 & K9 & K10 & K11 & K12).
  { exact Hst. } { reflexivity. } { exact Hj. }
  { rewrite Hsq by (auto || (unfold t; lia)). exact Hq. }
  { exact Hm. }
  rewrite Hslen, Hflen, Hglen in *. fold g4 j2 in K2, K3, K6, K7, K8, K9, K10.
  cbn [kind] in K9. fold c0 in K10.
  set (u := S t) in *.
  set (sl := mkStream (Some g) [j1] lid).
  set (stt := mkStream (Some (S (S g))) ([j1] ++ [j2]) uuid1) in *.
  set (su := mkStream (Some (S (S g4))) [j2] uuid2) in *.
  assert (L1 : streams st2 !! l = Some sl).
  { rewrite K4 by (auto || (unfold t, u; lia)). exact Hsl. }
  assert (L2 : streams st2 !! r = Some (mkStream (Some (S g)) [j1] rid)).
  { rewrite K4 by (auto || (unfold t, u; lia)). exact Hsr. }
  assert (G1 : generators st2 !! g = Some (mkGen j1 GSuspended)).
  { rewrite K5 by (unfold g4; lia). exact Hgl. }
  assert (G2 : generators st2 !! S g = Some (mkGen j1 GSuspended)).
  { rewrite K5 by (unfold g4; lia). exact Hgr. }
  pose proof (lookup_lt_Some _ _ _ K9) as Hj1lt.
  pose proof (lookup_lt_Some _ _ _ K10) as Hj2lt.
  (* (k, a) on the left *)
  pose proof (arrival_stored_behind st2 l g [j1] lid j1 (Some g4) c0 c0 l r t max_size sl stt
                (VTuple [k; a]) (lrucache.mk n [(k, a)]) c0
                L1 G1 K9 L1 K1 (step_first_left lid uuid1 n k a)) as Hp1.
  match type of Hp1 with _ = (_, ?s) => set (st3 := s) in * end.
  (* (k, b) on the right: joined by the first joiner, cached by the second *)
  pose proof (arrival_relayed st3 r (S g) [j1] rid j1 g4 j2
                (lrucache.mk n [(k, a)]) c0 l r t max_size sl stt
                c0 c0 t q u max_size stt su
                (VTuple [k; b]) (mkElement uuid1 (VTuple [k; VTuple [a; b]]))
                (lrucache.mk n [(k, a)], c0)
                (lrucache.mk n [(k, VTuple [a; b])]) c0) as Hp2.
  match type of Hp2 with _ -> _ -> _ -> _ -> _ -> _ -> _ -> _ -> _ -> _ -> _ -> _ = (_, ?s) =>
    set (st4 := s) in * end.
  assert (Hp2' : Stream_process r (VTuple [k; b]) st3 = (Ok tt, st4)).
  { apply Hp2.
    - exact L2.
    - exact G2.
    - unfold st3. cbn [filter_objs set_filter_objs]. apply list_lookup_insert_eq. exact Hj1lt.
    - exact L1.
    - exact K1.
    - exact K6.
    - unfold st3. cbn [filter_objs set_filter_objs].
      rewrite list_lookup_insert_ne by (unfold j2; lia). exact K10.
    - exact K1.
    - exact K3.
    - cbn [s_id sl stt]. apply step_match_right; [congruence|exact Ha].
    - cbn [s_id stt su]. apply step_first_left. }
  clear Hp2.
  (* (k, c) on the third stream *)
  destruct (arrival_matched st4 q (S g4) [j2] qid j2 (lrucache.mk n [(k, VTuple [a; b])]) c0
              t q u max_size stt su (VTuple [k; c])
              (mkElement uuid2 (VTuple [k; VTuple [VTuple [a; b]; c]]))
              (lrucache.mk n [(k, VTuple [a; b])], c0))
    as (st5 & Hp3 & Htr5).
  { exact K2. }
  { exact K7. }
  { unfold st4. cbn [filter_objs]. apply list_lookup_insert_eq.
    rewrite length_insert. unfold st3. cbn [filter_objs set_filter_objs].
    rewrite length_insert. exact Hj2lt. }
  { exact K1. }
  { exact K3. }
  { cbn [s_id stt su]. apply step_match_right; [exact Hqid|discriminate]. }
  exists t, st1, u, st2, st3, st4, st5. split_and!; auto.
  rewrite Htr5. unfold st4, st3. cbn [trace set_filter_objs].
  rewrite K12, Htr, <- app_assoc. reflexivity.
Qed.

Lemma joins_cascade_witness :
  let st := mkStore [mkStream None [] "l"; mkStream None [] "r"; mkStream None [] "q"]
              [] [] [] [] [] in
  exists t st1 u st2 st3 st4 st5,
    join 0 1 128 "t" st = (Ok t, st1) /\
    join t 2 128 "u" st1 = (Ok u, st2) /\
    Stream_process 0 (VTuple [VInt 7; VInt 1]) st2 = (Ok tt, st3) /\
    Stream_process 1 (VTuple [VInt 7; VInt 2]) st3 = (Ok tt, st4) /\
    Stream_process 2 (VTuple [VInt 7; VInt 3]) st4 = (Ok tt, st5) /\
    trace st5 = trace st ++
      [(0, mkElement "t" (VTuple [VInt 7; VTuple [VInt 1; VInt 2]]));
       (1, mkElement "u" (VTuple [VInt 7; VTuple [VTuple [VInt 1; VInt 2]; VInt 3]]))].
Proof.
  cbv zeta.
  apply (joins_cascade
           (mkStore [mkStream None [] "l"; mkStream None [] "r"; mkStream None [] "q"]
              [] [] [] [] [])
           0 1 2 "l" "r" "q" 128 "t" "u" (VInt 7) (VInt 1) (VInt 2) (VInt 3)).
  - reflexivity.
  - reflexivity.
  - reflexivity.
  - lia.
  - lia.
  - lia.
  - discriminate.
  - discriminate.
  - lia.
  - discriminate.
Defined.

(** ** Pipelines that share nothing *)

(** X19.  What happens in one pipeline stays there.  When two streams are
    chains of mappers and reducers with no filter and no generator in common,
    a [process] call on the first, whether it returns or raises, leaves the
    second the chain it was, with the accumulators it had: the second stream
    goes on as if the call had not been made. *)
Theorem fault_stays_in_its_pipeline st s1 sid1 l1 s2 sid2 l2 x y :
  stream_chain st s1 sid1 l1 ->
  stream_chain st s2 sid2 l2 ->
  (forall g, g ∈ cell_gen <$> l1 -> g ∉ cell_gen <$> l2) ->
  (forall a, a ∈ cell_addr <$> l1 -> a ∉ cell_addr <$> l2) ->
  exists st1 st2,
    Stream_process s1 x st = (result_of (run_chain sid1 l1 x), st1) /\
    stream_chain st1 s2 sid2 l2 /\
    Stream_process s2 y st1 = (result_of (run_chain sid2 l2 y), st2) /\
    trace st2 = trace st ++ o_outs (run_chain sid1 l1 x) ++ o_outs (run_chain sid2 l2 y).
Proof.
  intros Hc1 Hc2 Hgd Had.
  assert (Hstep : exists st1,
             Stream_process s1 x st = (result_of (run_chain sid1 l1 x), st1) /\
             stream_chain st1 s2 sid2 l2 /\
             trace st1 = trace st ++ o_outs (run_chain sid1 l1 x)).
  { destruct Hc1 as (so & Hs & Hid & Hfl & Hlk & Hsus & Hng & Hna & Hlen).
    unfold Stream_process, bind, get_stream. rewrite Hs.
    destruct (s_head so) as [it|] eqn:Hh.
    - destruct (send_chain l1 (S (length (generators st))) it (mkElement (s_id so) x) st
                  Hlk Hsus Hng Hna ltac:(lia))
        as (st1 & Hsend & P1 & P2 & P3 & P4 & P5 & P6 & P7 & P8 & P9).
      cbn [stream_id data] in Hsend, P4, P6. subst sid1.
      exists st1. unfold send_top. split; [exact Hsend|]. split; [|exact P4].
      apply (stream_chain_frame st st1 s2 sid2 l2 Hc2).
      + rewrite P1. reflexivity.
      + intros a Ha. apply P8. intros Hin. exact (Had a Hin Ha).
      + intros g Hg. rewrite P6, decide_False; [reflexivity|].
        intros Hin. apply run_chain_finished in Hin. exact (Hgd g Hin Hg).
      + lia.
    - apply linked_None in Hlk as ->. exists st. cbn. rewrite app_nil_r. auto. }
  destruct Hstep as (st1 & Hp1 & Hc2' & Ht1).
  destruct (process_chain st1 s2 sid2 l2 y Hc2') as (st2 & Hp2 & _ & _ & _ & Ht2 & _).
  exists st1, st2. split_and!; auto.
  rewrite Ht2, Ht1, <- app_assoc. reflexivity.
Qed.

Lemma fault_stays_in_its_pipeline_witness :
  let boom := (fun _ : value => @Raise value (UserError "boom")) in
  let keep := (fun v : value => Ok (VTuple [v])) in
  let st := mkStore [mkStream (Some 0) [0] "a"; mkStream (Some 1) [1] "b"]
              [mkFilter None (Mapper (lift1 boom)); mkFilter None (Mapper (lift1 keep))]
              [mkGen 0 GSuspended; mkGen 1 GSuspended] [] [] [] in
  exists st1 st2,
    Stream_process 0 (VInt 1) st = (result_of (run_chain "a" [(0, 0, PMap boom)] (VInt 1)), st1) /\
    stream_chain st1 1 "b" [(1, 1, PMap keep)] /\
    Stream_process 1 (VInt 2) st1
      = (result_of (run_chain "b" [(1, 1, PMap keep)] (VInt 2)), st2) /\
    trace st2 = trace st ++ o_outs (run_chain "a" [(0, 0, PMap boom)] (VInt 1))
                  ++ o_outs (run_chain "b" [(1, 1, PMap keep)] (VInt 2)).
Proof.
  cbv zeta.
  apply (fault_stays_in_its_pipeline
           (mkStore [mkStream (Some 0) [0] "a"; mkStream (Some 1) [1] "b"]
              [mkFilter None (Mapper (lift1 (fun _ : value => @Raise value (UserError "boom"))));
               mkFilter None (Mapper (lift1 (fun v : value => Ok (VTuple [v]))))]
              [mkGen 0 GSuspended; mkGen 1 GSuspended] [] [] [])
           0 "a" [(0, 0, PMap (fun _ : value => @Raise value (UserError "boom")))]
           1 "b" [(1, 1, PMap (fun v : value => Ok (VTuple [v])))] (VInt 1) (VInt 2)).
  - exists (mkStream (Some 0) [0] "a"). cbn.
    split_and!; try reflexivity.
    all: try apply NoDup_singleton.
    all: try (repeat constructor; fail).
    all: try (exists None; split; reflexivity).
    all: try lia.
  - exists (mkStream (Some 1) [1] "b"). cbn.
    split_and!; try reflexivity.
    all: try apply NoDup_singleton.
    all: try (repeat constructor; fail).
    all: try (exists None; split; reflexivity).
    all: try lia.
  - cbn. intros g Hg Hg'. apply list_elem_of_singleton in Hg, Hg'. lia.
  - cbn. intros g Hg Hg'. apply list_elem_of_singleton in Hg, Hg'. lia.
Defined.

(** ** A pipeline that grows while in use *)

Lemma process_all_one_reducer s sid f initial g r : forall xs st acc,
  stream_chain st s sid [(g, r, PReduce (fun x acc => Ok (f x acc)) acc initial)] ->
  exists st',
    process_all s xs st = (Ok tt, st') /\
    stream_chain st' s sid
      [(g, r, PReduce (fun x acc => Ok (f x acc)) (fold_inputs f acc xs) initial)].
Proof.
  induction xs as [|x xs IH]; intros st acc Hc.
  - exists st. split; [reflexivity|exact Hc].
  - destruct (process_chain st s sid _ x Hc) as (st1 & Hp & _ & _ & _ & _ & Hc1 & _).
    cbn [run_chain stage_apply result_of o_fault o_chain fmap option_fmap option_map] in Hp, Hc1.
    destruct (IH st1 (f x acc) (Hc1 eq_refl)) as (st2 & Hps & Hc2).
    exists st2. cbn [process_all]. unfold bind. rewrite Hp. split; [exact Hps|exact Hc2].
Qed.

(** X20.  A stage can be appended to a stream that has already processed
    elements.  The stages before it keep the state they have: after
    [reduce(f, initial)] has folded the elements [xs], a [map(g)] appended then
    receives, for the next element [y], [f] of [y] and the fold over [xs], not
    a fold restarted from [initial], and it receives nothing of the elements
    processed before it was appended. *)
Theorem stage_appended_to_a_used_stream st s sid f initial xs g y :
  streams st !! s = Some (mkStream None [] sid) ->
  let r := length (filter_objs st) in
  exists st1 st2 st3 st4,
    Stream_reduce s (pure2 f) initial st = (Ok s, st1) /\
    process_all s xs st1 = (Ok tt, st2) /\
    Stream_map s (pure1 g) st2 = (Ok s, st3) /\
    Stream_process s y st3 = (Ok tt, st4) /\
    trace st3 = trace st2 /\
    trace st4 = trace st3 ++
      [(r, mkElement sid (f y (fold_inputs f initial xs)));
       (length (filter_objs st2), mkElement sid (g (f y (fold_inputs f initial xs))))].
Proof.
  intros Hs r. apply stream_chain_fresh in Hs.
  destruct (new_stage_chain st s sid [] (PReduce (fun x acc => Ok (f x acc)) initial initial) Hs)
    as (st1 & Hb1 & Hc1 & _).
  cbn [app] in Hc1. fold r in Hc1.
  destruct (process_all_one_reducer s sid f initial _ r xs st1 initial Hc1)
    as (st2 & Hp & Hc2).
  destruct (new_stage_chain st2 s sid _ (PMap (fun x => Ok (g x))) Hc2)
    as (st3 & Hb3 & Hc3 & Ht3 & _).
  cbn [app] in Hc3.
  destruct (process_chain st3 s sid _ y Hc3) as (st4 & Hp4 & _ & _ & _ & Ht4 & _).
  exists st1, st2, st3, st4. split_and!.
  - exact Hb1.
  - exact Hp.
  - exact Hb3.
  - exact Hp4.
  - exact Ht3.
  - rewrite Ht4. reflexivity.
Qed.

Lemma stage_appended_to_a_used_stream_witness :
  let st := mkStore [mkStream None [] "s"] [] [] [] [] [] in
  let f := fun x acc : value => VTuple [x; acc] in
  let g := fun v : value => VTuple [v] in
  exists st1 st2 st3 st4,
    Stream_reduce 0 (pure2 f) VNone st = (Ok 0, st1) /\
    process_all 0 [VInt 1; VInt 2] st1 = (Ok tt, st2) /\
    Stream_map 0 (pure1 g) st2 = (Ok 0, st3) /\
    Stream_process 0 (VInt 3) st3 = (Ok tt, st4) /\
    trace st3 = trace st2 /\
    trace st4 = trace st3 ++
      [(length (filter_objs st), mkElement "s" (f (VInt 3) (fold_inputs f VNone [VInt 1; VInt 2])));
       (length (filter_objs st2),
        mkElement "s" (g (f (VInt 3) (fold_inputs f VNone [VInt 1; VInt 2]))))].
Proof.
  cbv zeta.
  apply (stage_appended_to_a_used_stream (mkStore [mkStream None [] "s"] [] [] [] [] [])
           0 "s" (fun x acc : value => VTuple [x; acc]) VNone [VInt 1; VInt 2]
           (fun v : value => VTuple [v]) (VInt 3)).
  reflexivity.
Defined.

(** ** A collecting callable at the end *)

Lemma lookup_set_gen_state g s g' st :
  generators (set_gen_state g s st) !! g' =
    if decide (g' = g)
    then (fun go => mkGen (gen_self go) s) <$> generators st !! g'
    else generators st !! g'.
Proof.
  unfold set_gen_state. destruct (generators st !! g) as [go|] eqn:E.
  - cbn [generators set_generators]. destruct (decide (g' = g)) as [->|Hne].
    + rewrite E. apply list_lookup_insert_eq. exact (lookup_lt_Some _ _ _ E).
    + apply list_lookup_insert_ne. auto.
  - destruct (decide (g' = g)) as [->|Hne]; [rewrite E|]; reflexivity.
Qed.

Lemma lookup_set_all s gs g' st :
  generators (set_all s gs st) !! g' =
    if decide (g' ∈ gs)
    then (fun go => mkGen (gen_self go) s) <$> generators st !! g'
    else generators st !! g'.
Proof.
  induction gs as [|g gs IH]; cbn [set_all foldr].
  - rewrite decide_False by apply not_elem_of_nil. reflexivity.
  - fold (set_all s gs st). rewrite lookup_set_gen_state, IH.
    destruct (decide (g' ∈ g :: gs)) as [Hin|Hnin].
    + destruct (decide (g' = g)) as [Heq|Hne].
      * destruct (decide (g' ∈ gs)); destruct (generators st !! g'); reflexivity.
      * apply elem_of_cons in Hin as [?|Hin]; [contradiction|].
        rewrite decide_True by exact Hin. reflexivity.
    + apply not_elem_of_cons in Hnin as [Hne Hnin].
      rewrite decide_False by exact Hne. rewrite decide_False by exact Hnin. reflexivity.
Qed.

Lemma filter_objs_set_all s gs st : filter_objs (set_all s gs st) = filter_objs st.
Proof.
  induction gs as [|g gs IH]; [reflexivity|]. cbn [set_all foldr].
  fold (set_all s gs st). unfold set_gen_state.
  destruct (generators (set_all s gs st) !! g); cbn; exact IH.
Qed.

Lemma world_set_all s gs st : world (set_all s gs st) = world st.
Proof.
  induction gs as [|g gs IH]; [reflexivity|]. cbn [set_all foldr].
  fold (set_all s gs st). unfold set_gen_state.
  destruct (generators (set_all s gs st) !! g); cbn; exact IH.
Qed.

(** One element through mappers that return and into the collecting mapper. *)
Lemma process_collecting st s sid c l fs gc mc x :
  cell_stage <$> (c :: l) = stage_of <$> (total_map <$> fs) ->
  collecting st s sid (c :: l) gc mc ->
  exists st',
    Stream_process s x st = (Ok tt, st') /\
    collecting st' s sid (c :: l) gc mc /\
    world st' = world st ++ [compose_all fs x].
Proof.
  intros Hst (hd & Hs & Hlk & Hsus & Hnd & Hgc & Hg & Hm).
  assert (Hhd : hd = cell_gen c).
  { destruct c as [[g0 a0] p0]. destruct Hlk as ([= ->] & _). reflexivity. }
  subst hd.
  destruct (send_maps_then l c fs (S (length (generators st))) (cell_gen c)
              (mkElement sid x) st gc Hst Hlk Hsus Hnd)
    as (st_mid & M1 & M2 & M3 & M4 & M5 & M6 & M7 & M8 & Hsend).
  cbn [stream_id data] in Hsend.
  assert (Hgm : generators st_mid !! gc = Some (mkGen mc GSuspended)).
  { rewrite M7 by exact Hgc. exact Hg. }
  pose proof (lookup_lt_Some _ _ _ Hgm) as Hgclt.
  rewrite (send_unfold _ _ _ _ _ Hgm) in Hsend.
  unfold process, bind, get_filter in Hsend.
  cbn [streams filter_objs generators world trace warnings set_generators] in Hsend.
  rewrite M2, Hm in Hsend. cbn [kind] in Hsend.
  unfold Mapper_process, collect in Hsend.
  cbn [streams filter_objs generators world trace warnings set_generators data stream_id]
    in Hsend.
  cbv zeta in Hsend.
  unfold set_world, set_trace, set_generators in Hsend.
  cbn [streams filter_objs generators world trace warnings] in Hsend.
  rewrite ?M2, ?Hm in Hsend. cbn [next] in Hsend.
  unfold set_gen_state in Hsend.
  cbn [streams filter_objs generators world trace warnings] in Hsend.
  rewrite list_lookup_insert_eq in Hsend by exact Hgclt.
  unfold set_generators in Hsend.
  cbn [streams filter_objs generators world trace warnings gen_self] in Hsend.
  rewrite list_insert_insert_eq, (list_insert_id _ _ _ Hgm) in Hsend.
  eexists. split.
  { unfold Stream_process, bind, get_stream. rewrite Hs. cbn [s_head s_id].
    rewrite (send_top_depth (length (c :: l) + S (length (generators st)))) by lia.
    exact Hsend. }
  split.
  - exists (cell_gen c). split_and!.
    + rewrite streams_set_all. cbn [streams]. rewrite ?M1. exact Hs.
    + rewrite filter_objs_set_all. cbn [filter_objs]. rewrite ?M2. exact Hlk.
    + apply Forall_forall. intros c0 Hc0. rewrite lookup_set_all.
      rewrite decide_True by (apply list_elem_of_fmap; exists c0; auto).
      cbn [generators]. rewrite Forall_forall in M8. rewrite (M8 c0 Hc0). reflexivity.
    + exact Hnd.
    + exact Hgc.
    + rewrite lookup_set_all, decide_False by exact Hgc. cbn [generators]. exact Hgm.
    + rewrite filter_objs_set_all. cbn [filter_objs]. rewrite ?M2. exact Hm.
  - rewrite world_set_all. cbn [world]. rewrite ?M3. reflexivity.
Qed.

Lemma process_all_collecting s sid c l fs gc mc :
  cell_stage <$> (c :: l) = stage_of <$> (total_map <$> fs) ->
  forall xs st,
    collecting st s sid (c :: l) gc mc ->
    exists st',
      process_all s xs st = (Ok tt, st') /\
      world st' = world st ++ (compose_all fs <$> xs).
Proof.
  intros Hst. induction xs as [|x xs IH]; intros st Hc.
  - exists st. cbn. rewrite app_nil_r. auto.
  - destruct (process_collecting st s sid c l fs gc mc x Hst Hc) as (st1 & Hp & Hc1 & Hw1).
    destruct (IH st1 Hc1) as (st2 & Hps & Hw2).
    exists st2. cbn [process_all]. unfold bind. rewrite Hp. split; [exact Hps|].
    rewrite Hw2, Hw1, fmap_cons, <- app_assoc. reflexivity.
Qed.

(** X21.  The pattern of the test-suite, for any input.  A stream built by
    [map(f1)], ..., [map(fn)] with functions that return, closed by
    [map(cache)] where [cache] appends its argument to a list of its own and
    returns [None]: after [process] of the elements [xs], the list holds
    [fn(...f1(x)...)] for each of them, in call order, behind what it held
    before, and no call raised. *)
Theorem collecting_sink_receives_the_results st s sid f fs xs :
  streams st !! s = Some (mkStream None [] sid) ->
  exists st1 st2 st3,
    map_all s (f :: fs) st = (Ok s, st1) /\
    Stream_map s collect st1 = (Ok s, st2) /\
    process_all s xs st2 = (Ok tt, st3) /\
    world st3 = world st ++ (compose_all (f :: fs) <$> xs).
Proof.
  intros Hs. apply stream_chain_fresh in Hs.
  destruct (build_chain (total_map <$> (f :: fs)) st s sid [] Hs)
    as (st1 & ll & Hb1 & Hc & Hst & _ & Hw1 & _).
  cbn [app] in Hc. rewrite <- map_all_build in Hb1.
  destruct ll as [|c l]; [discriminate|].
  destruct Hc as (so & Hso & Hsoid & Hfl & Hlk & Hsus & Hng & Hna & Hlen).
  destruct so as [hd fl sid0]. cbn [s_head s_filters s_id] in *. subst sid0 fl.
  assert (Hhd : hd = Some (cell_gen c)).
  { destruct c as [[g0 a0] p0]. destruct Hlk as (-> & _). reflexivity. }
  subst hd.
  destruct (last (cell_addr <$> (c :: l))) as [tl|] eqn:Hlast.
  2:{ apply last_None in Hlast. discriminate. }
  set (gc := length (generators st1)). set (mc := length (filter_objs st1)).
  destruct (linked_retarget (filter_objs st1) _ _ gc (mkFilter None (Mapper collect))
              Hlk Hna tl Hlast) as (fo & Hfo & Hlk').
  pose proof (lookup_lt_Some _ _ _ Hfo) as Htllt.
  set (st2 := mkStore
                (<[s := mkStream (Some (cell_gen c)) ((cell_addr <$> (c :: l)) ++ [mc]) sid]>
                   (streams st1))
                (<[tl := mkFilter (Some gc) (kind fo)]>
                   (filter_objs st1 ++ [mkFilter None (Mapper collect)]))
                (generators st1 ++ [mkGen mc GSuspended])
                (world st1) (trace st1) (warnings st1)).
  assert (Hmap : Stream_map s collect st1 = (Ok s, st2)).
  { unfold Stream_map. unfold bind at 1. unfold alloc_filter. fold mc.
    unfold bind at 1.
    erewrite (Stream_append_tail _ s (mkStream (Some (cell_gen c)) (cell_addr <$> (c :: l)) sid)
                (cell_gen c) tl fo mc); cycle 1.
    { exact Hso. }
    { reflexivity. }
    { exact Hlast. }
    { cbn [filter_objs set_filter_objs]. apply lookup_app_l_Some. exact Hfo. }
    reflexivity. }
  assert (Hcol : collecting st2 s sid (c :: l) gc mc).
  { exists (cell_gen c). unfold st2. cbn [streams filter_objs generators].
    split_and!.
    - apply list_lookup_insert_eq. exact (lookup_lt_Some _ _ _ Hso).
    - exact Hlk'.
    - eapply suspended_frame; [|exact Hsus]. intros g0 Hg0.
      apply lookup_app_l. exact (suspended_lt _ _ _ Hsus Hg0).
    - exact Hng.
    - intros Hin. pose proof (suspended_lt _ _ _ Hsus Hin). unfold gc in *. lia.
    - apply list_lookup_middle. reflexivity.
    - rewrite list_lookup_insert_ne by (unfold mc; lia).
      apply list_lookup_middle. reflexivity. }
  destruct (process_all_collecting s sid c l (f :: fs) gc mc Hst xs st2 Hcol)
    as (st3 & Hp & Hw3).
  exists st1, st2, st3. split_and!; auto.
  rewrite Hw3. unfold st2. cbn [world]. rewrite Hw1. reflexivity.
Qed.

Lemma collecting_sink_receives_the_results_witness :
  let st := mkStore [mkStream None [] "s"] [] [] [] [] [] in
  let f := fun v : value => VTuple [v] in
  exists st1 st2 st3,
    map_all 0 (f :: []) st = (Ok 0, st1) /\
    Stream_map 0 collect st1 = (Ok 0, st2) /\
    process_all 0 [VInt 4; VInt 5] st2 = (Ok tt, st3) /\
    world st3 = world st ++ (compose_all (f :: []) <$> [VInt 4; VInt 5]).
Proof.
  cbv zeta.
  apply (collecting_sink_receives_the_results (mkStore [mkStream None [] "s"] [] [] [] [] [])
           0 "s" (fun v : value => VTuple [v]) [] [VInt 4; VInt 5]).
  reflexivity.
Defined.

(** ** A filter of one stream appended to another *)

(** Linking a filter of a chain to a new filter cuts the chain behind it. *)
Lemma linked_cut fs l1 gm m p l2 g' pn : forall it,
  linked fs it (l1 ++ (gm, m, p) :: l2) ->
  NoDup (cell_addr <$> (l1 ++ (gm, m, p) :: l2)) ->
  linked (<[m := mkFilter (Some g') (kind_of p)]> (fs ++ [mkFilter None (kind_of pn)]))
         it (l1 ++ [(gm, m, p); (g', length fs, pn)]).
Proof.
  induction l1 as [|[[g0 a0] p0] l1 IH]; intros it Hl Hnd.
  - cbn [app] in *. destruct Hl as (-> & nx & Ha & _).
    pose proof (lookup_lt_Some _ _ _ Ha) as Halt.
    split; [reflexivity|]. exists (Some g'). split.
    + apply list_lookup_insert_eq. rewrite length_app. lia.
    + split; [reflexivity|]. exists None. split; [|reflexivity].
      rewrite list_lookup_insert_ne by lia. apply list_lookup_middle. reflexivity.
  - cbn [app] in *. destruct Hl as (-> & nx & Ha & Hl).
    rewrite fmap_cons in Hnd. apply NoDup_cons in Hnd as [Hna Hnd].
    split; [reflexivity|]. exists nx. split; [|exact (IH nx Hl Hnd)].
    rewrite list_lookup_insert_ne.
    + apply lookup_app_l_Some. exact Ha.
    + intros <-. apply Hna. cbn [cell_addr fst snd]. rewrite fmap_app, fmap_cons.
      apply elem_of_app. right. apply elem_of_cons. left. reflexivity.
Qed.

Lemma NoDup_fmap_cut {A B} (F : A -> B) (l1 : list A) c l2 (y : B) :
  NoDup (F <$> (l1 ++ c :: l2)) ->
  (forall x : B, x ∈ F <$> (l1 ++ c :: l2) -> x <> y) ->
  NoDup ((F <$> (l1 ++ [c])) ++ [y]).
Proof.
  intros Hnd Hy. rewrite fmap_app, fmap_cons in Hnd.
  apply NoDup_app in Hnd as (H1 & H2 & H3). apply NoDup_cons in H3 as [H3 _].
  rewrite fmap_app. cbn [fmap list_fmap]. apply NoDup_app. split_and!.
  - apply NoDup_app. split_and!; [exact H1| |apply NoDup_singleton].
    intros x Hx Hx'. apply list_elem_of_singleton in Hx' as ->.
    apply (H2 _ Hx). apply elem_of_cons; auto.
  - intros x Hx Hx'. apply list_elem_of_singleton in Hx' as ->.
    apply (Hy y); [|reflexivity]. rewrite fmap_app, fmap_cons.
    apply elem_of_app in Hx as [Hx|Hx]; apply elem_of_app; auto.
    right. apply list_elem_of_singleton in Hx as ->. apply elem_of_cons; auto.
  - apply NoDup_singleton.
Qed.

(** X22.  The links of a chain belong to the filters, not to the streams.
    When a mapper [m] of one stream is appended to a second, new stream and
    that stream is extended by [map(h)], the second [append] overwrites the
    [next] of [m]: from then on the first stream relays what [m] emits to [h],
    and the stages it had behind [m] receive nothing any more. *)
Theorem appending_a_used_filter_redirects_its_stream st s1 sid1 l1 gm m f l2 s2 sid2 h x :
  stream_chain st s1 sid1 (l1 ++ (gm, m, PMap f) :: l2) ->
  streams st !! s2 = Some (mkStream None [] sid2) ->
  let l' := l1 ++ [(gm, m, PMap f); (S (length (generators st)), length (filter_objs st), PMap h)] in
  exists st1 st2,
    (let* _ := Stream_append s2 m in Stream_map s2 (lift1 h)) st = (Ok s2, st1) /\
    Stream_process s1 x st1 = (result_of (run_chain sid1 l' x), st2) /\
    trace st2 = trace st ++ o_outs (run_chain sid1 l' x).
Proof.
  intros Hc Hs2 l'.
  pose proof Hc as (so & Hs1 & Hid & Hfl & Hlk & Hsus & Hng & Hna & Hlen).
  destruct (linked_lookup _ _ _ _ _ _ _ Hlk) as [nx Hm].
  pose proof (lookup_lt_Some _ _ _ Hs2) as Hs2lt.
  pose proof (lookup_lt_Some _ _ _ Hm) as Hmlt.
  assert (Hne : s1 <> s2).
  { intros ->. rewrite Hs1 in Hs2. injection Hs2 as ->. cbn in Hfl.
    symmetry in Hfl. apply fmap_nil_inv in Hfl. destruct l1; discriminate. }
  set (g0 := length (generators st)) in *. set (mh := length (filter_objs st)) in *.
  set (st1 := mkStore
                (<[s2 := mkStream (Some g0) [m; mh] sid2]> (streams st))
                (<[m := mkFilter (Some (S g0)) (kind_of (PMap f))]>
                   (filter_objs st ++ [mkFilter None (kind_of (PMap h))]))
                ((generators st ++ [mkGen m GSuspended]) ++ [mkGen mh GSuspended])
                (world st) (trace st) (warnings st)).
  assert (Hbuild : (let* _ := Stream_append s2 m in Stream_map s2 (lift1 h)) st = (Ok s2, st1)).
  { unfold bind at 1.
    rewrite (Stream_append_head st s2 (mkStream None [] sid2) m Hs2 eq_refl).
    cbn [s_filters s_id app]. fold g0.
    unfold Stream_map. unfold bind at 1. unfold alloc_filter.
    cbn [streams filter_objs generators world trace warnings]. fold mh.
    unfold bind at 1.
    erewrite (Stream_append_tail _ s2 (mkStream (Some g0) [m] sid2) g0 m
                (mkFilter nx (kind_of (PMap f))) mh); cycle 1.
    { cbn [streams set_filter_objs]. apply list_lookup_insert_eq. exact Hs2lt. }
    { reflexivity. }
    { reflexivity. }
    { cbn [filter_objs set_filter_objs]. apply lookup_app_l_Some. exact Hm. }
    cbn [streams filter_objs generators world trace warnings set_filter_objs
         s_filters s_id app kind].
    rewrite list_insert_insert_eq, length_app. cbn [length]. fold g0.
    rewrite Nat.add_1_r. reflexivity. }
  assert (Hs1' : streams st1 !! s1 = Some so).
  { unfold st1. cbn [streams]. rewrite list_lookup_insert_ne by auto. exact Hs1. }
  assert (Hhd : exists it, s_head so = Some it).
  { destruct l1 as [|[[g1 a1] p1] l1]; cbn in Hlk; destruct Hlk as (-> & _); eauto. }
  destruct Hhd as [it Hit]. rewrite Hit in Hlk.
  assert (Hgs : forall g, g ∈ cell_gen <$> (l1 ++ (gm, m, PMap f) :: l2) -> g < g0).
  { intros g Hg. exact (suspended_lt _ _ _ Hsus Hg). }
  assert (Has : forall a, a ∈ cell_addr <$> (l1 ++ (gm, m, PMap f) :: l2) -> a < mh).
  { intros a Ha. exact (linked_lt _ _ _ _ Hlk Ha). }
  assert (Hsub : forall c0, c0 ∈ l1 ++ [(gm, m, PMap f)] ->
                            c0 ∈ l1 ++ (gm, m, PMap f) :: l2).
  { intros c0 Hc0. apply elem_of_app in Hc0 as [Hc0|Hc0]; apply elem_of_app; auto.
    right. apply list_elem_of_singleton in Hc0 as ->. apply elem_of_cons; auto. }
  destruct (send_chain l' (S (length (generators st1))) it (mkElement sid1 x) st1)
    as (st2 & Hsend & P1 & P2 & P3 & P4 & _).
  - unfold st1, l'. cbn [filter_objs].
    exact (linked_cut _ l1 gm m (PMap f) l2 (S g0) (PMap h) _ Hlk Hna).
  - unfold l'. change (l1 ++ [(gm, m, PMap f); (S g0, mh, PMap h)])
      with (l1 ++ [(gm, m, PMap f)] ++ [(S g0, mh, PMap h)]).
    rewrite app_assoc. apply Forall_app. split.
    + apply Forall_forall. intros c0 Hc0. unfold st1. cbn [generators].
      unfold suspended in Hsus. rewrite Forall_forall in Hsus.
      pose proof (Hsus c0 (Hsub c0 Hc0)) as Hg.
      rewrite <- app_assoc. apply lookup_app_l_Some. exact Hg.
    + constructor; [|constructor]. cbn [cell_gen cell_addr fst snd]. unfold st1.
      cbn [generators]. apply list_lookup_middle. rewrite length_app. cbn. unfold g0. lia.
  - unfold l'. change (l1 ++ [(gm, m, PMap f); (S g0, mh, PMap h)])
      with (l1 ++ [(gm, m, PMap f)] ++ [(S g0, mh, PMap h)]).
    rewrite app_assoc, fmap_app. cbn [fmap list_fmap cell_gen fst snd].
    apply (NoDup_fmap_cut cell_gen l1 (gm, m, PMap f) l2 (S g0) Hng).
    intros g Hg. pose proof (Hgs g Hg). lia.
  - unfold l'. change (l1 ++ [(gm, m, PMap f); (S g0, mh, PMap h)])
      with (l1 ++ [(gm, m, PMap f)] ++ [(S g0, mh, PMap h)]).
    rewrite app_assoc, fmap_app. cbn [fmap list_fmap cell_addr fst snd].
    apply (NoDup_fmap_cut cell_addr l1 (gm, m, PMap f) l2 mh Hna).
    intros a Ha. pose proof (Has a Ha). lia.
  - unfold l', st1. cbn [generators]. rewrite !length_app in *. cbn [length] in *.
    fold g0. lia.
  - exists st1, st2. split; [exact Hbuild|]. split.
    + unfold Stream_process, bind, get_stream. rewrite Hs1', Hit, Hid. exact Hsend.
    + rewrite P4. reflexivity.
Qed.

Lemma appending_a_used_filter_redirects_its_stream_witness :
  let f := fun v : value => Ok (VTuple [v]) in
  let old := fun v : value => Ok (VTuple [v; v]) in
  let h := fun v : value => Ok (VTuple [VNone; v]) in
  let st := mkStore [mkStream (Some 0) [0; 1] "a"; mkStream None [] "b"]
              [mkFilter (Some 1) (Mapper (lift1 f)); mkFilter None (Mapper (lift1 old))]
              [mkGen 0 GSuspended; mkGen 1 GSuspended] [] [] [] in
  let l' := [] ++ [(0, 0, PMap f); (S (length (generators st)), length (filter_objs st), PMap h)] in
  exists st1 st2,
    (let* _ := Stream_append 1 0 in Stream_map 1 (lift1 h)) st = (Ok 1, st1) /\
    Stream_process 0 (VInt 3) st1 = (result_of (run_chain "a" l' (VInt 3)), st2) /\
    trace st2 = trace st ++ o_outs (run_chain "a" l' (VInt 3)).
Proof.
  cbv zeta.
  apply (appending_a_used_filter_redirects_its_stream
           (mkStore [mkStream (Some 0) [0; 1] "a"; mkStream None [] "b"]
              [mkFilter (Some 1) (Mapper (lift1 (fun v : value => Ok (VTuple [v]))));
               mkFilter None (Mapper (lift1 (fun v : value => Ok (VTuple [v; v]))))]
              [mkGen 0 GSuspended; mkGen 1 GSuspended] [] [] [])
           0 "a" [] 0 0 (fun v : value => Ok (VTuple [v]))
           [(1, 1, PMap (fun v : value => Ok (VTuple [v; v])))] 1 "b"
           (fun v : value => Ok (VTuple [VNone; v])) (VInt 3)).
  - exists (mkStream (Some 0) [0; 1] "a"). cbn.
    split_and!; try reflexivity.
    all: try (exists (Some 1); split; [reflexivity|]; split; [reflexivity|];
              exists None; split; reflexivity).
    all: try (repeat constructor; rewrite ?elem_of_cons, ?elem_of_nil; intuition lia).
    all: try lia.
  - reflexivity.
Defined.

(** ** Arrivals from one side only *)

(** X23.  A joiner tells its inputs apart by the identity stamped on the
    element and by nothing else (line 183).  Arrivals that all carry the
    identity of the left stream never make a new joiner emit, and neither do
    arrivals none of which carries it.  In particular, two streams constructed
    with the same [stream_id] can be joined, but whatever is fed to them the
    joiner emits nothing: every arrival counts as one on the left. *)
Theorem one_sided_arrivals_never_join lid tid max_size c0 es :
  lrucache.new max_size = Ok c0 ->
  Forall (fun e => stream_id e = lid) es \/ Forall (fun e => stream_id e <> lid) es ->
  Forall (fun r => r = Ok None \/ exists e, r = Raise e) (Joiner_steps lid tid c0 c0 es).1.
Proof.
  intros Hc0 Hside. apply new_inv in Hc0 as [_ ->].
  apply Forall_forall. intros [[out|]|e] Hr; [exfalso|auto|eauto].
  assert (Hj : joins lid tid ([] ++ es) out).
  { refine (Joiner_steps_sound lid tid es [] _ _ _ out Hr).
    split; cbn; intros k v H; apply elem_of_nil in H; contradiction. }
  cbn [app] in Hj.
  destruct Hj as (k & a & b & el & er & _ & Hel & Hlid & _ & Her & Hrid & _).
  destruct Hside as [Hall|Hall]; rewrite Forall_forall in Hall.
  - exact (Hrid (Hall er Her)).
  - exact (Hall el Hel Hlid).
Qed.

Lemma one_sided_arrivals_never_join_witness :
  Forall (fun r => r = Ok None \/ exists e, r = Raise e)
    (Joiner_steps "same" "target" (lrucache.mk 128 []) (lrucache.mk 128 [])
       [mkElement "same" (VTuple [VInt 1; VInt 10]);
        mkElement "same" (VTuple [VInt 1; VInt 20]);
        mkElement "same" VNone]).1.
Proof.
  apply (one_sided_arrivals_never_join "same" "target" 128 (lrucache.mk 128 [])).
  - reflexivity.
  - left. repeat constructor.
Defined.

(** ** Joined streams against [Joiner_steps] *)

Lemma Joiner_step_is_pair lid tid cl cr e :
  is_pair (data e) -> exists o c, Joiner_step lid tid cl cr e = (Ok o, c).
Proof.
  destruct e as [sid [|n|[|k [|v rest]]]]; cbn [is_pair data]; try contradiction.
  intros _. unfold Joiner_step. cbn [data stream_id subscript lookup list_lookup].
  destruct (String.eqb sid lid).
  - destruct (lrucache.get k cr) as [c cr']. destruct (is_not_None c); eauto.
  - destruct (lrucache.get k cl) as [c cl']. destruct (is_not_None c); eauto.
Qed.

(** An arrival on one side of two joined streams with nothing behind the
    joiner, when [Joiner.process] returns: the streams stay joined, with the
    caches that the call left. *)
Lemma joined_step st l r t j lid rid tid cl cr m0 (on_left : bool) d o c :
  joined st l r t j lid rid tid cl cr None [] ->
  filter_objs st !! j = Some (mkFilter None (Joiner cl cr l r t m0)) ->
  Joiner_step lid tid cl cr (mkElement (if on_left then lid else rid) d) = (Ok o, c) ->
  exists st',
    Stream_process (if on_left then l else r) d st = (Ok tt, st') /\
    trace st' = trace st ++ emitted j [Ok o] /\
    world st' = world st /\
    joined st' l r t j lid rid tid c.1 c.2 None [] /\
    filter_objs st' !! j = Some (mkFilter None (Joiner c.1 c.2 l r t m0)).
Proof.
  intros Hjd Hj0 Hstep.
  pose proof Hjd as (gl & gr & fl & fr & stt & m & Hl & Hr & Ht & Htid & Hgl & Hgr & Hj & Hlk
                     & Hsus & Hng & Hna & Hgln & Hgrn & Hjn & Hlen).
  assert (m = m0) as -> by congruence.
  assert (Harr : exists gs fs,
             streams st !! (if on_left then l else r)
               = Some (mkStream (Some gs) fs (if on_left then lid else rid)) /\
             generators st !! gs = Some (mkGen j GSuspended)).
  { destruct on_left; eauto. }
  destruct Harr as (gs & fs & Hs & Hgs).
  pose proof (lookup_lt_Some _ _ _ Hgs) as Hgslt.
  pose proof (lookup_lt_Some _ _ _ Hj) as Hjlt.
  unfold Stream_process, bind, get_stream. rewrite Hs. cbn [s_head s_id].
  unfold send_top. rewrite (send_joiner _ _ _ _ _ _ _ _ _ _ _ _ _ _ Hgs Hj Hl Ht).
  cbv zeta. cbn [s_id]. rewrite Htid, Hstep. cbn [fst snd].
  assert (Hrestore : forall tr,
            set_gen_state gs GSuspended
              (mkStore (streams st)
                 (<[j := mkFilter None (Joiner c.1 c.2 l r t m0)]> (filter_objs st))
                 (<[gs := mkGen j GRunning]> (generators st)) (world st) tr (warnings st))
            = mkStore (streams st)
                (<[j := mkFilter None (Joiner c.1 c.2 l r t m0)]> (filter_objs st))
                (generators st) (world st) tr (warnings st)).
  { intros tr. unfold set_gen_state. cbn [generators].
    rewrite list_lookup_insert_eq by exact Hgslt. cbn [gen_self].
    unfold set_generators. cbn [streams filter_objs generators world trace warnings].
    rewrite list_insert_insert_eq, (list_insert_id _ _ _ Hgs). reflexivity. }
  assert (Hjoined : forall tr,
            joined (mkStore (streams st)
                      (<[j := mkFilter None (Joiner c.1 c.2 l r t m0)]> (filter_objs st))
                      (generators st) (world st) tr (warnings st))
                   l r t j lid rid tid c.1 c.2 None []).
  { intros tr. exists gl, gr, fl, fr, stt, m0.
    cbn [streams filter_objs generators]. split_and!; auto.
    apply list_lookup_insert_eq. exact Hjlt. }
  assert (Hj' : forall tr,
            filter_objs (mkStore (streams st)
                           (<[j := mkFilter None (Joiner c.1 c.2 l r t m0)]> (filter_objs st))
                           (generators st) (world st) tr (warnings st)) !! j
            = Some (mkFilter None (Joiner c.1 c.2 l r t m0))).
  { intros tr. cbn [filter_objs]. apply list_lookup_insert_eq. exact Hjlt. }
  destruct o as [out|].
  - unfold set_trace. cbn [streams filter_objs generators world trace warnings].
    rewrite Hrestore. eexists. split; [reflexivity|].
    split; [|split; [reflexivity|split; [apply Hjoined|apply Hj']]].
    cbn [trace emitted flat_map]. rewrite app_nil_r. reflexivity.
  - rewrite Hrestore. eexists. split; [reflexivity|].
    split; [|split; [reflexivity|split; [apply Hjoined|apply Hj']]].
    cbn [trace emitted flat_map]. rewrite !app_nil_r. reflexivity.
Qed.

Lemma emitted_cons j r rs : emitted j (r :: rs) = emitted j [r] ++ emitted j rs.
Proof. unfold emitted. cbn [flat_map]. rewrite app_nil_r. reflexivity. Qed.

Lemma feeds_joined ds m0 : forall st l r t j lid rid tid cl cr,
  joined st l r t j lid rid tid cl cr None [] ->
  filter_objs st !! j = Some (mkFilter None (Joiner cl cr l r t m0)) ->
  Forall (fun bd : bool * value => is_pair bd.2) ds ->
  exists st',
    feeds l r ds st = (Ok tt, st') /\
    trace st' = trace st ++ emitted j (Joiner_steps lid tid cl cr (arrivals lid rid ds)).1 /\
    world st' = world st /\
    joined st' l r t j lid rid tid
      (Joiner_steps lid tid cl cr (arrivals lid rid ds)).2.1
      (Joiner_steps lid tid cl cr (arrivals lid rid ds)).2.2 None [] /\
    filter_objs st' !! j
      = Some (mkFilter None
                (Joiner (Joiner_steps lid tid cl cr (arrivals lid rid ds)).2.1
                        (Joiner_steps lid tid cl cr (arrivals lid rid ds)).2.2 l r t m0)).
Proof.
  induction ds as [|[b d] ds IH]; intros st l r t j lid rid tid cl cr Hjd Hj0 Hwf.
  - exists st. cbn. rewrite app_nil_r. auto.
  - apply Forall_cons in Hwf as [Hd Hwf]. cbn [snd] in Hd.
    destruct (Joiner_step_is_pair lid tid cl cr (mkElement (if b then lid else rid) d) Hd)
      as (o & c & Hstep).
    destruct (joined_step st l r t j lid rid tid cl cr m0 b d o c Hjd Hj0 Hstep)
      as (st1 & Hp & Ht1 & Hw1 & Hjd1 & Hj1).
    destruct (IH st1 l r t j lid rid tid c.1 c.2 Hjd1 Hj1 Hwf)
      as (st2 & Hf & Ht2 & Hw2 & Hjd2 & Hj2).
    exists st2. cbn [feeds]. unfold bind. rewrite Hp.
    unfold arrivals. rewrite fmap_cons. cbn [fst snd Joiner_steps]. rewrite Hstep.
    fold (arrivals lid rid ds). destruct c as [cl1 cr1]. cbn [fst snd] in *.
    destruct (Joiner_steps lid tid cl1 cr1 (arrivals lid rid ds)) as [rs [cl2 cr2]].
    cbn [fst snd] in *. split_and!; auto.
    + rewrite Ht2, Ht1, (emitted_cons j (Ok o) rs), <- app_assoc. reflexivity.
    + congruence.
Qed.

(** X24.  Two joined streams do what [Joiner.process] does, call by call.
    After [join] on two new streams, any interleaving of [left.process] and
    [right.process] calls with payloads of two or more components returns
    without raising, and what the joiner emits in the course of them is, in
    order, what the successive [Joiner.process] calls return for the elements
    stamped with the identities of the two streams; the joiner object ends
    with the caches those calls leave. *)
Theorem joined_streams_follow_the_joiner st l r lid rid max_size uuid c0 ds :
  streams st !! l = Some (mkStream None [] lid) ->
  streams st !! r = Some (mkStream None [] rid) ->
  l <> r ->
  lrucache.new max_size = Ok c0 ->
  Forall (fun bd : bool * value => is_pair bd.2) ds ->
  let j := length (filter_objs st) in
  let steps := Joiner_steps lid uuid c0 c0 (arrivals lid rid ds) in
  exists t st1 st2,
    join l r max_size uuid st = (Ok t, st1) /\
    feeds l r ds st1 = (Ok tt, st2) /\
    trace st2 = trace st ++ emitted j steps.1 /\
    filter_objs st2 !! j
      = Some (mkFilter None (Joiner steps.2.1 steps.2.2 l r t max_size)).
Proof.
  intros Hl Hr Hne Hc0 Hwf j steps. apply new_inv in Hc0 as [Hm ->].
  destruct (join_joined st l r lid rid max_size uuid Hl Hr Hne Hm)
    as (st1 & Hjoin & Hjd & Ht1 & _ & _ & _).
  assert (Hj1 : filter_objs st1 !! j
                = Some (mkFilter None
                          (Joiner (lrucache.mk (Z.to_nat max_size) [])
                                  (lrucache.mk (Z.to_nat max_size) [])
                                  l r (length (streams st)) max_size))).
  { destruct (join_store st l r lid rid max_size uuid Hl Hr Hne Hm)
      as (st1' & Hjoin' & _ & _ & _ & _ & _ & _ & Hj1 & _).
    rewrite Hjoin in Hjoin'. injection Hjoin' as <-. exact Hj1. }
  destruct (feeds_joined ds max_size st1 l r _ _ lid rid uuid _ _ Hjd Hj1 Hwf)
    as (st2 & Hf & Ht2 & _ & _ & Hj2).
  exists (length (streams st)), st1, st2. split_and!; auto.
  rewrite Ht2, Ht1. reflexivity.
Qed.

Lemma joined_streams_follow_the_joiner_witness :
  let st := mkStore [mkStream None [] "left"; mkStream None [] "right"] [] [] [] [] [] in
  let ds := [(true, VTuple [VInt 1; VInt 10]); (false, VTuple [VInt 1; VInt 20]);
             (false, VTuple [VInt 2; VInt 21]); (true, VTuple [VInt 2; VInt 11])] in
  let steps := Joiner_steps "left" "target" (lrucache.mk 128 []) (lrucache.mk 128 [])
                 (arrivals "left" "right" ds) in
  exists t st1 st2,
    join 0 1 128 "target" st = (Ok t, st1) /\
    feeds 0 1 ds st1 = (Ok tt, st2) /\
    trace st2 = trace st ++ emitted (length (filter_objs st)) steps.1 /\
    filter_objs st2 !! length (filter_objs st)
      = Some (mkFilter None (Joiner steps.2.1 steps.2.2 0 1 t 128)).
Proof.
  cbv zeta.
  apply (joined_streams_follow_the_joiner
           (mkStore [mkStream None [] "left"; mkStream None [] "right"] [] [] [] [] [])
           0 1 "left" "right" 128 "target" (lrucache.mk 128 [])
           [(true, VTuple [VInt 1; VInt 10]); (false, VTuple [VInt 1; VInt 20]);
            (false, VTuple [VInt 2; VInt 21]); (true, VTuple [VInt 2; VInt 11])]).
  - reflexivity.
  - reflexivity.
  - lia.
  - reflexivity.
  - repeat constructor.
Defined.
